(** * Defenders-Dashboard: the simulation and reactive-rule core

    A shallow embedding of the game model ([gameModel.js]), the rule engine
    ([ruleEngine.js]), the weighted template choice of the event generator
    ([eventGenerator.js]) and the escalation impact
    ([escalationsController.js]), followed by the properties the
    specification states about them.

    Conventions of the embedding.
    - JavaScript numbers are exact: integers are [Z], fractional quantities
      (uptime, likelihoods, multipliers, the speed bonus) are [Q]. The
      rounding of IEEE doubles is not represented; on integers the model
      agrees with JavaScript up to 2^53.
    - [Date.now()] and [Math.random()] are inputs of the function that reads
      them.
    - The object [gameModel] (its [state], [currentLevelIndex], [settings]),
      the [localStorage] item ['gameState'] and the sequence of
      [eventBus.publish] calls are the components of [Model]; the methods
      are computations in a state-and-exception monad over it.
    - [undefined] properties are [None].
    - A text is held as the bytes of its UTF-8 encoding, as a string
      literal of this file holds it. Equality and [includes] on these bytes
      are those of JavaScript on well-formed text; the length of a text is
      used only to tell the empty text from the others. *)

From Stdlib Require Import ZArith QArith Qround List String Ascii Bool Lia Lqa.
From Stdlib Require Import DecimalString.
Import ListNotations.

Open Scope string_scope.
Open Scope list_scope.
Open Scope Z_scope.

(** ** JavaScript built-ins used by the core *)

Module JS.

(** [Math.max(a, b)] and [Math.min(a, b)] on fractional numbers. *)
Definition Math_max (a b : Q) : Q := if Qle_bool a b then b else a.
Definition Math_min (a b : Q) : Q := if Qle_bool a b then a else b.

(** [Math.round]: the nearest integer, halves towards plus infinity. *)
Definition Math_round (x : Q) : Z := Qfloor (x + (1 # 2)).

Definition Math_ceil (x : Q) : Z := Qceiling x.

(** [a || b] on a number: [a] unless it is falsy, that is zero. *)
Definition or_default (a b : Q) : Q := if Qeq_bool a 0 then b else a.

(** Truthiness of a string-valued property: defined and non-empty. *)
Definition truthy (s : option string) : bool :=
  match s with
  | Some EmptyString => false
  | Some _ => true
  | None => false
  end.

(** [a === b] on string-valued properties ([undefined === undefined]). *)
Definition strict_eq (a b : option string) : bool :=
  match a, b with
  | Some x, Some y => String.eqb x y
  | None, None => true
  | _, _ => false
  end.

(** The characters [trim] and [parseInt] strip, the WhiteSpace and
    LineTerminator of ECMAScript, as code points: TAB, LF, VT, FF, CR, SP,
    U+00A0, U+1680, U+2000 to U+200A, U+2028, U+2029, U+202F, U+205F,
    U+3000 and U+FEFF. *)
Definition whiteSpace : list N :=
  [9; 10; 11; 12; 13; 32; 160; 5760; 8192; 8193; 8194; 8195; 8196; 8197;
   8198; 8199; 8200; 8201; 8202; 8232; 8233; 8239; 8287; 12288; 65279]%N.

(** The UTF-8 bytes of a code point below U+10000. *)
Definition utf8 (codePoint : N) : list ascii :=
  (if codePoint <? 128 then [ascii_of_N codePoint]
   else if codePoint <? 2048
   then [ascii_of_N (192 + codePoint / 64);
         ascii_of_N (128 + codePoint mod 64)]
   else [ascii_of_N (224 + codePoint / 4096);
         ascii_of_N (128 + (codePoint / 64) mod 64);
         ascii_of_N (128 + codePoint mod 64)])%N.

(** The text after the prefix [w], when [s] begins with [w]. *)
Fixpoint after (w s : list ascii) : option (list ascii) :=
  match w, s with
  | [], _ => Some s
  | c :: w', d :: s' => if Ascii.eqb c d then after w' s' else None
  | _ :: _, [] => None
  end.

(** The text after its first character, when that is one of [chars]. *)
Fixpoint afterOneOf (chars : list (list ascii)) (s : list ascii)
  : option (list ascii) :=
  match chars with
  | [] => None
  | w :: rest =>
      match after w s with
      | Some r => Some r
      | None => afterOneOf rest s
      end
  end.

(** Removes leading characters of [chars], at most [n] of them. *)
Fixpoint strip (chars : list (list ascii)) (n : nat) (s : list ascii)
  : list ascii :=
  match n with
  | O => s
  | S n' =>
      match afterOneOf chars s with
      | Some r => strip chars n' r
      | None => s
      end
  end.

(** [s.trimStart()] *)
Definition trimStart (s : string) : string :=
  string_of_list_ascii
    (strip (List.map utf8 whiteSpace) (String.length s)
       (list_ascii_of_string s)).

Definition reverse (s : string) : string :=
  string_of_list_ascii (List.rev (list_ascii_of_string s)).

(** [s.trimEnd()]: the same from the end, on the bytes in reverse. *)
Definition trimEnd (s : string) : string :=
  reverse
    (string_of_list_ascii
       (strip (List.map (fun c => List.rev (utf8 c)) whiteSpace)
          (String.length s) (list_ascii_of_string (reverse s)))).

(** [s.trim()] *)
Definition trim (s : string) : string := trimEnd (trimStart s).

(** [s.includes(kw)]: [kw] occurs in [s] at some position. *)
Fixpoint includes (s kw : string) : bool :=
  if prefix kw s then true
  else match s with
       | EmptyString => false
       | String _ s' => includes s' kw
       end.

(** [ToString] of an argument of [includes]. *)
Definition toString (s : option string) : string :=
  match s with
  | Some x => x
  | None => "undefined"
  end.

(** Value of a character as a digit, for radix up to 36. *)
Definition digitValue (c : ascii) : option Z :=
  let n := Z.of_nat (nat_of_ascii c) in
  if ((48 <=? n) && (n <=? 57))%bool then Some (n - 48)
  else if ((97 <=? n) && (n <=? 122))%bool then Some (n - 87)
  else if ((65 <=? n) && (n <=? 90))%bool then Some (n - 55)
  else None.

(** The longest prefix of radix-[R] digits, as a number; [None] if empty. *)
Fixpoint digits (R : Z) (s : string) (acc : option Z) : option Z :=
  match s with
  | EmptyString => acc
  | String c s' =>
      match digitValue c with
      | Some d =>
          if d <? R
          then digits R s' (Some (match acc with
                                  | Some a => a * R + d
                                  | None => d
                                  end))
          else acc
      | None => acc
      end
  end.

(** [parseInt(s)] without a radix on a string; [None] is [NaN]. *)
Definition parseInt_string (s : string) : option Z :=
  let str := trimStart s in
  let '(sign, str) :=
    match str with
    | String "-" r => (-1, r)
    | String "+" r => (1, r)
    | _ => (1, str)
    end in
  let '(R, str) :=
    match str with
    | String "0" (String c r) =>
        if (Ascii.eqb c "x" || Ascii.eqb c "X")%bool then (16, r) else (10, str)
    | _ => (10, str)
    end in
  option_map (Z.mul sign) (digits R str None).

(** [parseInt] of a string-valued property ([parseInt(undefined)] is NaN). *)
Definition parseInt (s : option string) : option Z :=
  match s with
  | Some x => parseInt_string x
  | None => None
  end.

(** [parseInt] of a number-valued property holding an integer below 1e21,
    whose [ToString] is its plain decimal numeral. *)
Definition parseInt_number (n : option Z) : option Z := n.

(** [a > b] and [a >= b] on possibly-NaN numbers: false if either is NaN. *)
Definition gt (a b : option Z) : bool :=
  match a, b with
  | Some x, Some y => y <? x
  | _, _ => false
  end.

Definition ge (a b : option Z) : bool :=
  match a, b with
  | Some x, Some y => y <=? x
  | _, _ => false
  end.

Definition isNaN (a : option Z) : bool :=
  match a with
  | Some _ => false
  | None => true
  end.

End JS.

(** ** JSON values

    What [JSON.parse] returns. A number is exact and finite; an object is
    the list of its members in the order of the text, of which the last
    one of a name is the property of that name. *)
Module JSON.

#[warnings="-register-all"]
Inductive value : Type :=
| null
| boolean (b : bool)
| number (q : Q)
| text (s : string)
| array (elements : list value)
| object (members : list (string * value)).

(** [o.hasOwnProperty(key)] and [o[key]] for the object of these members:
    [None] when it has no such property. *)
Fixpoint get (key : string) (members : list (string * value))
  : option value :=
  match members with
  | [] => None
  | (k, v) :: rest =>
      match get key rest with
      | Some v' => Some v'
      | None => if String.eqb k key then Some v else None
      end
  end.

End JSON.

(** ** Data model *)

(** An event as [eventGenerator.generateEvent] creates it. The narrative
    properties ([description], [education], [escalation], [user], [url],
    [action], [status]) are read by the presentation layer only. *)
Record Event := {
  ev_timestamp : string;
  ev_type : string;
  ev_category : string;
  ev_severity : Z;
  ev_isNoise : bool;
  ev_remediation : option string;
  ev_ip : option string;
  ev_count : option Z;
  ev_volume : option Z;
  ev_code : option Z;
  ev_process : option string;
  ev_domain : option string;
  ev_resource : option string;
  ev_service : option string
}.

(** A rule as the rule form submits it: every parameter is the text of an
    input field, [None] when the property is not set. *)
Record Rule := {
  conditionType : string;
  combinator : option string;
  threshold : option string;
  processName : option string;
  domainKeyword : option string;
  errorCodeThreshold : option string;
  resourceKeyword : option string;
  serviceName : option string
}.

(** An entry of [state.pendingMaliciousEvents]. *)
Record PendingEntry := {
  pe_event : Event;
  pe_timestamp : Z;
  pe_handled : bool
}.

Record TrafficSample := {
  ts_timestamp : Z;
  packetCount : Z
}.

Record Level := {
  lv_level : Z;
  lv_name : string;
  lv_description : string;
  lv_eventFrequencyMultiplier : Q;
  lv_noiseEventProbability : Q;
  lv_attackSophistication : string;
  targetScore : Z
}.

Record Settings := {
  eventFrequencyMultiplier : Q;
  noiseEventProbability : Q;
  attackSophistication : string;
  simulationInterval : Z;
  falsePositiveChance : Q;
  escalationTimeout : Z
}.

Record GameState := {
  isRunning : bool;
  level : Z;
  score : Z;
  uptime : Q;
  rules : list Rule;
  levelProgress : Z;
  events : list Event;
  pendingMaliciousEvents : list PendingEntry;
  trafficData : list TrafficSample
}.

(** A stored object within the types of the program: the five properties
    [loadGameState] asks for ([None] when [hasOwnProperty] is false), each
    holding a value of the type [saveGameState] writes, and its other own
    properties. Which values of [JSON.parse] are such objects is said by
    [typedItem] below; a record whose level is not an integer is none. *)
Record SavedState := {
  sv_level : option Z;
  sv_score : option Z;
  sv_uptime : option Q;
  sv_rules : option (list Rule);
  sv_levelProgress : option Z;
  sv_other : list (string * JSON.value)
}.

(** The item ['gameState'] of [localStorage]: text that [JSON.parse]
    rejects or parses to [null] (both end in the [catch] branch, before any
    property is copied), or text that parses to another value. *)
Inductive StoredItem :=
| Malformed
| Parsed (savedState : SavedState).

(** [localStorage]: [getItem] yields [item] ([None] for [null] and for the
    empty text, which are both falsy); [setItem] throws unless [writable]. *)
Record Storage := {
  item : option StoredItem;
  writable : bool
}.

(** Damage metrics of [calculateSimulatedDamage]. *)
Record Damage := {
  uptimeImpact : Q;
  dataBreach : bool;
  financialImpact : Z;
  recoveryTimeHours : Q
}.

(** One call of [eventBus.publish], with its payload. *)
Inductive Publication :=
| gameState_reset (s : GameState)
| settings_updated (s : Settings)
| level_changed (l : option Level)
| game_completed
| score_updated (totalScore earnedPoints : Z)
| event_added (e : Event)
| event_handled (e : Event)
| events_escalated (es : list Event)
| escalation_started (e : Event) (simulatedDamage : Damage)
| uptime_updated (u : Q) (cause : string)
| game_over (reason : string) (e : Event)
| rule_added (r : Rule)
| rules_triggered (e : Event) (rs : list Rule)
| notification_error (message : string).

Definition topic (p : Publication) : string :=
  match p with
  | gameState_reset _ => "gameState:reset"
  | settings_updated _ => "settings:updated"
  | level_changed _ => "level:changed"
  | game_completed => "game:completed"
  | score_updated _ _ => "score:updated"
  | event_added _ => "event:added"
  | event_handled _ => "event:handled"
  | events_escalated _ => "events:escalated"
  | escalation_started _ _ => "escalation:started"
  | uptime_updated _ _ => "uptime:updated"
  | game_over _ _ => "game:over"
  | rule_added _ => "rule:added"
  | rules_triggered _ _ => "rules:triggered"
  | notification_error _ => "notification:error"
  end.

(** The model object together with the storage it persists to and the
    publications it has made, oldest first. *)
Record Model := {
  state : GameState;
  currentLevelIndex : Z;
  settings : Settings;
  localStorage : Storage;
  published : list Publication
}.

(** ** Field updates

    JavaScript assigns to one property and leaves the others; each setter
    rebuilds the record with one field replaced. *)

Definition set_isRunning (v : bool) (s : GameState) : GameState :=
  {| isRunning := v; level := level s; score := score s; uptime := uptime s;
     rules := rules s; levelProgress := levelProgress s; events := events s;
     pendingMaliciousEvents := pendingMaliciousEvents s;
     trafficData := trafficData s |}.

Definition set_level (v : Z) (s : GameState) : GameState :=
  {| isRunning := isRunning s; level := v; score := score s; uptime := uptime s;
     rules := rules s; levelProgress := levelProgress s; events := events s;
     pendingMaliciousEvents := pendingMaliciousEvents s;
     trafficData := trafficData s |}.

Definition set_score (v : Z) (s : GameState) : GameState :=
  {| isRunning := isRunning s; level := level s; score := v; uptime := uptime s;
     rules := rules s; levelProgress := levelProgress s; events := events s;
     pendingMaliciousEvents := pendingMaliciousEvents s;
     trafficData := trafficData s |}.

Definition set_uptime (v : Q) (s : GameState) : GameState :=
  {| isRunning := isRunning s; level := level s; score := score s; uptime := v;
     rules := rules s; levelProgress := levelProgress s; events := events s;
     pendingMaliciousEvents := pendingMaliciousEvents s;
     trafficData := trafficData s |}.

Definition set_rules (v : list Rule) (s : GameState) : GameState :=
  {| isRunning := isRunning s; level := level s; score := score s;
     uptime := uptime s; rules := v; levelProgress := levelProgress s;
     events := events s; pendingMaliciousEvents := pendingMaliciousEvents s;
     trafficData := trafficData s |}.

Definition set_levelProgress (v : Z) (s : GameState) : GameState :=
  {| isRunning := isRunning s; level := level s; score := score s;
     uptime := uptime s; rules := rules s; levelProgress := v;
     events := events s; pendingMaliciousEvents := pendingMaliciousEvents s;
     trafficData := trafficData s |}.

Definition set_events (v : list Event) (s : GameState) : GameState :=
  {| isRunning := isRunning s; level := level s; score := score s;
     uptime := uptime s; rules := rules s; levelProgress := levelProgress s;
     events := v; pendingMaliciousEvents := pendingMaliciousEvents s;
     trafficData := trafficData s |}.

Definition set_pendingMaliciousEvents (v : list PendingEntry) (s : GameState)
  : GameState :=
  {| isRunning := isRunning s; level := level s; score := score s;
     uptime := uptime s; rules := rules s; levelProgress := levelProgress s;
     events := events s; pendingMaliciousEvents := v;
     trafficData := trafficData s |}.

Definition set_trafficData (v : list TrafficSample) (s : GameState)
  : GameState :=
  {| isRunning := isRunning s; level := level s; score := score s;
     uptime := uptime s; rules := rules s; levelProgress := levelProgress s;
     events := events s; pendingMaliciousEvents := pendingMaliciousEvents s;
     trafficData := v |}.

Definition with_state (f : GameState -> GameState) (m : Model) : Model :=
  {| state := f (state m); currentLevelIndex := currentLevelIndex m;
     settings := settings m; localStorage := localStorage m;
     published := published m |}.

Definition set_currentLevelIndex (v : Z) (m : Model) : Model :=
  {| state := state m; currentLevelIndex := v; settings := settings m;
     localStorage := localStorage m; published := published m |}.

Definition set_settings (v : Settings) (m : Model) : Model :=
  {| state := state m; currentLevelIndex := currentLevelIndex m; settings := v;
     localStorage := localStorage m; published := published m |}.

Definition set_localStorage (v : Storage) (m : Model) : Model :=
  {| state := state m; currentLevelIndex := currentLevelIndex m;
     settings := settings m; localStorage := v; published := published m |}.

Definition set_published (v : list Publication) (m : Model) : Model :=
  {| state := state m; currentLevelIndex := currentLevelIndex m;
     settings := settings m; localStorage := localStorage m; published := v |}.

(** ** The monad of model code

    A method runs on the model and either returns a value or throws; in
    both cases the mutations it made so far stay. *)

Inductive outcome (A : Type) : Type :=
| Returned (a : A) (m : Model)
| Thrown (m : Model).

Arguments Returned {A} a m.
Arguments Thrown {A} m.

Definition M (A : Type) : Type := Model -> outcome A.

Definition ret {A : Type} (a : A) : M A := fun m => Returned a m.

Definition bind {A B : Type} (c : M A) (k : A -> M B) : M B :=
  fun m =>
    match c m with
    | Returned a m' => k a m'
    | Thrown m' => Thrown m'
    end.

Definition throw {A : Type} : M A := fun m => Thrown m.

Definition gets {A : Type} (f : Model -> A) : M A := fun m => Returned (f m) m.

Definition modify (f : Model -> Model) : M unit := fun m => Returned tt (f m).

Notation "x <- c1 ;; c2" := (bind c1 (fun x => c2))
  (at level 61, c1 at next level, right associativity).
Notation "c1 ;; c2" := (bind c1 (fun _ => c2))
  (at level 61, right associativity).

(** The model a computation leaves behind, and the value it returned. *)
Definition final {A : Type} (o : outcome A) : Model :=
  match o with
  | Returned _ m => m
  | Thrown m => m
  end.

Definition result {A : Type} (o : outcome A) : option A :=
  match o with
  | Returned a _ => Some a
  | Thrown _ => None
  end.

(** [array.forEach(f)] with an effectful callback. *)
Fixpoint forEach {A : Type} (f : A -> M unit) (l : list A) : M unit :=
  match l with
  | [] => ret tt
  | x :: l' => f x ;; forEach f l'
  end.

(** [try { c } catch (error) { handler }] *)
Definition try_catch {A : Type} (c handler : M A) : M A :=
  fun m =>
    match c m with
    | Returned a m' => Returned a m'
    | Thrown m' => handler m'
    end.

(** ** eventBus.js

    [publish] calls the subscribers of the topic one after the other. The
    embedding records the publication; what a subscriber of the core does in
    reaction ([ruleEngine.handleNewEvent] on ['event:added'],
    [escalationsController.handleEscalatedEvents] on ['events:escalated'])
    is a computation of its own, run after the one that published. *)
Module eventBus.

Definition publish (p : Publication) : M unit :=
  modify (fun m => set_published (published m ++ [p]) m).

End eventBus.

(** ** gameModel.js *)
Module gameModel.

(** The literal [state] of the object, also the one [resetGameState]
    assigns. *)
Definition initialState : GameState :=
  {| isRunning := false; level := 1; score := 0; uptime := 100%Q;
     rules := []; levelProgress := 0; events := [];
     pendingMaliciousEvents := []; trafficData := [] |}.

Definition initialSettings : Settings :=
  {| eventFrequencyMultiplier := 1%Q;
     noiseEventProbability := 0.1%Q;
     attackSophistication := "basic";
     simulationInterval := 9000;
     falsePositiveChance := 0.1%Q;
     escalationTimeout := 45000 |}.

Definition levels : list Level :=
  [ {| lv_level := 1;
       lv_name := "Level 1: Basic Scan Detection";
       lv_description := "Detect basic reconnaissance scans.";
       lv_eventFrequencyMultiplier := 0.5%Q;
       lv_noiseEventProbability := 0.1%Q;
       lv_attackSophistication := "basic";
       targetScore := 1000 |};
    {| lv_level := 2;
       lv_name := "Level 2: Exploit Attempts";
       lv_description := "Counter exploit attempts and malware.";
       lv_eventFrequencyMultiplier := 0.6%Q;
       lv_noiseEventProbability := 0.15%Q;
       lv_attackSophistication := "intermediate";
       targetScore := 1500 |};
    {| lv_level := 3;
       lv_name := "Level 3: Data Exfiltration";
       lv_description := "Prevent data breaches and advanced threats.";
       lv_eventFrequencyMultiplier := 0.7%Q;
       lv_noiseEventProbability := 0.2%Q;
       lv_attackSophistication := "advanced";
       targetScore := 2000 |} ].

Definition levels_length : Z := Z.of_nat (List.length levels).

(** [saveGameState]: only the five persisted properties are written;
    when [setItem] throws, the error is reported on the bus. *)
Definition saveGameState : M unit :=
  s <- gets state ;;
  let stateToSave :=
    {| sv_level := Some (level s);
       sv_score := Some (score s);
       sv_uptime := Some (uptime s);
       sv_rules := Some (rules s);
       sv_levelProgress := Some (levelProgress s);
       sv_other := [] |} in
  st <- gets localStorage ;;
  if writable st
  then modify (set_localStorage
                 {| item := Some (Parsed stateToSave); writable := true |})
  else eventBus.publish
         (notification_error
            "Failed to save game state. Storage may be full or disabled.").

Definition resetGameState : M unit :=
  modify (with_state (fun _ => initialState)) ;;
  modify (set_currentLevelIndex 0) ;;
  saveGameState ;;
  s <- gets state ;;
  eventBus.publish (gameState_reset s).

Definition validProperties : list string :=
  ["level"; "score"; "uptime"; "rules"; "levelProgress"].

(** [savedState.hasOwnProperty] is the method of [Object.prototype] unless
    the object has an own property of that name, whose value, coming from
    JSON, is not a function. *)
Definition shadowsHasOwnProperty (savedState : SavedState) : bool :=
  List.existsb (fun member => String.eqb (fst member) "hasOwnProperty")
    (sv_other savedState).

(** [this.state[prop] = savedState[prop]] if the saved object has [prop] *)
Definition assignProperty (savedState : SavedState) (prop : string)
  : M unit :=
  let assign {A : Type} (value : option A)
      (set : A -> GameState -> GameState) : M unit :=
    match value with
    | Some v => modify (with_state (set v))
    | None => ret tt
    end in
  if String.eqb prop "level" then assign (sv_level savedState) set_level
  else if String.eqb prop "score" then assign (sv_score savedState) set_score
  else if String.eqb prop "uptime"
  then assign (sv_uptime savedState) set_uptime
  else if String.eqb prop "rules" then assign (sv_rules savedState) set_rules
  else if String.eqb prop "levelProgress"
  then assign (sv_levelProgress savedState) set_levelProgress
  else ret tt.

(** The callback of the [forEach] over [validProperties]: the call of
    [hasOwnProperty] throws a TypeError when the name is shadowed. *)
Definition copyProperty (savedState : SavedState) (prop : string) : M unit :=
  if shadowsHasOwnProperty savedState then throw
  else assignProperty savedState prop.

(** [loadGameState]: the [try] block, where [JSON.parse] and the call of
    [hasOwnProperty] can throw, and the [catch] block. *)
Definition loadGameState : M unit :=
  try_catch
    (storedState <- gets (fun m => item (localStorage m)) ;;
     match storedState with
     | Some Malformed => throw
     | Some (Parsed savedState) =>
         forEach (copyProperty savedState) validProperties ;;
         lvl <- gets (fun m => level (state m)) ;;
         modify (set_currentLevelIndex (lvl - 1)) ;;
         idx <- gets currentLevelIndex ;;
         if ((idx <? 0) || (levels_length <=? idx))%bool
         then modify (set_currentLevelIndex 0) ;;
              modify (with_state (set_level 1))
         else ret tt
     | None =>
         modify (set_currentLevelIndex 0) ;;
         modify (with_state (set_level 1))
     end)
    (modify (set_currentLevelIndex 0) ;;
     modify (with_state (set_level 1))).

(** [this.levels[this.currentLevelIndex]]: [undefined] off the table. *)
Definition getCurrentLevel : M (option Level) :=
  idx <- gets currentLevelIndex ;;
  ret (if idx <? 0 then None else nth_error levels (Z.to_nat idx)).

(** Reading a property of an [undefined] level throws. *)
Definition applyLevelSettings : M unit :=
  cl <- getCurrentLevel ;;
  match cl with
  | None => throw
  | Some currentLevel =>
      modify (fun m =>
        set_settings
          {| eventFrequencyMultiplier :=
               lv_eventFrequencyMultiplier currentLevel;
             noiseEventProbability := lv_noiseEventProbability currentLevel;
             attackSophistication := lv_attackSophistication currentLevel;
             simulationInterval := simulationInterval (settings m);
             falsePositiveChance := falsePositiveChance (settings m);
             escalationTimeout := escalationTimeout (settings m) |} m) ;;
      s <- gets settings ;;
      eventBus.publish (settings_updated s)
  end.

Definition init : M unit :=
  loadGameState ;;
  applyLevelSettings.

Definition startNextLevel : M bool :=
  idx <- gets currentLevelIndex ;;
  if idx <? levels_length - 1
  then
    modify (set_currentLevelIndex (idx + 1)) ;;
    idx' <- gets currentLevelIndex ;;
    modify (with_state (set_level (idx' + 1))) ;;
    modify (with_state (set_levelProgress 0)) ;;
    saveGameState ;;
    applyLevelSettings ;;
    cl <- getCurrentLevel ;;
    eventBus.publish (level_changed cl) ;;
    ret true
  else
    resetGameState ;;
    applyLevelSettings ;;
    eventBus.publish game_completed ;;
    ret false.

Definition calculateScore
    (detectedMaliciousEvents responseSpeed networkUptime falsePositives : Q)
  : M Z :=
  let score0 := 0%Q in
  let score1 := (score0 + detectedMaliciousEvents * 100)%Q in
  let score2 := (score1 + responseSpeed * 5)%Q in
  let score3 := (score2 + networkUptime * 10)%Q in
  let score4 := (score3 - falsePositives * 50)%Q in
  let earnedPoints := Z.max 0 (JS.Math_round score4) in
  modify (with_state (fun s => set_score (score s + earnedPoints) s)) ;;
  saveGameState ;;
  total <- gets (fun m => score (state m)) ;;
  eventBus.publish (score_updated total earnedPoints) ;;
  ret earnedPoints.

(** [array.shift()] *)
Definition shift {A : Type} (l : list A) : list A := List.tl l.

(** [addEvent]; [now] and [now'] are its two readings of [Date.now()]. *)
Definition addEvent (event : Event) (now now' : Z) : M unit :=
  modify (with_state (fun s => set_events (events s ++ [event]) s)) ;;
  (if String.eqb (ev_category event) "malicious"
   then modify (with_state (fun s =>
          set_pendingMaliciousEvents
            (pendingMaliciousEvents s ++
               [ {| pe_event := event; pe_timestamp := now;
                    pe_handled := false |} ]) s))
   else ret tt) ;;
  modify (with_state (fun s =>
    set_trafficData
      (trafficData s ++ [ {| ts_timestamp := now'; packetCount := 1 |} ]) s)) ;;
  len <- gets (fun m => Z.of_nat (List.length (trafficData (state m)))) ;;
  (if 100 <? len
   then modify (with_state (fun s => set_trafficData (shift (trafficData s)) s))
   else ret tt) ;;
  eventBus.publish (event_added event).

(** The predicate of the [find] in [markEventAsHandled]. *)
Definition sameEvent (event : Event) (p : PendingEntry) : bool :=
  (String.eqb (ev_timestamp (pe_event p)) (ev_timestamp event)
   && String.eqb (ev_type (pe_event p)) (ev_type event)
   && JS.strict_eq (ev_ip (pe_event p)) (ev_ip event))%bool.

(** [pendingEvent.handled = true] on the entry [find] returned: the first
    entry of the array that satisfies the predicate is the one mutated. *)
Fixpoint setHandled (f : PendingEntry -> bool) (l : list PendingEntry)
  : list PendingEntry :=
  match l with
  | [] => []
  | p :: l' =>
      if f p
      then {| pe_event := pe_event p; pe_timestamp := pe_timestamp p;
              pe_handled := true |} :: l'
      else p :: setHandled f l'
  end.

Definition markEventAsHandled (event : Event) (now : Z) : M bool :=
  pending <- gets (fun m => pendingMaliciousEvents (state m)) ;;
  match List.find (sameEvent event) pending with
  | Some pendingEvent =>
      modify (with_state (fun s =>
        set_pendingMaliciousEvents
          (setHandled (sameEvent event) (pendingMaliciousEvents s)) s)) ;;
      let responseTime :=
        JS.Math_min 30 (inject_Z (now - pe_timestamp pendingEvent) / 1000)%Q in
      let responseSpeed := JS.Math_max 0 (30 - responseTime)%Q in
      up <- gets (fun m => uptime (state m)) ;;
      calculateScore 1 responseSpeed up 0 ;;
      eventBus.publish (event_handled event) ;;
      ret true
  | None => ret false
  end.

(** The callback of the [filter] in [checkEscalations], with the array
    [escalatedEvents] it pushes to: [kept] collects the entries for which
    it answers [true]. *)
Definition sweepEntry (now timeout : Z)
    (acc : list PendingEntry * list Event) (pendingEventInfo : PendingEntry)
  : list PendingEntry * list Event :=
  let '(kept, escalatedEvents) := acc in
  if pe_handled pendingEventInfo then (kept, escalatedEvents)
  else
    let timeElapsed := now - pe_timestamp pendingEventInfo in
    if timeout <=? timeElapsed
    then (kept, escalatedEvents ++ [pe_event pendingEventInfo])
    else (kept ++ [pendingEventInfo], escalatedEvents).

Definition checkEscalations (now : Z) : M (list Event) :=
  timeout <- gets (fun m => escalationTimeout (settings m)) ;;
  pending <- gets (fun m => pendingMaliciousEvents (state m)) ;;
  let '(kept, escalatedEvents) :=
    List.fold_left (sweepEntry now timeout) pending ([], []) in
  modify (with_state (set_pendingMaliciousEvents kept)) ;;
  (if 0 <? Z.of_nat (List.length escalatedEvents)
   then eventBus.publish (events_escalated escalatedEvents)
   else ret tt) ;;
  ret escalatedEvents.

End gameModel.

(** ** ruleEngine.js *)
Module ruleEngine.

(** Length of [s.trim()], for a property already known to be truthy. *)
Definition trimmedLength (s : option string) : Z :=
  match s with
  | Some x => Z.of_nat (String.length (JS.trim x))
  | None => 0
  end.

(** [validateRule]; the source returns the last operand of its [&&]
    chain, the embedding its truth value. *)
Definition validateRule (rule : option Rule) : bool :=
  match rule with
  | None => false
  | Some rule =>
      if String.eqb (conditionType rule) "" then false
      else if (String.eqb (conditionType rule) "login_fail"
               || String.eqb (conditionType rule) "traffic_spike")%bool
      then (JS.truthy (threshold rule)
            && negb (JS.isNaN (JS.parseInt (threshold rule))))%bool
      else if String.eqb (conditionType rule) "process_spawn"
      then (JS.truthy (processName rule)
            && (0 <? trimmedLength (processName rule)))%bool
      else if String.eqb (conditionType rule) "dns_query"
      then (JS.truthy (domainKeyword rule)
            && (0 <? trimmedLength (domainKeyword rule)))%bool
      else if String.eqb (conditionType rule) "http_error"
      then (JS.truthy (errorCodeThreshold rule)
            && negb (JS.isNaN (JS.parseInt (errorCodeThreshold rule)))
            && JS.ge (JS.parseInt (errorCodeThreshold rule)) (Some 100)
            && JS.ge (Some 599) (JS.parseInt (errorCodeThreshold rule)))%bool
      else if String.eqb (conditionType rule) "unauthorized_access"
      then (JS.truthy (resourceKeyword rule)
            && (0 <? trimmedLength (resourceKeyword rule)))%bool
      else if String.eqb (conditionType rule) "service_failure"
      then (JS.truthy (serviceName rule)
            && (0 <? trimmedLength (serviceName rule)))%bool
      else false
  end.

(** [evaluateRule]: the [switch] on [rule.conditionType], one [if] per
    [case], [conditionMet] being the value returned. *)
Definition evaluateRule (rule : option Rule) (event : option Event) : bool :=
  match rule, event with
  | Some rule, Some event =>
      if String.eqb (conditionType rule) "login_fail"
      then (String.eqb (ev_type event) "login_fail"
            && JS.gt (JS.parseInt_number (ev_count event))
                     (JS.parseInt (threshold rule)))%bool
      else if String.eqb (conditionType rule) "traffic_spike"
      then (String.eqb (ev_type event) "traffic_spike"
            && JS.gt (JS.parseInt_number (ev_volume event))
                     (JS.parseInt (threshold rule)))%bool
      else if String.eqb (conditionType rule) "process_spawn"
      then (String.eqb (ev_type event) "process_spawn"
            && JS.truthy (ev_process event)
            && JS.strict_eq (ev_process event) (processName rule))%bool
      else if String.eqb (conditionType rule) "dns_query"
      then (String.eqb (ev_type event) "dns_query"
            && JS.truthy (ev_domain event)
            && JS.includes (JS.toString (ev_domain event))
                           (JS.toString (domainKeyword rule)))%bool
      else if String.eqb (conditionType rule) "http_error"
      then (String.eqb (ev_type event) "http_error"
            && JS.ge (JS.parseInt_number (ev_code event))
                     (JS.parseInt (errorCodeThreshold rule)))%bool
      else if String.eqb (conditionType rule) "unauthorized_access"
      then (String.eqb (ev_type event) "unauthorized_access"
            && JS.truthy (ev_resource event)
            && JS.includes (JS.toString (ev_resource event))
                           (JS.toString (resourceKeyword rule)))%bool
      else if String.eqb (conditionType rule) "service_failure"
      then (String.eqb (ev_type event) "service_failure"
            && JS.strict_eq (ev_service event) (serviceName rule))%bool
      else false
  | _, _ => false
  end.

Definition testRule (rule : option Rule) (testEvents : list Event)
  : list (Event * option Rule) :=
  List.map (fun event => (event, rule))
    (List.filter (fun event => evaluateRule rule (Some event)) testEvents).

Definition checkEventAgainstRules (event : Event) : M (list Rule) :=
  rs <- gets (fun m => rules (state m)) ;;
  ret (List.filter (fun rule => evaluateRule (Some rule) (Some event)) rs).

Definition checkRuleAgainstEvents (rule : Rule) : M (list Event) :=
  es <- gets (fun m => events (state m)) ;;
  ret (List.filter (fun event => evaluateRule (Some rule) (Some event)) es).

(** The subscriber of ['event:added']; [now] is the [Date.now()] that
    [markEventAsHandled] reads. *)
Definition handleNewEvent (event : Event) (now : Z) : M unit :=
  triggeredRules <- checkEventAgainstRules event ;;
  if 0 <? Z.of_nat (List.length triggeredRules)
  then gameModel.markEventAsHandled event now ;;
       eventBus.publish (rules_triggered event triggeredRules)
  else ret tt.

Definition addRule (rule : Rule) : M bool :=
  if negb (validateRule (Some rule))
  then eventBus.publish
         (notification_error
            "Invalid rule configuration. Please check all fields.") ;;
       ret false
  else
    modify (with_state (fun s => set_rules (rules s ++ [rule]) s)) ;;
    gameModel.saveGameState ;;
    eventBus.publish (rule_added rule) ;;
    ret true.

End ruleEngine.

(** ** threats.js and eventGenerator.js *)

Record LevelScaling := {
  frequency : option Q
}.

(** A template of the catalog, without its narrative texts. *)
Record Template := {
  tpl_type : string;
  tpl_category : string;
  likelihood : Q;
  baseSeverity : Z;
  tpl_isNoise : bool;
  level_scaling : option LevelScaling;
  tpl_remediation : option string
}.

Module threats.

Definition template (ty cat : string) (l : Q) (sev : Z) (noise : bool)
    (rem : option string) : Template :=
  {| tpl_type := ty; tpl_category := cat; likelihood := l;
     baseSeverity := sev; tpl_isNoise := noise; level_scaling := None;
     tpl_remediation := rem |}.

Definition possibleEvents : list Template :=
  [ template "login_fail" "malicious" 0.06 3 false
      (Some "block_ip, reset_password");
    template "traffic_spike" "malicious" 0.08 5 false
      (Some "block_ip, rate_limit");
    template "process_spawn" "malicious" 0.06 7 false
      (Some "terminate_process, block_ip");
    template "dns_query" "malicious" 0.07 4 false
      (Some "block_ip, blacklist_domain");
    template "http_error" "malicious" 0.09 3 false
      (Some "patch_vulnerability, block_ip");
    template "unauthorized_access" "malicious" 0.05 6 false
      (Some "revoke_access, reset_password");
    template "service_failure" "malicious" 0.03 8 false
      (Some "restore_backup, reboot_server");
    template "sql_injection" "malicious" 0.04 6 false
      (Some "patch_vulnerability, block_ip");
    template "normal_activity" "noise" 0.3 1 true None;
    template "routine_login" "noise" 0.25 1 true None;
    template "scheduled_backup" "noise" 0.2 1 true None;
    template "system_update" "noise" 0.18 1 true None;
    template "false_positive_scan" "false_positive" 0.1 2 false None;
    template "dev_testing" "false_positive" 0.08 2 false None;
    template "maintenance_restart" "false_positive" 0.07 2 false None ].

End threats.

Module eventGenerator.

(** [template.level_scaling && template.level_scaling.frequency]: the
    frequency when both are truthy. *)
Definition scalingFrequency (template : Template) : option Q :=
  match level_scaling template with
  | Some ls =>
      match frequency ls with
      | Some f => if Qeq_bool f 0 then None else Some f
      | None => None
      end
  | None => None
  end.

(** The callback of the [map] in [chooseEventTemplate]. *)
Definition weighted (levelSettings : Level) (template : Template)
  : Template * Q :=
  let weight := likelihood template in
  let weight :=
    if tpl_isNoise template
    then (weight * JS.or_default (lv_noiseEventProbability levelSettings) 1)%Q
    else match scalingFrequency template with
         | Some f =>
             (weight * (lv_eventFrequencyMultiplier levelSettings * f))%Q
         | None => (weight * lv_eventFrequencyMultiplier levelSettings)%Q
         end in
  (template, weight).

(** The [for] loop of [chooseEventTemplate] from index [i] on, [None]
    when it falls through. *)
Fixpoint selectFrom (weightedTemplates : list (Template * Q))
    (randomNum weightSum : Q) : option Template :=
  match weightedTemplates with
  | [] => None
  | wt :: rest =>
      let weightSum := (weightSum + snd wt)%Q in
      if Qle_bool randomNum weightSum
      then Some (fst wt)
      else selectFrom rest randomNum weightSum
  end.

(** [chooseEventTemplate]; [random] is the value of [Math.random()], and
    the result is [None] where the source returns [undefined] (the first
    element of an empty catalog). *)
Definition chooseEventTemplate (possibleEvents : list Template)
    (levelSettings : Level) (random : Q) : option Template :=
  let weightedTemplates := List.map (weighted levelSettings) possibleEvents in
  let totalWeight :=
    List.fold_left (fun sum wt => (sum + snd wt)%Q) weightedTemplates 0%Q in
  let randomNum := (random * totalWeight)%Q in
  match selectFrom weightedTemplates randomNum 0%Q with
  | Some template => Some template
  | None => List.nth_error possibleEvents 0
  end.

End eventGenerator.

(** ** escalationsController.js *)
Module escalationsController.

Definition calculateSimulatedDamage (event : Event) : Damage :=
  let baseDamage :=
    {| uptimeImpact := (inject_Z (ev_severity event) * 2)%Q;
       dataBreach := 5 <? ev_severity event;
       financialImpact := ev_severity event * 1000;
       recoveryTimeHours :=
         inject_Z (JS.Math_ceil (inject_Z (ev_severity event) / 2)%Q) |} in
  if String.eqb (ev_type event) "traffic_spike"
  then {| uptimeImpact := (uptimeImpact baseDamage * 1.5)%Q;
          dataBreach := false;
          financialImpact := financialImpact baseDamage;
          recoveryTimeHours := recoveryTimeHours baseDamage |}
  else if (String.eqb (ev_type event) "unauthorized_access"
           || String.eqb (ev_type event) "sql_injection")%bool
  then {| uptimeImpact := uptimeImpact baseDamage;
          dataBreach := true;
          financialImpact := financialImpact baseDamage * 2;
          recoveryTimeHours := recoveryTimeHours baseDamage |}
  else if String.eqb (ev_type event) "service_failure"
  then {| uptimeImpact := (uptimeImpact baseDamage * 2)%Q;
          dataBreach := dataBreach baseDamage;
          financialImpact := financialImpact baseDamage;
          recoveryTimeHours := (recoveryTimeHours baseDamage * 1.5)%Q |}
  else baseDamage.

Definition applyEscalationImpact (event : Event) : M unit :=
  let damage := calculateSimulatedDamage event in
  modify (with_state (fun s =>
    set_uptime (JS.Math_max 0 (uptime s - uptimeImpact damage)%Q) s)) ;;
  up <- gets (fun m => uptime (state m)) ;;
  eventBus.publish (uptime_updated up (ev_type event)) ;;
  up' <- gets (fun m => uptime (state m)) ;;
  (if Qle_bool up' 0
   then eventBus.publish (game_over "network_down" event)
   else ret tt) ;;
  gameModel.saveGameState.

(** The subscriber of ['events:escalated']. Of the escalation data it
    publishes, the payload keeps the event and the simulated damage. *)
Definition handleEscalatedEvents (es : list Event) : M unit :=
  forEach (fun event =>
    eventBus.publish
      (escalation_started event (calculateSimulatedDamage event)) ;;
    applyEscalationImpact event) es.

End escalationsController.

(** ** gameController.js: how the timers drive the core *)
Module gameController.

(** One tick of the generation timer for an event the generator made:
    [addEvent] publishes ['event:added'] as its last step, on which the
    rule engine reacts. *)
Definition simulationTick (event : Event) (now now' now'' : Z) : M unit :=
  gameModel.addEvent event now now' ;;
  ruleEngine.handleNewEvent event now''.

(** One tick of the escalation timer: [checkEscalations] publishes
    ['events:escalated'] as its last step, and only for a non-empty list;
    the escalations controller reacts to it. *)
Definition escalationTick (now : Z) : M (list Event) :=
  escalatedEvents <- gameModel.checkEscalations now ;;
  (if 0 <? Z.of_nat (List.length escalatedEvents)
   then escalationsController.handleEscalatedEvents escalatedEvents
   else ret tt) ;;
  ret escalatedEvents.

End gameController.

(** ** Reachable models *)

(** The model object before [init], over a given storage.
    [currentLevelIndex] is not yet defined there; [loadGameState] assigns it
    on each of its paths. *)
Definition fresh (st : Storage) : Model :=
  {| state := gameModel.initialState;
     currentLevelIndex := 0;
     settings := gameModel.initialSettings;
     localStorage := st;
     published := [] |}.

(** The calls by which the rest of the program changes the model. *)
Inductive Operation :=
| call_addEvent (event : Event) (now now' : Z)
| call_markEventAsHandled (event : Event) (now : Z)
| call_checkEscalations (now : Z)
| call_resetGameState
| call_startNextLevel
| call_calculateScore (d s u f : Q)
| call_loadGameState
| call_saveGameState
| call_applyLevelSettings
| call_handleNewEvent (event : Event) (now : Z)
| call_addRule (rule : Rule)
| call_handleEscalatedEvents (es : list Event)
| assign_isRunning (v : bool).

Definition run (op : Operation) (m : Model) : Model :=
  match op with
  | call_addEvent event now now' => final (gameModel.addEvent event now now' m)
  | call_markEventAsHandled event now =>
      final (gameModel.markEventAsHandled event now m)
  | call_checkEscalations now => final (gameModel.checkEscalations now m)
  | call_resetGameState => final (gameModel.resetGameState m)
  | call_startNextLevel => final (gameModel.startNextLevel m)
  | call_calculateScore d s u f => final (gameModel.calculateScore d s u f m)
  | call_loadGameState => final (gameModel.loadGameState m)
  | call_saveGameState => final (gameModel.saveGameState m)
  | call_applyLevelSettings => final (gameModel.applyLevelSettings m)
  | call_handleNewEvent event now =>
      final (ruleEngine.handleNewEvent event now m)
  | call_addRule rule => final (ruleEngine.addRule rule m)
  | call_handleEscalatedEvents es =>
      final (escalationsController.handleEscalatedEvents es m)
  | assign_isRunning v => with_state (set_isRunning v) m
  end.

Inductive reachable : Model -> Prop :=
| reachable_init (st : Storage) :
    reachable (final (gameModel.init (fresh st)))
| reachable_step (m : Model) (op : Operation) :
    reachable m -> reachable (run op m).

(** ** Vocabulary of the properties *)

(** The publications a computation added to those of [m]. *)
Definition publishedSince (m m' : Model) : list Publication :=
  List.skipn (List.length (published m)) (published m').

(** Some publication on topic [a] precedes some publication on topic [b]. *)
Fixpoint firesBefore (a b : string) (log : list Publication) : bool :=
  match log with
  | [] => false
  | p :: rest =>
      ((String.eqb (topic p) a
        && List.existsb (fun q => String.eqb (topic q) b) rest)
       || firesBefore a b rest)%bool
  end.

(** Number of publications on a topic. *)
Definition countTopic (t : string) (log : list Publication) : nat :=
  List.length (List.filter (fun p => String.eqb (topic p) t) log).

(** The pending entries of a model. *)
Definition pending (m : Model) : list PendingEntry :=
  pendingMaliciousEvents (state m).

(** An entry stays in the queue: it is unhandled and below the timeout. *)
Definition staysPending (now timeout : Z) (p : PendingEntry) : bool :=
  (negb (pe_handled p) && (now - pe_timestamp p <? timeout))%bool.

(** An entry escalates: it is unhandled and its dwell time reached the
    timeout. *)
Definition escalates (now timeout : Z) (p : PendingEntry) : bool :=
  (negb (pe_handled p) && (timeout <=? now - pe_timestamp p))%bool.

(** The points formula of the specification, before clamping and rounding. *)
Definition rawPoints (detectedCount speedBonus uptime falsePositiveCount : Q)
  : Q :=
  (detectedCount * 100 + speedBonus * 5 + uptime * 10
   - falsePositiveCount * 50)%Q.

(** The uptime penalty of an escalated event in the words of the
    specification: severity times two, times 1.5 for a traffic spike and
    times 2 for a service failure. *)
Definition uptimePenalty (event : Event) : Q :=
  let base := (inject_Z (ev_severity event) * 2)%Q in
  if String.eqb (ev_type event) "traffic_spike" then (base * 1.5)%Q
  else if String.eqb (ev_type event) "service_failure" then (base * 2)%Q
  else base.

(** The scaling factor of a template as the generator applies it: the
    level's noise probability for a noise template, or 1 when that
    probability is zero; the frequency multiplier times the template's
    scaling frequency when one is declared and is not zero; the frequency
    multiplier alone otherwise. *)
Definition scalingFactor (levelSettings : Level) (template : Template) : Q :=
  if tpl_isNoise template
  then if Qeq_bool (lv_noiseEventProbability levelSettings) 0
       then 1%Q
       else lv_noiseEventProbability levelSettings
  else match level_scaling template with
       | Some {| frequency := Some f |} =>
           if Qeq_bool f 0
           then lv_eventFrequencyMultiplier levelSettings
           else (lv_eventFrequencyMultiplier levelSettings * f)%Q
       | _ => lv_eventFrequencyMultiplier levelSettings
       end.

(** The scaling factor as the specification words it. *)
Definition scalingFactor_spec (levelSettings : Level) (template : Template)
  : Q :=
  if tpl_isNoise template
  then lv_noiseEventProbability levelSettings
  else match level_scaling template with
       | Some {| frequency := Some f |} =>
           (lv_eventFrequencyMultiplier levelSettings * f)%Q
       | _ => lv_eventFrequencyMultiplier levelSettings
       end.

(** Running sum of the first [n] weights on top of [acc], in the order the
    loop adds them. *)
Definition cumulativeFrom (acc : Q) (ws : list Q) (n : nat) : Q :=
  List.fold_left Qplus (List.firstn n ws) acc.

Definition cumulative (ws : list Q) (n : nat) : Q := cumulativeFrom 0%Q ws n.

(** The weights of a catalog at a level. *)
Definition weights (possibleEvents : list Template) (levelSettings : Level)
  : list Q :=
  List.map (fun t => snd (eventGenerator.weighted levelSettings t))
    possibleEvents.

(** A rule matches an event. *)
Definition matches (rule : Rule) (event : Event) : Prop :=
  ruleEngine.evaluateRule (Some rule) (Some event) = true.

(** [kw] is a substring of [s]. *)
Definition occursIn (kw s : string) : Prop :=
  exists a b, s = (a ++ kw ++ b)%string.

(** [n] is the integer nearest to [x], a half counting upwards. *)
Definition nearestInteger (n : Z) (x : Q) : Prop :=
  (inject_Z n <= x + (1 # 2) /\ x + (1 # 2) < inject_Z n + 1)%Q.

(** What [saveGameState] publishes: an error when the storage refuses. *)
Definition saveNotice (st : Storage) : list Publication :=
  if writable st then []
  else [notification_error
          "Failed to save game state. Storage may be full or disabled."].

(** The object [saveGameState] writes for a state. *)
Definition snapshot (s : GameState) : SavedState :=
  {| sv_level := Some (level s); sv_score := Some (score s);
     sv_uptime := Some (uptime s); sv_rules := Some (rules s);
     sv_levelProgress := Some (levelProgress s); sv_other := [] |}.

(** The storage after [saveGameState] on state [s]. *)
Definition saved (s : GameState) (st : Storage) : Storage :=
  if writable st then {| item := Some (Parsed (snapshot s)); writable := true |}
  else st.



(** A storage holding a saved object. *)
Definition stored (sv : SavedState) (w : bool) : Storage :=
  {| item := Some (Parsed sv); writable := w |}.

(** The bounds check of [loadGameState] on a level number. *)
Definition inTable (l : Z) : bool :=
  negb ((l - 1 <? 0) || (gameModel.levels_length <=? l - 1))%bool.

(** The state after the [forEach] of [loadGameState] when no call in it
    throws: the properties the saved object has over the state. *)
Definition copied (savedState : SavedState) (s : GameState) : GameState :=
  let s := match sv_level savedState with
           | Some v => set_level v s
           | None => s
           end in
  let s := match sv_score savedState with
           | Some v => set_score v s
           | None => s
           end in
  let s := match sv_uptime savedState with
           | Some v => set_uptime v s
           | None => s
           end in
  let s := match sv_rules savedState with
           | Some v => set_rules v s
           | None => s
           end in
  match sv_levelProgress savedState with
  | Some v => set_levelProgress v s
  | None => s
  end.


(** The state and the level index [loadGameState] leaves, for an item and
    the state it is called in. *)
Definition loaded (stored : option StoredItem) (s : GameState)
  : GameState * Z :=
  match stored with
  | Some (Parsed savedState) =>
      if gameModel.shadowsHasOwnProperty savedState then (set_level 1 s, 0)
      else
        let s' := copied savedState s in
        if inTable (level s') then (s', level s' - 1)
        else (set_level 1 s', 0)
  | _ => (set_level 1 s, 0)
  end.

(** The publication of a sweep: none for an empty list. *)
Definition escalationNotice (es : list Event) : list Publication :=
  match es with
  | [] => []
  | _ :: _ => [events_escalated es]
  end.

(** The entry [addEvent] appends for an event: one for a malicious event,
    none otherwise. *)
Definition enqueue (event : Event) (now : Z) : list PendingEntry :=
  if String.eqb (ev_category event) "malicious"
  then [ {| pe_event := event; pe_timestamp := now; pe_handled := false |} ]
  else [].

(** The speed bonus of a response at [now] to an entry enqueued at [t]:
    thirty seconds less the latency, the latency capped at thirty. *)
Definition speedBonus (now t : Z) : Q :=
  JS.Math_max 0 (30 - JS.Math_min 30 (inject_Z (now - t) / 1000))%Q.

(** The events that have an entry in the queue. *)
Definition pendingEvents (m : Model) : list Event :=
  List.map pe_event (pending m).

(** An entry after [markEventAsHandled] found it. *)
Definition handledCopy (p : PendingEntry) : PendingEntry :=
  {| pe_event := pe_event p; pe_timestamp := pe_timestamp p;
     pe_handled := true |}.

(** The event log and the queue of a model. *)
Definition queue (m : Model) : list Event * list PendingEntry :=
  (events (state m), pending m).

(** Every queued entry wraps a malicious event of the log. *)
Definition queueInvariant (m : Model) : Prop :=
  forall p, In p (pending m) ->
    ev_category (pe_event p) = "malicious"
    /\ In (pe_event p) (events (state m)).

(** What [applyEscalationImpact] publishes when it leaves uptime [u]. *)
Definition impactNotices (event : Event) (u : Q) : list Publication :=
  uptime_updated u (ev_type event)
  :: (if Qle_bool u 0 then [game_over "network_down" event] else []).

(** ** Sample data *)
Module sample.

Definition event (ty cat : string) (sev : Z) (ip : string) : Event :=
  {| ev_timestamp := "10:15:30 AM"; ev_type := ty; ev_category := cat;
     ev_severity := sev; ev_isNoise := false; ev_remediation := None;
     ev_ip := Some ip; ev_count := None; ev_volume := None;
     ev_code := None; ev_process := None; ev_domain := None;
     ev_resource := None; ev_service := None |}.

Definition loginFail (count : Z) : Event :=
  {| ev_timestamp := "10:15:30 AM"; ev_type := "login_fail";
     ev_category := "malicious"; ev_severity := 3; ev_isNoise := false;
     ev_remediation := Some "block_ip, reset_password";
     ev_ip := Some "192.168.1.7"; ev_count := Some count;
     ev_volume := None; ev_code := None; ev_process := None;
     ev_domain := Some "authentication"; ev_resource := None;
     ev_service := None |}.

Definition rule (ct : string) : Rule :=
  {| conditionType := ct; combinator := Some "AND"; threshold := None;
     processName := None; domainKeyword := None;
     errorCodeThreshold := None; resourceKeyword := None;
     serviceName := None |}.

Definition loginRule (t : string) : Rule :=
  {| conditionType := "login_fail"; combinator := Some "AND";
     threshold := Some t; processName := None; domainKeyword := None;
     errorCodeThreshold := None; resourceKeyword := None;
     serviceName := None |}.

Definition emptyStorage : Storage := {| item := None; writable := true |}.

(** The model after [init] on an empty storage. *)
Definition started : Model := final (gameModel.init (fresh emptyStorage)).

(** A malicious event enqueued at time 0. *)
Definition queued : Model :=
  run (call_addEvent (loginFail 6) 0 0) started.

(** The same after the player handled the event one second later. *)
Definition handledOnce : Model :=
  run (call_markEventAsHandled (loginFail 6) 1000) queued.

(** A session restored at the last level of the table. *)
Definition lastLevel : Model :=
  final (gameModel.init
           (fresh (stored {| sv_level := Some 3; sv_score := Some 4200;
                             sv_uptime := Some 88%Q; sv_rules := Some [];
                             sv_levelProgress := Some 0;
                             sv_other := [] |} true))).

(** The first noise template of the catalog. *)
Definition normalActivity : Template :=
  threats.template "normal_activity" "noise" 0.3 1 true None.

Definition sqlInjection : Template :=
  threats.template "sql_injection" "malicious" 0.04 6 false
    (Some "patch_vulnerability, block_ip").

(** The first level of the table. *)
Definition firstLevel : Level :=
  {| lv_level := 1;
     lv_name := "Level 1: Basic Scan Detection";
     lv_description := "Detect basic reconnaissance scans.";
     lv_eventFrequencyMultiplier := 0.5%Q;
     lv_noiseEventProbability := 0.1%Q;
     lv_attackSophistication := "basic";
     targetScore := 1000 |}.

Definition serviceFailure : Event :=
  event "service_failure" "malicious" 8 "192.168.4.20".

Definition trafficSpike : Event :=
  event "traffic_spike" "malicious" 5 "192.168.9.1".

(** The restored session after two service failures escalated. *)
Definition degraded : Model :=
  run (call_handleEscalatedEvents [serviceFailure; serviceFailure]) lastLevel.

(** A level whose noise probability is zero. *)
Definition quietLevel : Level :=
  {| lv_level := 1; lv_name := "Quiet"; lv_description := "No noise.";
     lv_eventFrequencyMultiplier := 0.5%Q; lv_noiseEventProbability := 0%Q;
     lv_attackSophistication := "basic"; targetScore := 1000 |}.

(** A template that declares a scaling frequency of zero. *)
Definition unscaled : Template :=
  {| tpl_type := "login_fail"; tpl_category := "malicious";
     likelihood := 0.06%Q; baseSeverity := 3; tpl_isNoise := false;
     level_scaling := Some {| frequency := Some 0%Q |};
     tpl_remediation := Some "block_ip, reset_password" |}.

End sample.

(** * The rest of the core *)

(** ** eventBus.js with its subscribers

    The bus object itself: [this.events] maps an event name to the array of
    its callbacks. A callback is a function, which JavaScript compares by
    identity; [same] is that comparison. What a callback does when called
    is not part of the bus: [publish] is represented by the callbacks it
    calls, in the order it calls them. That order is fixed before the first
    call, whatever the callbacks do to the subscriptions meanwhile:
    [forEach] visits the elements the array had when it started, and
    [unsubscribe] replaces the array by a new one. Event names are not
    names of [Object.prototype]. *)
Module eventBusObject.

Section Bus.

Variable Callback : Type.
Variable same : Callback -> Callback -> bool.

(** [this.events]; [None] where the object has no such property. *)
Definition Events : Type := string -> option (list Callback).

(** [this.events[eventName] = callbacks] *)
Definition assign (eventName : string) (callbacks : list Callback)
    (events : Events) : Events :=
  fun name => if String.eqb name eventName then Some callbacks else events name.

(** [subscribe]: the array is created when missing, then pushed to. *)
Definition subscribe (eventName : string) (callback : Callback)
    (events : Events) : Events :=
  let callbacks :=
    match events eventName with
    | Some callbacks => callbacks
    | None => []
    end in
  assign eventName (callbacks ++ [callback]) events.

(** The function [subscribe] returns, called on the bus as it is then:
    reading [filter] off a missing array throws, which is [None]. *)
Definition unsubscribe (eventName : string) (callback : Callback)
    (events : Events) : option Events :=
  match events eventName with
  | Some callbacks =>
      Some (assign eventName
              (List.filter (fun eventCallback =>
                              negb (same eventCallback callback)) callbacks)
              events)
  | None => None
  end.

(** [publish]: the callbacks called, first to last. *)
Definition publish (eventName : string) (events : Events) : list Callback :=
  match events eventName with
  | Some callbacks => callbacks
  | None => []
  end.

(** [reset] *)
Definition reset (events : Events) : Events := fun _ => None.

End Bus.

Arguments assign {Callback} eventName callbacks events.
Arguments subscribe {Callback} eventName callback events.
Arguments unsubscribe {Callback} same eventName callback events.
Arguments publish {Callback} eventName events.
Arguments reset {Callback} events.

End eventBusObject.

(** ** The subscriptions of the core

    A callback is named after the method it is bound to. *)
Module subscriptions.

(** [escalationsController.init] *)
Definition escalationsController_init (events : eventBusObject.Events string)
  : eventBusObject.Events string :=
  eventBusObject.subscribe "events:escalated"
    "escalationsController.handleEscalatedEvents" events.

(** [ruleEngine.init]; [loadRules] only reads the rules. *)
Definition ruleEngine_init (events : eventBusObject.Events string)
  : eventBusObject.Events string :=
  eventBusObject.subscribe "event:added" "ruleEngine.handleNewEvent" events.

(** [gameController.setupEventSubscriptions] *)
Definition setupEventSubscriptions (events : eventBusObject.Events string)
  : eventBusObject.Events string :=
  let events :=
    eventBusObject.subscribe "ui:startGame" "gameController.startSimulation"
      events in
  let events :=
    eventBusObject.subscribe "ui:pauseGame" "gameController.pauseSimulation"
      events in
  let events :=
    eventBusObject.subscribe "ui:resetGame" "gameController.resetGame"
      events in
  let events :=
    eventBusObject.subscribe "ui:testRule" "gameController.testRule" events in
  let events :=
    eventBusObject.subscribe "ui:saveRule" "gameController.saveRule" events in
  let events :=
    eventBusObject.subscribe "ui:handleEvent" "gameController.handleEvent"
      events in
  eventBusObject.subscribe "request:gameState" "gameController.getGameState"
    events.

(** The two steps of [gameController.resetGame] that act on the bus:
    [eventBus.reset()] and then [this.setupEventSubscriptions()]. *)
Definition afterResetGame (events : eventBusObject.Events string)
  : eventBusObject.Events string :=
  setupEventSubscriptions (eventBusObject.reset events).

End subscriptions.

(** ** gameModel.js: the status of the queue *)

(** An element of the array [getPendingMaliciousEvents] returns. *)
Record PendingStatus := {
  ps_event : Event;
  escalationPercentage : Z;
  ps_handled : bool;
  timeElapsed : Z
}.

Module gameModelStatus.

(** The callback of the [map] in [getPendingMaliciousEvents], for the
    value [now] of its [Date.now()]. The division is exact and the timeout
    is not zero (JavaScript divides by zero to an infinity or NaN). *)
Definition pendingStatus (timeout now : Z) (pendingEvent : PendingEntry)
  : PendingStatus :=
  let timeElapsed := now - pe_timestamp pendingEvent in
  let escalationPercentage :=
    Z.min 100
      (JS.Math_round (inject_Z timeElapsed / inject_Z timeout * 100)%Q) in
  {| ps_event := pe_event pendingEvent;
     escalationPercentage := escalationPercentage;
     ps_handled := pe_handled pendingEvent;
     timeElapsed := timeElapsed |}.

(** [array.map(f)] where the call for the element of index [i] reads the
    clock as [clock i]. *)
Fixpoint mapWithClock {A B : Type} (f : Z -> A -> B) (clock : nat -> Z)
    (i : nat) (l : list A) : list B :=
  match l with
  | [] => []
  | x :: l' => f (clock i) x :: mapWithClock f clock (S i) l'
  end.

Definition getPendingMaliciousEvents (clock : nat -> Z)
  : M (list PendingStatus) :=
  pending <- gets (fun m => pendingMaliciousEvents (state m)) ;;
  timeout <- gets (fun m => escalationTimeout (settings m)) ;;
  ret (mapWithClock (pendingStatus timeout) clock 0%nat pending).

End gameModelStatus.

(** ** eventGenerator.js: the fields of a generated event *)
Module eventGeneratorFields.

(** [array[i]] for an integer [i]: [undefined] off the array. *)
Definition element {A : Type} (l : list A) (i : Z) : option A :=
  if i <? 0 then None else List.nth_error l (Z.to_nat i).

(** [array[Math.floor(random * array.length)]] *)
Definition pick {A : Type} (l : list A) (random : Q) : option A :=
  element l (Qfloor (random * inject_Z (Z.of_nat (List.length l)))%Q).

(** The text of an integer in a template literal. *)
Definition toString (n : Z) : string := NilZero.string_of_int (Z.to_int n).

Definition usernames : list string :=
  ["user1"; "admin"; "testuser"; "attacker"; "system"].

Definition processes : list string :=
  ["malware.exe"; "suspicious.sh"; "trojan.dll"; "miner.bin";
   "unusual_script.py"].

Definition domains : list string :=
  ["badsite.com"; "malicious-domain.net"; "phishing.info";
   "command-and-control.org"; "data-exfiltration.biz"].

Definition errorCodes : list Z := [400; 401; 403; 404; 500; 503].

Definition resources : list string :=
  ["/sensitive/customer_data.csv"; "/config/secrets.json";
   "/database/credentials.txt"; "/api/admin_endpoints";
   "/internal/system_logs"].

Definition services : list string :=
  ["database-service"; "authentication-service"; "web-application";
   "monitoring-agent"; "firewall"].

(** [generators.ip], for its two draws. *)
Definition ip (random random' : Q) : string :=
  ("192.168." ++ toString (Qfloor (random * 255)%Q) ++ "."
   ++ toString (Qfloor (random' * 255)%Q))%string.

Definition set_ip (v : option string) (e : Event) : Event :=
  {| ev_timestamp := ev_timestamp e; ev_type := ev_type e;
     ev_category := ev_category e; ev_severity := ev_severity e;
     ev_isNoise := ev_isNoise e; ev_remediation := ev_remediation e;
     ev_ip := v; ev_count := ev_count e; ev_volume := ev_volume e;
     ev_code := ev_code e; ev_process := ev_process e;
     ev_domain := ev_domain e; ev_resource := ev_resource e;
     ev_service := ev_service e |}.

Definition set_count (v : option Z) (e : Event) : Event :=
  {| ev_timestamp := ev_timestamp e; ev_type := ev_type e;
     ev_category := ev_category e; ev_severity := ev_severity e;
     ev_isNoise := ev_isNoise e; ev_remediation := ev_remediation e;
     ev_ip := ev_ip e; ev_count := v; ev_volume := ev_volume e;
     ev_code := ev_code e; ev_process := ev_process e;
     ev_domain := ev_domain e; ev_resource := ev_resource e;
     ev_service := ev_service e |}.

Definition set_volume (v : option Z) (e : Event) : Event :=
  {| ev_timestamp := ev_timestamp e; ev_type := ev_type e;
     ev_category := ev_category e; ev_severity := ev_severity e;
     ev_isNoise := ev_isNoise e; ev_remediation := ev_remediation e;
     ev_ip := ev_ip e; ev_count := ev_count e; ev_volume := v;
     ev_code := ev_code e; ev_process := ev_process e;
     ev_domain := ev_domain e; ev_resource := ev_resource e;
     ev_service := ev_service e |}.

Definition set_code (v : option Z) (e : Event) : Event :=
  {| ev_timestamp := ev_timestamp e; ev_type := ev_type e;
     ev_category := ev_category e; ev_severity := ev_severity e;
     ev_isNoise := ev_isNoise e; ev_remediation := ev_remediation e;
     ev_ip := ev_ip e; ev_count := ev_count e; ev_volume := ev_volume e;
     ev_code := v; ev_process := ev_process e;
     ev_domain := ev_domain e; ev_resource := ev_resource e;
     ev_service := ev_service e |}.

Definition set_process (v : option string) (e : Event) : Event :=
  {| ev_timestamp := ev_timestamp e; ev_type := ev_type e;
     ev_category := ev_category e; ev_severity := ev_severity e;
     ev_isNoise := ev_isNoise e; ev_remediation := ev_remediation e;
     ev_ip := ev_ip e; ev_count := ev_count e; ev_volume := ev_volume e;
     ev_code := ev_code e; ev_process := v;
     ev_domain := ev_domain e; ev_resource := ev_resource e;
     ev_service := ev_service e |}.

Definition set_domain (v : option string) (e : Event) : Event :=
  {| ev_timestamp := ev_timestamp e; ev_type := ev_type e;
     ev_category := ev_category e; ev_severity := ev_severity e;
     ev_isNoise := ev_isNoise e; ev_remediation := ev_remediation e;
     ev_ip := ev_ip e; ev_count := ev_count e; ev_volume := ev_volume e;
     ev_code := ev_code e; ev_process := ev_process e;
     ev_domain := v; ev_resource := ev_resource e;
     ev_service := ev_service e |}.

Definition set_resource (v : option string) (e : Event) : Event :=
  {| ev_timestamp := ev_timestamp e; ev_type := ev_type e;
     ev_category := ev_category e; ev_severity := ev_severity e;
     ev_isNoise := ev_isNoise e; ev_remediation := ev_remediation e;
     ev_ip := ev_ip e; ev_count := ev_count e; ev_volume := ev_volume e;
     ev_code := ev_code e; ev_process := ev_process e;
     ev_domain := ev_domain e; ev_resource := v;
     ev_service := ev_service e |}.

Definition set_service (v : option string) (e : Event) : Event :=
  {| ev_timestamp := ev_timestamp e; ev_type := ev_type e;
     ev_category := ev_category e; ev_severity := ev_severity e;
     ev_isNoise := ev_isNoise e; ev_remediation := ev_remediation e;
     ev_ip := ev_ip e; ev_count := ev_count e; ev_volume := ev_volume e;
     ev_code := ev_code e; ev_process := ev_process e;
     ev_domain := ev_domain e; ev_resource := ev_resource e;
     ev_service := v |}.

(** [addTypeSpecificProperties]; [random n] is the value of the call of
    [Math.random()] number [n] made while it runs: two for the address, then
    those of the [case]. The properties [user], [url], [action] and [status]
    it also assigns are not fields of [Event]; the draws made for them are
    counted. *)
Definition addTypeSpecificProperties (event : Event) (template : Template)
    (random : nat -> Q) : Event :=
  let event := set_ip (Some (ip (random 0%nat) (random 1%nat))) event in
  if String.eqb (ev_type event) "login_fail"
  then set_count (Some (Qfloor (random 3%nat * 10)%Q + 1)) event
  else if String.eqb (ev_type event) "traffic_spike"
  then set_volume (Some (Qfloor (random 2%nat * 500)%Q + 100)) event
  else if String.eqb (ev_type event) "process_spawn"
  then set_process (pick processes (random 2%nat)) event
  else if String.eqb (ev_type event) "dns_query"
  then set_domain (pick domains (random 2%nat)) event
  else if String.eqb (ev_type event) "http_error"
  then set_code (pick errorCodes (random 2%nat)) event
  else if String.eqb (ev_type event) "unauthorized_access"
  then set_resource (pick resources (random 3%nat)) event
  else if String.eqb (ev_type event) "service_failure"
  then set_service (pick services (random 2%nat)) event
  else event.

End eventGeneratorFields.

(** ** Vocabulary of the further properties *)

(** The condition types the rule engine knows. *)
Definition conditionTypes : list string :=
  ["login_fail"; "traffic_spike"; "process_spawn"; "dns_query";
   "http_error"; "unauthorized_access"; "service_failure"].

(** A text is a sequence of characters of [chars]. *)
Definition sequenceOf (chars : list (list ascii)) (s : list ascii) : Prop :=
  exists l, Forall (fun w => In w chars) l /\ s = List.concat l.

(** No character of [chars] is empty and none begins another: checked by
    computation. *)
Definition isCode (chars : list (list ascii)) : bool :=
  List.forallb
    (fun w =>
       match w with
       | [] => false
       | _ :: _ =>
           List.forallb
             (fun w' =>
                match JS.after w w' with
                | Some (_ :: _) => false
                | _ => true
                end) chars
       end) chars.

(** A text made of white space only, the empty text included. *)
Definition blank (s : string) : Prop :=
  exists codePoints,
    Forall (fun c => In c JS.whiteSpace) codePoints
    /\ list_ascii_of_string s = List.concat (List.map JS.utf8 codePoints).

(** A text has a character that is not white space. *)
Definition hasVisible (s : string) : Prop := ~ blank s.


(** The rules [loadGameState] takes from a storage: those of the record,
    none when it has none or is discarded. *)
Definition storedRules (st : Storage) : list Rule :=
  match item st with
  | Some (Parsed sv) =>
      if gameModel.shadowsHasOwnProperty sv then []
      else match sv_rules sv with
           | Some rs => rs
           | None => []
           end
  | _ => []
  end.

Definition valid (rule : Rule) : Prop :=
  ruleEngine.validateRule (Some rule) = true.

(** The rules of the state and the rules in storage all pass validation. *)
Definition rulesValid (m : Model) : Prop :=
  Forall valid (rules (state m))
  /\ Forall valid (storedRules (localStorage m)).

(** A draw of [Math.random()]. *)
Definition draw (r : Q) : Prop := (0 <= r /\ r < 1)%Q.

(** A run of operations from a model. *)
Definition runAll (ops : list Operation) (m : Model) : Model :=
  List.fold_left (fun m op => run op m) ops m.

(** A computation keeps a property of the model, returning or throwing. *)
Definition preserves {A : Type} (P : Model -> Prop) (c : M A) : Prop :=
  forall m, P m -> P (final (c m)).

(** The three settings that are not level settings have the values of [c]. *)
Definition timersAre (c : Settings) (m : Model) : Prop :=
  simulationInterval (settings m) = simulationInterval c
  /\ falsePositiveChance (settings m) = falsePositiveChance c
  /\ escalationTimeout (settings m) = escalationTimeout c.

(** The traffic buffer holds at most 100 samples. *)
Definition trafficBound (m : Model) : Prop :=
  (List.length (trafficData (state m)) <= 100)%nat.

(** From [m] to [m'] the score has not gone down and the log has only been
    appended to. *)
Definition grownFrom (m : Model) (m' : Model) : Prop :=
  score (state m) <= score (state m')
  /\ exists l, events (state m') = events (state m) ++ l.

(** [this.levels[i]] *)
Definition levelAt (i : Z) : option Level :=
  if i <? 0 then None else nth_error gameModel.levels (Z.to_nat i).

(** The settings [applyLevelSettings] assigns for a level. *)
Definition settingsFor (l : Level) (c : Settings) : Settings :=
  {| eventFrequencyMultiplier := lv_eventFrequencyMultiplier l;
     noiseEventProbability := lv_noiseEventProbability l;
     attackSophistication := lv_attackSophistication l;
     simulationInterval := simulationInterval c;
     falsePositiveChance := falsePositiveChance c;
     escalationTimeout := escalationTimeout c |}.

(** The rules of a model that match an event. *)
Definition triggered (event : Event) (m : Model) : list Rule :=
  List.filter (fun rule => ruleEngine.evaluateRule (Some rule) (Some event))
    (rules (state m)).

(** A queue entry of an event. *)
Definition entry (event : Event) (now : Z) (handled : bool) : PendingEntry :=
  {| pe_event := event; pe_timestamp := now; pe_handled := handled |}.

(** The points of one handling with speed bonus [s] at uptime [u]. *)
Definition handlingPoints (s u : Q) : Z :=
  Z.max 0 (JS.Math_round (rawPoints 1 s u 0)).

(** An operation that starts the state over: a reset, a level change and
    a load. *)
Definition restarts (op : Operation) : bool :=
  match op with
  | call_resetGameState | call_startNextLevel | call_loadGameState => true
  | _ => false
  end.

(** The fields of the state an escalation does not touch. *)
Definition besidesUptime (s : GameState)
  : bool * Z * Z * list Rule * Z * list Event * list PendingEntry
    * list TrafficSample :=
  (isRunning s, level s, score s, rules s, levelProgress s, events s,
   pendingMaliciousEvents s, trafficData s).


(** ** The stored item as JSON

    Which values of [JSON.parse] are objects within the types of the
    program. For a value that is not, [loadGameState] copies into the state
    a value the fields of [GameState] cannot hold; the embedding does not
    follow the program there, and the properties of loading are stated for
    the values that are. *)

(** An integer: a number without a fractional part. *)
Definition asInteger (v : JSON.value) : option Z :=
  match v with
  | JSON.number q =>
      if Qnum q mod Zpos (Qden q) =? 0
      then Some (Qnum q / Zpos (Qden q))
      else None
  | _ => None
  end.

Definition asNumber (v : JSON.value) : option Q :=
  match v with
  | JSON.number q => Some q
  | _ => None
  end.

Definition asText (v : JSON.value) : option string :=
  match v with
  | JSON.text s => Some s
  | _ => None
  end.

(** A property that is absent or of the type read by [as]; [None] when it
    holds a value of another type. *)
Definition member {A : Type} (as' : JSON.value -> option A) (key : string)
    (members : list (string * JSON.value)) : option (option A) :=
  match JSON.get key members with
  | Some v => option_map Some (as' v)
  | None => Some None
  end.

(** A rule: an object with a text [conditionType] whose parameters, where
    present, are texts. Its other properties are not read by the core. *)
Definition asRule (v : JSON.value) : option Rule :=
  match v with
  | JSON.object members =>
      match JSON.get "conditionType" members,
            member asText "combinator" members,
            member asText "threshold" members,
            member asText "processName" members,
            member asText "domainKeyword" members,
            member asText "errorCodeThreshold" members,
            member asText "resourceKeyword" members,
            member asText "serviceName" members with
      | Some (JSON.text ct), Some c, Some t, Some p, Some d, Some e, Some r,
        Some sn =>
          Some {| conditionType := ct; combinator := c; threshold := t;
                  processName := p; domainKeyword := d;
                  errorCodeThreshold := e; resourceKeyword := r;
                  serviceName := sn |}
      | _, _, _, _, _, _, _, _ => None
      end
  | _ => None
  end.

Fixpoint allOf {A : Type} (l : list (option A)) : option (list A) :=
  match l with
  | [] => Some []
  | x :: l' =>
      match x, allOf l' with
      | Some a, Some rest => Some (a :: rest)
      | _, _ => None
      end
  end.

Definition asRules (v : JSON.value) : option (list Rule) :=
  match v with
  | JSON.array elements => allOf (List.map asRule elements)
  | _ => None
  end.

Definition allowListed (key : string) : bool :=
  List.existsb (String.eqb key) gameModel.validProperties.

(** The stored item a parsed value is: [null] ends in the [catch] block as
    a text that does not parse; a boolean, a number, a text and an array
    have none of the five properties; an object is read property by
    property. [None] for an object one of whose five properties holds a
    value of another type than [saveGameState] writes. *)
Definition typedItem (v : JSON.value) : option StoredItem :=
  match v with
  | JSON.null => Some Malformed
  | JSON.object members =>
      match member asInteger "level" members,
            member asInteger "score" members,
            member asNumber "uptime" members,
            member asRules "rules" members,
            member asInteger "levelProgress" members with
      | Some l, Some s, Some u, Some r, Some p =>
          Some (Parsed
                  {| sv_level := l; sv_score := s; sv_uptime := u;
                     sv_rules := r; sv_levelProgress := p;
                     sv_other :=
                       List.filter (fun m => negb (allowListed (fst m)))
                         members |})
      | _, _, _, _, _ => None
      end
  | _ =>
      Some (Parsed
              {| sv_level := None; sv_score := None; sv_uptime := None;
                 sv_rules := None; sv_levelProgress := None;
                 sv_other := [] |})
  end.

(** The text of the item ['gameState']. *)
Inductive StoredText :=
| unparsable
| parsesTo (v : JSON.value).

(** [localStorage] as the browser holds it: [getItem] is [None] when there
    is no item or the item is the empty text. *)
Record RawStorage := {
  getItem : option StoredText;
  setItemWorks : bool
}.

(** The storage of the model a browser storage is, when its item is within
    the types of the program. *)
Definition typedStorage (raw : RawStorage) : option Storage :=
  match getItem raw with
  | None => Some {| item := None; writable := setItemWorks raw |}
  | Some unparsable =>
      Some {| item := Some Malformed; writable := setItemWorks raw |}
  | Some (parsesTo v) =>
      option_map (fun stored =>
                    {| item := Some stored; writable := setItemWorks raw |})
        (typedItem v)
  end.





(** * Properties *)

(** ** Strings and comparisons *)

Lemma prefix_append (p s : string) :
  prefix p s = true <-> exists r, s = (p ++ r)%string.
Proof.
  revert s. induction p as [|c p IH]; intros s.
  - split; [intros _; now exists s | intros _; now destruct s].
  - destruct s as [|d s]; simpl.
    + split; [discriminate | intros [r Hr]; discriminate].
    + destruct (ascii_dec c d) as [->|Hcd].
      * rewrite IH. split; intros [r Hr]; exists r; congruence.
      * split; [discriminate | intros [r Hr]; congruence].
Qed.

(** [includes] finds exactly the substrings. *)
Lemma includes_occurs (s kw : string) :
  JS.includes s kw = true <-> occursIn kw s.
Proof.
  unfold occursIn. induction s as [|c s IH].
  - change (JS.includes "" kw) with (if prefix kw "" then true else false).
    destruct (prefix kw "") eqn:Hp.
    + apply prefix_append in Hp. destruct Hp as [r Hr].
      split; [intros _; now exists "", r | reflexivity].
    + split; [discriminate|].
      intros [a [b Hab]]. destruct a; simpl in Hab.
      * assert (prefix kw "" = true) by (apply prefix_append; now exists b).
        congruence.
      * discriminate.
  - change (JS.includes (String c s) kw)
      with (if prefix kw (String c s) then true else JS.includes s kw).
    destruct (prefix kw (String c s)) eqn:Hp.
    + apply prefix_append in Hp. destruct Hp as [r Hr].
      split; [intros _; now exists "", r | reflexivity].
    + rewrite IH. split.
      * intros [a [b Hab]]. exists (String c a), b. simpl. now rewrite Hab.
      * intros [a [b Hab]]. destruct a as [|d a]; simpl in Hab.
        -- assert (prefix kw (String c s) = true)
             by (apply prefix_append; now exists b).
           congruence.
        -- exists a, b. congruence.
Qed.

Lemma strict_eq_eq (a b : option string) : JS.strict_eq a b = true <-> a = b.
Proof.
  destruct a as [x|], b as [y|]; simpl; try (split; congruence).
  rewrite String.eqb_eq. split; congruence.
Qed.

Lemma truthy_Some (a : option string) :
  JS.truthy a = true <-> exists s, a = Some s /\ s <> "".
Proof.
  destruct a as [[|c x]|]; simpl; split; try discriminate.
  - intros [s [H Hs]]. congruence.
  - intros _. eexists; split; [reflexivity | discriminate].
  - intros _; reflexivity.
  - intros [s [H _]]; discriminate.
Qed.

Lemma gt_spec (a b : option Z) :
  JS.gt a b = true <-> exists x y, a = Some x /\ b = Some y /\ y < x.
Proof.
  destruct a as [x|], b as [y|]; simpl.
  - rewrite Z.ltb_lt. split.
    + intros H; now exists x, y.
    + intros [x' [y' [Hx [Hy H]]]]. congruence.
  - split; [discriminate | intros [x' [y' [_ [Hy _]]]]; discriminate].
  - split; [discriminate | intros [x' [y' [Hx _]]]; discriminate].
  - split; [discriminate | intros [x' [y' [Hx _]]]; discriminate].
Qed.

Lemma ge_spec (a b : option Z) :
  JS.ge a b = true <-> exists x y, a = Some x /\ b = Some y /\ y <= x.
Proof.
  destruct a as [x|], b as [y|]; simpl.
  - rewrite Z.leb_le. split.
    + intros H; now exists x, y.
    + intros [x' [y' [Hx [Hy H]]]]. congruence.
  - split; [discriminate | intros [x' [y' [_ [Hy _]]]]; discriminate].
  - split; [discriminate | intros [x' [y' [Hx _]]]; discriminate].
  - split; [discriminate | intros [x' [y' [Hx _]]]; discriminate].
Qed.

(** ** Rule evaluation *)

(** Case analysis on the [case] a rule's condition type selects. *)
Ltac switch_on_conditionType rule :=
  repeat match goal with
         | |- context [String.eqb (conditionType rule) ?lit] =>
             destruct (String.eqb_spec (conditionType rule) lit)
         end.

(** Reduces the [switch] once the condition type is a known literal. *)
Ltac enter_case Hct :=
  rewrite Hct; simpl (String.eqb _ _); cbv beta iota; cbn [andb].

(** C5. A rule never matches an event of another type: [evaluateRule] is
    false whenever the event's type differs from the rule's condition type,
    whatever that condition type is. *)
Theorem evaluateRule_type_safety (rule : Rule) (event : Event) :
  ev_type event <> conditionType rule ->
  ruleEngine.evaluateRule (Some rule) (Some event) = false.
Proof.
  intros Hne. unfold ruleEngine.evaluateRule.
  switch_on_conditionType rule; try reflexivity;
    match goal with
    | E : conditionType rule = ?lit |- _ =>
        rewrite E in Hne; apply String.eqb_neq in Hne; rewrite Hne; reflexivity
    end.
Qed.

(** A login rule against a traffic spike. *)
Lemma evaluateRule_type_safety_witness :
  ev_type (sample.event "traffic_spike" "malicious" 5 "192.168.1.7")
  <> conditionType (sample.loginRule "5")
  /\ ruleEngine.evaluateRule (Some (sample.loginRule "5"))
       (Some (sample.event "traffic_spike" "malicious" 5 "192.168.1.7"))
     = false.
Proof.
  split; [discriminate|].
  apply evaluateRule_type_safety. discriminate.
Defined.

(** A missing rule or a missing event matches nothing. *)
Lemma evaluateRule_null (rule : option Rule) (event : option Event) :
  rule = None \/ event = None -> ruleEngine.evaluateRule rule event = false.
Proof. intros [-> | ->]; [reflexivity | now destruct rule]. Qed.

(** What validation guarantees about the text parameters. *)
Lemma valid_parameters (rule : Rule) :
  ruleEngine.validateRule (Some rule) = true ->
  (conditionType rule = "process_spawn" -> JS.truthy (processName rule) = true)
  /\ (conditionType rule = "dns_query" -> JS.truthy (domainKeyword rule) = true)
  /\ (conditionType rule = "unauthorized_access" ->
      JS.truthy (resourceKeyword rule) = true).
Proof.
  unfold ruleEngine.validateRule. intros Hv.
  repeat split; intros Hct; rewrite Hct in Hv; cbn in Hv;
    apply andb_prop in Hv; tauto.
Qed.

Lemma evaluate_threshold (rule : Rule) (event : Event) :
  ev_type event = conditionType rule ->
  (conditionType rule = "login_fail" ->
   (matches rule event <->
    exists c t, ev_count event = Some c
                /\ JS.parseInt (threshold rule) = Some t /\ t < c))
  /\ (conditionType rule = "traffic_spike" ->
      (matches rule event <->
       exists v t, ev_volume event = Some v
                   /\ JS.parseInt (threshold rule) = Some t /\ t < v))
  /\ (conditionType rule = "http_error" ->
      (matches rule event <->
       exists c t, ev_code event = Some c
                   /\ JS.parseInt (errorCodeThreshold rule) = Some t
                   /\ t <= c)).
Proof.
  intros Hty. unfold matches, ruleEngine.evaluateRule. rewrite Hty.
  split; [|split]; intros Hct; revert Hty; enter_case Hct; intros _;
    first [apply gt_spec | apply ge_spec].
Qed.

Lemma evaluate_name (rule : Rule) (event : Event) :
  ruleEngine.validateRule (Some rule) = true ->
  ev_type event = conditionType rule ->
  (conditionType rule = "process_spawn" ->
   (matches rule event <-> ev_process event = processName rule))
  /\ (conditionType rule = "service_failure" ->
      (matches rule event <-> ev_service event = serviceName rule)).
Proof.
  intros Hv Hty. destruct (valid_parameters rule Hv) as [Hp _].
  unfold matches, ruleEngine.evaluateRule. rewrite Hty.
  split; intros Hct.
  - specialize (Hp Hct). revert Hty; enter_case Hct; intros _.
    rewrite andb_true_iff, strict_eq_eq. split; [tauto|].
    intros He. split; [rewrite He; exact Hp | exact He].
  - revert Hty; enter_case Hct; intros _. apply strict_eq_eq.
Qed.

Lemma includes_keyword (field keyword : option string) :
  JS.truthy keyword = true ->
  (JS.truthy field
   && JS.includes (JS.toString field) (JS.toString keyword))%bool = true
  <-> exists s k, field = Some s /\ keyword = Some k /\ occursIn k s.
Proof.
  intros Hk. apply truthy_Some in Hk. destruct Hk as [k [-> Hk]].
  rewrite andb_true_iff, includes_occurs. cbn [JS.toString]. split.
  - intros [Ht Hocc]. apply truthy_Some in Ht. destruct Ht as [s [-> _]].
    exists s, k. repeat split; assumption.
  - intros [s [k' [-> [Hk' Hocc]]]]. injection Hk' as <-. split.
    + apply truthy_Some. exists s. split; [reflexivity|].
      intros ->. destruct Hocc as [a [b Hab]].
      destruct a; [destruct k; [congruence | discriminate] | discriminate].
    + exact Hocc.
Qed.

Lemma evaluate_keyword (rule : Rule) (event : Event) :
  ruleEngine.validateRule (Some rule) = true ->
  ev_type event = conditionType rule ->
  (conditionType rule = "dns_query" ->
   (matches rule event <->
    exists d k, ev_domain event = Some d /\ domainKeyword rule = Some k
                /\ occursIn k d))
  /\ (conditionType rule = "unauthorized_access" ->
      (matches rule event <->
       exists r k, ev_resource event = Some r /\ resourceKeyword rule = Some k
                   /\ occursIn k r)).
Proof.
  intros Hv Hty. destruct (valid_parameters rule Hv) as [_ [Hd Hr]].
  unfold matches, ruleEngine.evaluateRule. rewrite Hty.
  split; intros Hct.
  - specialize (Hd Hct). revert Hty; enter_case Hct; intros _.
    now apply includes_keyword.
  - specialize (Hr Hct). revert Hty; enter_case Hct; intros _.
    now apply includes_keyword.
Qed.

(** C6. For a rule that passed validation and an event of the rule's type:
    [login_fail] and [traffic_spike] match iff the event's count or volume
    is strictly greater than the rule's threshold as [parseInt] reads it;
    [process_spawn] and [service_failure] match iff the event's process or
    service name is exactly the rule's name; [dns_query] and
    [unauthorized_access] match iff the rule's keyword is a substring of the
    event's domain or resource; [http_error] matches iff the event's code is
    greater than or equal to the rule's threshold. *)
Theorem evaluateRule_comparisons (rule : Rule) (event : Event) :
  ruleEngine.validateRule (Some rule) = true ->
  ev_type event = conditionType rule ->
  (conditionType rule = "login_fail" ->
   (matches rule event <->
    exists c t, ev_count event = Some c
                /\ JS.parseInt (threshold rule) = Some t /\ t < c))
  /\ (conditionType rule = "traffic_spike" ->
      (matches rule event <->
       exists v t, ev_volume event = Some v
                   /\ JS.parseInt (threshold rule) = Some t /\ t < v))
  /\ (conditionType rule = "process_spawn" ->
      (matches rule event <-> ev_process event = processName rule))
  /\ (conditionType rule = "service_failure" ->
      (matches rule event <-> ev_service event = serviceName rule))
  /\ (conditionType rule = "dns_query" ->
      (matches rule event <->
       exists d k, ev_domain event = Some d /\ domainKeyword rule = Some k
                   /\ occursIn k d))
  /\ (conditionType rule = "unauthorized_access" ->
      (matches rule event <->
       exists r k, ev_resource event = Some r /\ resourceKeyword rule = Some k
                   /\ occursIn k r))
  /\ (conditionType rule = "http_error" ->
      (matches rule event <->
       exists c t, ev_code event = Some c
                   /\ JS.parseInt (errorCodeThreshold rule) = Some t
                   /\ t <= c)).
Proof.
  intros Hv Hty.
  destruct (evaluate_threshold rule event Hty) as [Hl [Ht Hh]].
  destruct (evaluate_name rule event Hv Hty) as [Hp Hs].
  destruct (evaluate_keyword rule event Hv Hty) as [Hd Hr].
  repeat (split; [assumption|]). assumption.
Qed.

(** The scenario of the specification: threshold 5 matches a count of 6
    and does not match a count of 5. *)
Lemma evaluateRule_comparisons_witness :
  ruleEngine.validateRule (Some (sample.loginRule "5")) = true
  /\ ev_type (sample.loginFail 6) = conditionType (sample.loginRule "5")
  /\ matches (sample.loginRule "5") (sample.loginFail 6)
  /\ ~ matches (sample.loginRule "5") (sample.loginFail 5).
Proof.
  split; [reflexivity|]. split; [reflexivity|].
  destruct (evaluateRule_comparisons (sample.loginRule "5") (sample.loginFail 6)
              eq_refl eq_refl) as [H6 _].
  destruct (evaluateRule_comparisons (sample.loginRule "5") (sample.loginFail 5)
              eq_refl eq_refl) as [H5 _].
  split.
  - apply H6; [reflexivity|]. exists 6, 5. repeat split; reflexivity.
  - intros Hm. apply H5 in Hm; [|reflexivity].
    destruct Hm as [c [t [Hc [Ht Hlt]]]].
    injection Hc as <-. injection Ht as <-. lia.
Defined.

(** ** Saving and scoring *)

Lemma skipn_length_app {A : Type} (l l' : list A) :
  List.skipn (List.length l) (l ++ l') = l'.
Proof. induction l; simpl; auto. Qed.

Lemma publishedSince_app (m m' : Model) (l : list Publication) :
  published m' = published m ++ l -> publishedSince m m' = l.
Proof. unfold publishedSince. intros ->. apply skipn_length_app. Qed.

Lemma saveGameState_run (m : Model) :
  gameModel.saveGameState m =
  Returned tt
    {| state := state m; currentLevelIndex := currentLevelIndex m;
       settings := settings m;
       localStorage := saved (state m) (localStorage m);
       published := published m ++ saveNotice (localStorage m) |}.
Proof.
  unfold gameModel.saveGameState, saved, saveNotice, snapshot.
  cbv [bind gets modify eventBus.publish].
  destruct (writable (localStorage m)); cbn.
  - now rewrite app_nil_r.
  - destruct m; reflexivity.
Qed.

Lemma saveGameState_state (m : Model) :
  state (final (gameModel.saveGameState m)) = state m.
Proof. now rewrite saveGameState_run. Qed.

Lemma calculateScore_run (d s u f : Q) (m : Model) :
  let earnedPoints :=
    Z.max 0 (JS.Math_round (0 + d * 100 + s * 5 + u * 10 - f * 50)%Q) in
  let st := set_score (score (state m) + earnedPoints) (state m) in
  gameModel.calculateScore d s u f m =
  Returned earnedPoints
    {| state := st; currentLevelIndex := currentLevelIndex m;
       settings := settings m;
       localStorage := saved st (localStorage m);
       published := (published m ++ saveNotice (localStorage m))
                    ++ [score_updated (score (state m) + earnedPoints)
                          earnedPoints] |}.
Proof.
  unfold gameModel.calculateScore. cbv [bind modify gets ret eventBus.publish].
  rewrite saveGameState_run. reflexivity.
Qed.

Lemma Math_round_nearest (x : Q) : nearestInteger (JS.Math_round x) x.
Proof.
  unfold nearestInteger, JS.Math_round. split.
  - apply Qfloor_le.
  - pose proof (Qlt_floor (x + (1 # 2))) as H.
    rewrite inject_Z_plus in H. exact H.
Qed.

Lemma Math_max_0_cases (x : Q) :
  (0 <= x /\ JS.Math_max 0 x = x)%Q \/ (x < 0 /\ JS.Math_max 0 x = 0)%Q.
Proof.
  unfold JS.Math_max. destruct (Qle_bool 0 x) eqn:H.
  - left. split; [now apply Qle_bool_iff | reflexivity].
  - right. split; [|reflexivity].
    apply Qnot_le_lt. intros Hle. apply Qle_bool_iff in Hle. congruence.
Qed.

Lemma Math_max_0_nonneg (x : Q) : (0 <= JS.Math_max 0 x)%Q.
Proof.
  destruct (Math_max_0_cases x) as [[H ->]|[_ ->]];
    [assumption | apply Qle_refl].
Qed.

(** Rounding and then clamping at zero is rounding the clamped value. *)
Lemma clamp_round (x : Q) :
  nearestInteger (Z.max 0 (JS.Math_round x)) (JS.Math_max 0 x).
Proof.
  destruct (Math_round_nearest x) as [Hlo Hhi].
  unfold nearestInteger in *.
  destruct (Z.max_spec 0 (JS.Math_round x)) as [[Hz ->]|[Hz ->]];
    destruct (Math_max_0_cases x) as [[Hx ->]|[Hx ->]].
  - split; assumption.
  - assert (Hz' : 1 <= JS.Math_round x) by lia.
    rewrite Zle_Qle in Hz'. change (inject_Z 1) with 1%Q in Hz'. split; lra.
  - rewrite Zle_Qle in Hz. change (inject_Z 0) with 0%Q in *. split; lra.
  - change (inject_Z 0) with 0%Q. split; lra.
Qed.

Lemma rawPoints_sum (d s u f : Q) :
  (0 + d * 100 + s * 5 + u * 10 - f * 50 == rawPoints d s u f)%Q.
Proof. unfold rawPoints. ring. Qed.

Lemma Math_round_rawPoints (d s u f : Q) :
  JS.Math_round (0 + d * 100 + s * 5 + u * 10 - f * 50)
  = JS.Math_round (rawPoints d s u f).
Proof. unfold JS.Math_round. apply Qfloor_comp. now rewrite rawPoints_sum. Qed.

(** C7. [calculateScore] computes detected x 100 + speed bonus x 5 +
    uptime x 10 - false positives x 50, clamps it at zero and rounds it to
    the nearest integer, adds the result to the cumulative score, persists
    the state, publishes [score:updated] and returns the result. It does so
    for all inputs, the non-negative ones among them;
    [calculateScore(1, 25, 80, 0)] returns 1025. *)
Theorem calculateScore_points (d s u f : Q) (m : Model) :
  exists earnedPoints m',
    gameModel.calculateScore d s u f m = Returned earnedPoints m'
    /\ earnedPoints = Z.max 0 (JS.Math_round (rawPoints d s u f))
    /\ nearestInteger earnedPoints (JS.Math_max 0 (rawPoints d s u f))
    /\ 0 <= earnedPoints
    /\ score (state m') = score (state m) + earnedPoints
    /\ localStorage m' = saved (state m') (localStorage m)
    /\ publishedSince m m' =
         saveNotice (localStorage m)
         ++ [score_updated (score (state m')) earnedPoints]
    /\ result (gameModel.calculateScore 1 25 80 0 m) = Some 1025.
Proof.
  rewrite calculateScore_run. cbv zeta. rewrite Math_round_rawPoints.
  eexists; eexists. split; [reflexivity|].
  split; [reflexivity|].
  split; [apply clamp_round|].
  split; [apply Z.le_max_l|].
  split; [reflexivity|].
  split; [reflexivity|].
  split.
  - apply publishedSince_app. cbn [published]. now rewrite <- app_assoc.
  - rewrite calculateScore_run. reflexivity.
Qed.

(** ** The escalation sweep *)

(** The [filter] with its side effect is two filters: the entries that
    stay and the events of the entries that escalate. *)
Lemma sweep_fold (now timeout : Z) (l : list PendingEntry)
    (kept : list PendingEntry) (escalated : list Event) :
  List.fold_left (gameModel.sweepEntry now timeout) l (kept, escalated) =
  (kept ++ List.filter (staysPending now timeout) l,
   escalated ++ List.map pe_event (List.filter (escalates now timeout) l)).
Proof.
  revert kept escalated.
  induction l as [|p l IH]; intros kept escalated.
  - simpl. now rewrite !app_nil_r.
  - cbn [List.fold_left List.filter].
    unfold staysPending at 1, escalates at 1.
    unfold gameModel.sweepEntry at 2.
    rewrite Z.ltb_antisym.
    destruct (pe_handled p); cbn [negb andb]; [apply IH|].
    destruct (timeout <=? now - pe_timestamp p); cbn [negb List.map];
      rewrite IH; now rewrite <- ?app_assoc.
Qed.

Lemma checkEscalations_run (now : Z) (m : Model) :
  let timeout := escalationTimeout (settings m) in
  let escalated :=
    List.map pe_event (List.filter (escalates now timeout) (pending m)) in
  gameModel.checkEscalations now m =
  Returned escalated
    {| state := set_pendingMaliciousEvents
                  (List.filter (staysPending now timeout) (pending m))
                  (state m);
       currentLevelIndex := currentLevelIndex m;
       settings := settings m;
       localStorage := localStorage m;
       published := published m ++ escalationNotice escalated |}.
Proof.
  unfold gameModel.checkEscalations, pending. cbv [bind gets].
  rewrite sweep_fold. cbn [app].
  destruct (List.map pe_event _) as [|e es] eqn:E; cbn.
  - now rewrite app_nil_r.
  - reflexivity.
Qed.

(** C3. One call of [checkEscalations] returns the events of the unhandled
    entries whose dwell time reached the timeout and keeps the unhandled
    entries below it: a handled entry is removed and contributes nothing to
    the returned list, an unhandled entry at or past the timeout is removed
    and its event returned, an unhandled entry below the timeout stays; and
    [events:escalated] is published only for a non-empty list. *)
Theorem checkEscalations_postcondition (now : Z) (m : Model) :
  let timeout := escalationTimeout (settings m) in
  exists escalated m',
    gameModel.checkEscalations now m = Returned escalated m'
    /\ escalated =
         List.map pe_event (List.filter (escalates now timeout) (pending m))
    /\ pending m' = List.filter (staysPending now timeout) (pending m)
    /\ publishedSince m m' = escalationNotice escalated
    /\ (escalated = [] -> published m' = published m)
    /\ (forall p, In p (pending m) ->
          (pe_handled p = true -> ~ In p (pending m'))
          /\ (pe_handled p = false -> timeout <= now - pe_timestamp p ->
              ~ In p (pending m') /\ In (pe_event p) escalated)
          /\ (pe_handled p = false -> now - pe_timestamp p < timeout ->
              In p (pending m'))).
Proof.
  intros timeout. rewrite checkEscalations_run. fold timeout.
  eexists; eexists. split; [reflexivity|].
  split; [reflexivity|].
  split; [reflexivity|].
  split; [apply skipn_length_app|].
  split.
  - intros ->. cbn. now rewrite app_nil_r.
  - intros p Hin. unfold pending at 1 3 5.
    cbn [state pendingMaliciousEvents set_pendingMaliciousEvents].
    split; [|split].
    + intros Hh Hin'. apply filter_In in Hin'. destruct Hin' as [_ Hs].
      unfold staysPending in Hs. rewrite Hh in Hs. discriminate.
    + intros Hh Hge. split.
      * intros Hin'. apply filter_In in Hin'. destruct Hin' as [_ Hs].
        unfold staysPending in Hs. apply andb_prop in Hs.
        destruct Hs as [_ Hs]. apply Z.ltb_lt in Hs. lia.
      * apply in_map. apply filter_In. split; [assumption|].
        unfold escalates. rewrite Hh. cbn. now apply Z.leb_le.
    + intros Hh Hlt. apply filter_In. split; [assumption|].
      unfold staysPending. rewrite Hh. cbn. now apply Z.ltb_lt.
Qed.

(** The scenario of the specification: an event enqueued at 0 with a
    timeout of 45000 is still pending at 44999 and escalates at 45000. *)
Lemma checkEscalations_postcondition_witness :
  let p := {| pe_event := sample.loginFail 6; pe_timestamp := 0;
              pe_handled := false |} in
  In p (pending sample.queued)
  /\ In p (pending (run (call_checkEscalations 44999) sample.queued))
  /\ ~ In p (pending (run (call_checkEscalations 45000) sample.queued))
  /\ result (gameModel.checkEscalations 45000 sample.queued)
     = Some [sample.loginFail 6].
Proof.
  intros p.
  assert (Hin : In p (pending sample.queued)) by (left; reflexivity).
  split; [exact Hin|].
  destruct (checkEscalations_postcondition 44999 sample.queued)
    as [e1 [m1 [Hrun1 [_ [_ [_ [_ Hp1]]]]]]].
  destruct (checkEscalations_postcondition 45000 sample.queued)
    as [e2 [m2 [Hrun2 [He2 [_ [_ [_ Hp2]]]]]]].
  cbn [run]. rewrite Hrun1, Hrun2. cbn [final result].
  destruct (Hp1 p Hin) as [_ [_ Hstay]].
  destruct (Hp2 p Hin) as [_ [Hgo _]].
  split; [apply Hstay; [reflexivity | vm_compute; reflexivity]|].
  split; [apply Hgo; [reflexivity | vm_compute; discriminate]|].
  rewrite He2. reflexivity.
Defined.

(** ** Adding and handling events *)

Lemma addEvent_run (event : Event) (now now' : Z) (m : Model) :
  exists traffic,
    gameModel.addEvent event now now' m =
    Returned tt
      {| state :=
           set_trafficData traffic
             (set_pendingMaliciousEvents (pending m ++ enqueue event now)
                (set_events (events (state m) ++ [event]) (state m)));
         currentLevelIndex := currentLevelIndex m;
         settings := settings m;
         localStorage := localStorage m;
         published := published m ++ [event_added event] |}.
Proof.
  unfold gameModel.addEvent, enqueue, pending.
  cbv [bind gets modify ret eventBus.publish].
  destruct (String.eqb (ev_category event) "malicious");
    cbn [state with_state trafficData set_trafficData
         set_pendingMaliciousEvents set_events];
    match goal with
    | |- context [if ?c then _ else _] => destruct c
    end; cbn; eexists; try rewrite app_nil_r; reflexivity.
Qed.

Lemma markEventAsHandled_run (event : Event) (now : Z) (m : Model) :
  gameModel.markEventAsHandled event now m =
  match List.find (gameModel.sameEvent event) (pending m) with
  | Some pendingEvent =>
      bind
        (gameModel.calculateScore 1
           (speedBonus now (pe_timestamp pendingEvent)) (uptime (state m)) 0)
        (fun _ => bind (eventBus.publish (event_handled event))
                    (fun _ => ret true))
        (with_state
           (set_pendingMaliciousEvents
              (gameModel.setHandled (gameModel.sameEvent event) (pending m)))
           m)
  | None => Returned false m
  end.
Proof.
  unfold gameModel.markEventAsHandled, pending. cbv [bind gets].
  destruct (List.find _ _); reflexivity.
Qed.

(** Whenever [find] returns an entry, handled or not, the call scores,
    publishes and returns [true]. *)
Lemma markEventAsHandled_found (event : Event) (now : Z) (m : Model)
    (pendingEvent : PendingEntry) :
  List.find (gameModel.sameEvent event) (pending m) = Some pendingEvent ->
  exists earnedPoints m',
    gameModel.markEventAsHandled event now m = Returned true m'
    /\ earnedPoints =
         Z.max 0 (JS.Math_round
                    (rawPoints 1 (speedBonus now (pe_timestamp pendingEvent))
                       (uptime (state m)) 0))
    /\ score (state m') = score (state m) + earnedPoints
    /\ pending m' =
         gameModel.setHandled (gameModel.sameEvent event) (pending m)
    /\ events (state m') = events (state m)
    /\ publishedSince m m' =
         saveNotice (localStorage m)
         ++ [score_updated (score (state m')) earnedPoints;
             event_handled event].
Proof.
  intros Hfind. rewrite markEventAsHandled_run, Hfind.
  unfold bind at 1. rewrite calculateScore_run. cbv zeta.
  cbv [bind modify ret eventBus.publish].
  rewrite Math_round_rawPoints. eexists; eexists. split; [reflexivity|].
  repeat (split; [reflexivity|]).
  apply publishedSince_app. cbn [published with_state set_published].
  now rewrite <- !app_assoc.
Qed.

Lemma setHandled_events (f : PendingEntry -> bool) (l : list PendingEntry) :
  List.map pe_event (gameModel.setHandled f l) = List.map pe_event l.
Proof.
  induction l as [|p l IH]; simpl; [reflexivity|].
  destruct (f p); simpl; [reflexivity | now rewrite IH].
Qed.

(** The entry a first call marked is the entry a second call finds. *)
Lemma find_setHandled (event : Event) (l : list PendingEntry)
    (p : PendingEntry) :
  List.find (gameModel.sameEvent event) l = Some p ->
  List.find (gameModel.sameEvent event)
    (gameModel.setHandled (gameModel.sameEvent event) l) = Some (handledCopy p)
  /\ In (handledCopy p) (gameModel.setHandled (gameModel.sameEvent event) l).
Proof.
  induction l as [|q l IH]; simpl; [discriminate|].
  destruct (gameModel.sameEvent event q) eqn:Hq.
  - intros [= ->]. fold (handledCopy p). simpl.
    change (gameModel.sameEvent event (handledCopy p))
      with (gameModel.sameEvent event p).
    rewrite Hq. auto.
  - intros Hfind. simpl. rewrite Hq. destruct (IH Hfind). auto.
Qed.

Lemma speedBonus_nonneg (now t : Z) : (0 <= speedBonus now t)%Q.
Proof. apply Math_max_0_nonneg. Qed.

Lemma handling_points (s u : Q) :
  (0 <= s)%Q -> (0 <= u)%Q ->
  100 <= Z.max 0 (JS.Math_round (rawPoints 1 s u 0)).
Proof.
  intros Hs Hu. apply Z.max_le_iff. right.
  unfold JS.Math_round. rewrite <- (Qfloor_Z 100).
  apply Qfloor_resp_le. unfold rawPoints.
  change (inject_Z 100) with 100%Q. lra.
Qed.

(** C1, as the code behaves. After a call of [markEventAsHandled] that
    returned [true], the entry is still in the queue with [handled] set, and
    a second call on the same event finds it again: it returns [true], adds
    the points of another handling to the score (at least 100 when uptime is
    not negative) and publishes [score:updated] and [event:handled] once
    more. The specification asks for [false] and no effect. *)
Theorem markEventAsHandled_scores_again
    (event : Event) (now now' : Z) (m m1 : Model) :
  gameModel.markEventAsHandled event now m = Returned true m1 ->
  exists p earnedPoints m2,
    List.find (gameModel.sameEvent event) (pending m1) = Some p
    /\ pe_handled p = true
    /\ gameModel.markEventAsHandled event now' m1 = Returned true m2
    /\ earnedPoints =
         Z.max 0 (JS.Math_round
                    (rawPoints 1 (speedBonus now' (pe_timestamp p))
                       (uptime (state m1)) 0))
    /\ score (state m2) = score (state m1) + earnedPoints
    /\ ((0 <= uptime (state m1))%Q -> 100 <= earnedPoints)
    /\ publishedSince m1 m2 =
         saveNotice (localStorage m1)
         ++ [score_updated (score (state m2)) earnedPoints;
             event_handled event].
Proof.
  intros Hfirst.
  destruct (List.find (gameModel.sameEvent event) (pending m)) as [p0|] eqn:Hf.
  - destruct (markEventAsHandled_found event now m p0 Hf)
      as [pts [m' [Hrun [_ [_ [Hp _]]]]]].
    rewrite Hrun in Hfirst. injection Hfirst as <-.
    destruct (find_setHandled event (pending m) p0 Hf) as [Hf1 _].
    rewrite <- Hp in Hf1.
    destruct (markEventAsHandled_found event now' m' (handledCopy p0) Hf1)
      as [pts2 [m2 [Hrun2 [Hpts [Hscore [_ [_ Hpub]]]]]]].
    exists (handledCopy p0), pts2, m2.
    repeat (split; [assumption || reflexivity|]).
    split; [|assumption].
    intros Hu. rewrite Hpts. apply handling_points; [|assumption].
    apply speedBonus_nonneg.
  - rewrite markEventAsHandled_run, Hf in Hfirst. discriminate.
Qed.

(** The failing input: a malicious login failure enqueued at 0, handled at
    1000 and handled again at 2000. The second call returns [true] and
    raises the score from 1245 to 2485. *)
Lemma markEventAsHandled_scores_again_witness :
  gameModel.markEventAsHandled (sample.loginFail 6) 1000 sample.queued
  = Returned true sample.handledOnce
  /\ exists m2,
       gameModel.markEventAsHandled (sample.loginFail 6) 2000
         sample.handledOnce = Returned true m2
       /\ score (state sample.handledOnce) = 1245
       /\ score (state m2) = 2485
       /\ List.map topic (publishedSince sample.handledOnce m2)
          = ["score:updated"; "event:handled"].
Proof.
  assert (Hfirst :
    gameModel.markEventAsHandled (sample.loginFail 6) 1000 sample.queued
    = Returned true sample.handledOnce) by (vm_compute; reflexivity).
  split; [exact Hfirst|].
  destruct (markEventAsHandled_scores_again (sample.loginFail 6) 1000 2000
              sample.queued sample.handledOnce Hfirst)
    as [p [pts [m2 [Hfind [_ [Hrun [Hpts [Hscore [_ Hpub]]]]]]]]].
  exists m2. split; [exact Hrun|].
  vm_compute in Hfind. injection Hfind as <-.
  split; [vm_compute; reflexivity|].
  split.
  - rewrite Hscore, Hpts. vm_compute. reflexivity.
  - rewrite Hpub. reflexivity.
Defined.

(** ** Levels *)

Lemma resetGameState_run (m : Model) :
  gameModel.resetGameState m =
  Returned tt
    {| state := gameModel.initialState;
       currentLevelIndex := 0;
       settings := settings m;
       localStorage := saved gameModel.initialState (localStorage m);
       published := (published m ++ saveNotice (localStorage m))
                    ++ [gameState_reset gameModel.initialState] |}.
Proof.
  unfold gameModel.resetGameState. cbv [bind modify gets eventBus.publish].
  rewrite saveGameState_run. reflexivity.
Qed.

Lemma applyLevelSettings_state (m : Model) :
  state (final (gameModel.applyLevelSettings m)) = state m.
Proof.
  unfold gameModel.applyLevelSettings, gameModel.getCurrentLevel.
  cbv [bind gets ret modify throw eventBus.publish].
  destruct (if currentLevelIndex m <? 0 then None else _); reflexivity.
Qed.

Lemma applyLevelSettings_first (m : Model) :
  currentLevelIndex m = 0 ->
  exists s,
    gameModel.applyLevelSettings m =
    Returned tt
      {| state := state m; currentLevelIndex := currentLevelIndex m;
         settings := s; localStorage := localStorage m;
         published := published m ++ [settings_updated s] |}.
Proof.
  destruct m as [s i c st p]. cbn [currentLevelIndex]. intros ->.
  unfold gameModel.applyLevelSettings, gameModel.getCurrentLevel.
  cbv [bind gets ret modify eventBus.publish]. cbn.
  eexists. reflexivity.
Qed.

(** Past the last level [startNextLevel] resets, applies the settings of
    level 1 and then announces the completion. *)
Lemma startNextLevel_wraps (m : Model) :
  gameModel.levels_length - 1 <= currentLevelIndex m ->
  exists s,
    gameModel.startNextLevel m =
    Returned false
      {| state := gameModel.initialState;
         currentLevelIndex := 0;
         settings := s;
         localStorage := saved gameModel.initialState (localStorage m);
         published :=
           published m
           ++ saveNotice (localStorage m)
           ++ [gameState_reset gameModel.initialState; settings_updated s;
               game_completed] |}.
Proof.
  intros Hidx. unfold gameModel.startNextLevel. unfold bind at 1, gets at 1.
  apply Z.ltb_ge in Hidx. rewrite Hidx.
  unfold bind at 1. rewrite resetGameState_run.
  unfold bind at 1.
  match goal with
  | |- context [gameModel.applyLevelSettings ?m1] =>
      destruct (applyLevelSettings_first m1 eq_refl) as [s Hs]; rewrite Hs
  end.
  cbv [bind eventBus.publish modify ret].
  cbn [published set_published state currentLevelIndex settings localStorage].
  exists s. now rewrite <- !app_assoc.
Qed.

Lemma firesBefore_saveNotice (st : Storage) (a b : string)
    (l : list Publication) :
  a <> "notification:error" ->
  firesBefore a b (saveNotice st ++ l) = firesBefore a b l.
Proof.
  intros Ha. unfold saveNotice. destruct (writable st); [reflexivity|].
  cbn [app firesBefore topic]. apply String.eqb_neq in Ha.
  rewrite String.eqb_sym, Ha. reflexivity.
Qed.

(** C4, as the code behaves. Advancing past the last level of the table
    returns [false] and resets the whole state, the score to 0 and the level
    to 1 among it; of the two events, [gameState:reset] is published first
    and [game:completed] after it. *)
Theorem startNextLevel_past_final_level (m : Model) :
  gameModel.levels_length - 1 <= currentLevelIndex m ->
  exists m',
    gameModel.startNextLevel m = Returned false m'
    /\ state m' = gameModel.initialState
    /\ score (state m') = 0
    /\ level (state m') = 1
    /\ currentLevelIndex m' = 0
    /\ publishedSince m m' =
         saveNotice (localStorage m)
         ++ [gameState_reset gameModel.initialState;
             settings_updated (settings m');
             game_completed]
    /\ firesBefore "gameState:reset" "game:completed" (publishedSince m m')
       = true
    /\ firesBefore "game:completed" "gameState:reset" (publishedSince m m')
       = false.
Proof.
  intros Hidx. destruct (startNextLevel_wraps m Hidx) as [s ->].
  eexists. split; [reflexivity|].
  cbn [state currentLevelIndex settings].
  repeat (split; [reflexivity|]).
  match goal with
  | |- context [publishedSince m ?m1] =>
      rewrite (publishedSince_app m m1 _ eq_refl)
  end.
  split; [reflexivity|].
  split; (rewrite firesBefore_saveNotice; [reflexivity | discriminate]).
Qed.

(** A session restored at level 3 with score 4200 wraps to level 1 and
    score 0. *)
Lemma startNextLevel_past_final_level_witness :
  gameModel.levels_length - 1 <= currentLevelIndex sample.lastLevel
  /\ exists m',
       gameModel.startNextLevel sample.lastLevel = Returned false m'
       /\ level (state sample.lastLevel) = 3
       /\ score (state sample.lastLevel) = 4200
       /\ level (state m') = 1
       /\ score (state m') = 0.
Proof.
  assert (H : gameModel.levels_length - 1 <= currentLevelIndex sample.lastLevel)
    by (vm_compute; discriminate).
  split; [exact H|].
  destruct (startNextLevel_past_final_level sample.lastLevel H)
    as [m' [Hrun [_ [Hs [Hl _]]]]].
  exists m'. repeat split; assumption || reflexivity.
Defined.

(** C4, the counterexample. At the last level the events of
    [startNextLevel] are [gameState:reset], [settings:updated] and
    [game:completed] in this order: [game:completed] does not come before
    the reset event, and no [game:reset] is published at all. *)
Lemma game_completed_fires_after_reset :
  let log := publishedSince sample.lastLevel
               (final (gameModel.startNextLevel sample.lastLevel)) in
  List.map topic log
  = ["gameState:reset"; "settings:updated"; "game:completed"]
  /\ firesBefore "game:completed" "gameState:reset" log = false
  /\ firesBefore "game:completed" "game:reset" log = false.
Proof. vm_compute. repeat split. Qed.

(** ** Persistence *)

Lemma forEach_copyProperty (sv : SavedState) (m : Model) :
  forEach (gameModel.copyProperty sv) gameModel.validProperties m =
  if gameModel.shadowsHasOwnProperty sv then Thrown m
  else Returned tt (with_state (copied sv) m).
Proof.
  unfold gameModel.validProperties, gameModel.copyProperty.
  destruct (gameModel.shadowsHasOwnProperty sv); [reflexivity|].
  unfold copied, forEach, gameModel.assignProperty.
  cbn [String.eqb Ascii.eqb Bool.eqb].
  destruct m as [s i c st p].
  destruct (sv_level sv), (sv_score sv), (sv_uptime sv), (sv_rules sv),
    (sv_levelProgress sv); reflexivity.
Qed.

(** [loadGameState] returns, whatever is stored. *)
Lemma loadGameState_run (m : Model) :
  gameModel.loadGameState m =
  Returned tt
    {| state := fst (loaded (item (localStorage m)) (state m));
       currentLevelIndex := snd (loaded (item (localStorage m)) (state m));
       settings := settings m;
       localStorage := localStorage m;
       published := published m |}.
Proof.
  unfold gameModel.loadGameState, try_catch, loaded.
  unfold bind at 1, gets at 1.
  destruct (item (localStorage m)) as [[|sv]|]; try reflexivity.
  unfold bind at 1. rewrite forEach_copyProperty.
  destruct (gameModel.shadowsHasOwnProperty sv); [reflexivity|].
  unfold inTable. cbv [bind gets ret modify].
  cbn [state with_state currentLevelIndex set_currentLevelIndex].
  destruct ((_ <? 0) || _)%bool; reflexivity.
Qed.













(** ** The pending queue along the operations *)

Lemma queue_parts (m' : Model) (es : list Event) (ps : list PendingEntry) :
  queue m' = (es, ps) -> events (state m') = es /\ pending m' = ps.
Proof. unfold queue. intros H. split; congruence. Qed.

Lemma queue_state (m m' : Model) : state m' = state m -> queue m' = queue m.
Proof. unfold queue, pending. now intros ->. Qed.

Lemma calculateScore_queue (d s u f : Q) (m : Model) :
  queue (final (gameModel.calculateScore d s u f m)) = queue m.
Proof. now rewrite calculateScore_run. Qed.

(** Loading leaves alone the fields that are not persisted. *)
Lemma loaded_kept (stored : option StoredItem) (s : GameState) :
  let s' := fst (loaded stored s) in
  isRunning s' = isRunning s
  /\ events s' = events s
  /\ pendingMaliciousEvents s' = pendingMaliciousEvents s
  /\ trafficData s' = trafficData s.
Proof.
  assert (Hcopied : forall sv,
            isRunning (copied sv s) = isRunning s
            /\ events (copied sv s) = events s
            /\ pendingMaliciousEvents (copied sv s)
               = pendingMaliciousEvents s
            /\ trafficData (copied sv s) = trafficData s).
  { intros sv. unfold copied.
    destruct (sv_level sv), (sv_score sv), (sv_uptime sv), (sv_rules sv),
      (sv_levelProgress sv); repeat split. }
  cbv zeta. unfold loaded.
  destruct stored as [[|sv]|]; try (repeat split; reflexivity).
  destruct (gameModel.shadowsHasOwnProperty sv);
    [repeat split; reflexivity|].
  cbv zeta. destruct (inTable _); cbn [fst]; [apply Hcopied|].
  cbn [isRunning events pendingMaliciousEvents trafficData set_level].
  apply Hcopied.
Qed.

Lemma loadGameState_queue (m : Model) :
  queue (final (gameModel.loadGameState m)) = queue m.
Proof.
  rewrite loadGameState_run. unfold queue, pending. cbn [final state].
  destruct (loaded_kept (item (localStorage m)) (state m))
    as [_ [He [Hp _]]].
  cbv zeta in He, Hp. now rewrite He, Hp.
Qed.

Lemma init_queue (m : Model) : queue (final (gameModel.init m)) = queue m.
Proof.
  unfold gameModel.init, bind.
  pose proof (loadGameState_queue m) as Hq.
  destruct (gameModel.loadGameState m) as [[] m1|m1]; cbn [final] in *.
  - rewrite <- Hq. apply queue_state, applyLevelSettings_state.
  - exact Hq.
Qed.

Lemma markEventAsHandled_queue (event : Event) (now : Z) (m : Model) :
  events (state (final (gameModel.markEventAsHandled event now m)))
  = events (state m)
  /\ (pending (final (gameModel.markEventAsHandled event now m)) = pending m
      \/ pending (final (gameModel.markEventAsHandled event now m))
         = gameModel.setHandled (gameModel.sameEvent event) (pending m)).
Proof.
  destruct (List.find (gameModel.sameEvent event) (pending m)) as [p|] eqn:Hf.
  - destruct (markEventAsHandled_found event now m p Hf)
      as [pts [m' [-> [_ [_ [Hp [He _]]]]]]].
    cbn [final]. auto.
  - rewrite markEventAsHandled_run, Hf. cbn [final]. auto.
Qed.

Lemma handleNewEvent_queue (event : Event) (now : Z) (m : Model) :
  events (state (final (ruleEngine.handleNewEvent event now m)))
  = events (state m)
  /\ (pending (final (ruleEngine.handleNewEvent event now m)) = pending m
      \/ pending (final (ruleEngine.handleNewEvent event now m))
         = gameModel.setHandled (gameModel.sameEvent event) (pending m)).
Proof.
  unfold ruleEngine.handleNewEvent, ruleEngine.checkEventAgainstRules.
  cbv [bind gets ret].
  destruct (0 <? _); [|cbn [final]; auto].
  destruct (markEventAsHandled_queue event now m) as [He Hp].
  destruct (gameModel.markEventAsHandled event now m) as [b m'|m'];
    cbn [final] in *; cbv [eventBus.publish modify]; cbn [final]; auto.
Qed.

Lemma addRule_queue (rule : Rule) (m : Model) :
  queue (final (ruleEngine.addRule rule m)) = queue m.
Proof.
  unfold ruleEngine.addRule. destruct (negb _).
  - reflexivity.
  - cbv [bind modify ret eventBus.publish]. rewrite saveGameState_run.
    reflexivity.
Qed.

Lemma startNextLevel_queue (m : Model) :
  queue (final (gameModel.startNextLevel m)) = queue m
  \/ queue (final (gameModel.startNextLevel m)) = ([], []).
Proof.
  destruct (Z.lt_ge_cases (currentLevelIndex m) (gameModel.levels_length - 1))
    as [Hlt|Hge].
  - left. unfold gameModel.startNextLevel. unfold bind at 1, gets at 1.
    apply Z.ltb_lt in Hlt. rewrite Hlt.
    cbv [bind modify gets]. rewrite saveGameState_run.
    match goal with
    | |- context [gameModel.applyLevelSettings ?m1] =>
        pose proof (applyLevelSettings_state m1) as Hs;
        destruct (gameModel.applyLevelSettings m1) as [[] m2|m2]
    end; cbn [final] in *;
      cbv [gameModel.getCurrentLevel bind gets ret eventBus.publish modify];
      unfold queue, pending; cbn [final state set_published];
      rewrite Hs; reflexivity.
  - right. destruct (startNextLevel_wraps m Hge) as [s ->]. reflexivity.
Qed.

Lemma uptimeImpact_penalty (event : Event) :
  uptimeImpact (escalationsController.calculateSimulatedDamage event)
  = uptimePenalty event.
Proof.
  unfold escalationsController.calculateSimulatedDamage, uptimePenalty.
  destruct (String.eqb_spec (ev_type event) "traffic_spike") as [E|E];
    [reflexivity|].
  destruct (String.eqb_spec (ev_type event) "service_failure") as [E'|E'].
  - rewrite E'. reflexivity.
  - destruct (String.eqb (ev_type event) "unauthorized_access"
              || String.eqb (ev_type event) "sql_injection")%bool;
      reflexivity.
Qed.

Lemma applyEscalationImpact_run (event : Event) (m : Model) :
  let u := JS.Math_max 0 (uptime (state m) - uptimePenalty event)%Q in
  let st := set_uptime u (state m) in
  escalationsController.applyEscalationImpact event m =
  Returned tt
    {| state := st;
       currentLevelIndex := currentLevelIndex m;
       settings := settings m;
       localStorage := saved st (localStorage m);
       published := (published m ++ impactNotices event u)
                    ++ saveNotice (localStorage m) |}.
Proof.
  unfold escalationsController.applyEscalationImpact, impactNotices.
  cbv [bind modify gets ret eventBus.publish].
  cbn [state with_state uptime set_uptime].
  rewrite uptimeImpact_penalty.
  destruct (Qle_bool _ 0); rewrite saveGameState_run; cbn;
    rewrite <- ?app_assoc; reflexivity.
Qed.

Lemma handleEscalatedEvents_queue (es : list Event) (m : Model) :
  queue (final (escalationsController.handleEscalatedEvents es m)) = queue m.
Proof.
  revert m. induction es as [|e es IH]; intros m; [reflexivity|].
  unfold escalationsController.handleEscalatedEvents. cbn [forEach].
  fold (escalationsController.handleEscalatedEvents es).
  cbv [bind eventBus.publish modify].
  rewrite applyEscalationImpact_run. cbv zeta. rewrite IH. reflexivity.
Qed.

(** What each operation does to the event log and to the queue. *)
Lemma run_queue (op : Operation) (m : Model) :
  match op with
  | call_addEvent event now _ =>
      queue (run op m)
      = (events (state m) ++ [event], pending m ++ enqueue event now)
  | call_markEventAsHandled event _ | call_handleNewEvent event _ =>
      events (state (run op m)) = events (state m)
      /\ (pending (run op m) = pending m
          \/ pending (run op m)
             = gameModel.setHandled (gameModel.sameEvent event) (pending m))
  | call_checkEscalations now =>
      queue (run op m)
      = (events (state m),
         List.filter (staysPending now (escalationTimeout (settings m)))
           (pending m))
  | call_resetGameState => queue (run op m) = ([], [])
  | call_startNextLevel =>
      queue (run op m) = queue m \/ queue (run op m) = ([], [])
  | _ => queue (run op m) = queue m
  end.
Proof.
  destruct op; cbn [run].
  - destruct (addEvent_run event now now' m) as [traffic ->]. reflexivity.
  - apply markEventAsHandled_queue.
  - now rewrite checkEscalations_run.
  - now rewrite resetGameState_run.
  - apply startNextLevel_queue.
  - apply calculateScore_queue.
  - apply loadGameState_queue.
  - apply queue_state, saveGameState_state.
  - apply queue_state, applyLevelSettings_state.
  - apply handleNewEvent_queue.
  - apply addRule_queue.
  - apply handleEscalatedEvents_queue.
  - reflexivity.
Qed.

Lemma setHandled_In (f : PendingEntry -> bool) (l : list PendingEntry)
    (p' : PendingEntry) :
  In p' (gameModel.setHandled f l) ->
  exists p, In p l /\ pe_event p' = pe_event p.
Proof.
  intros Hin. apply (in_map pe_event) in Hin.
  rewrite setHandled_events in Hin. apply in_map_iff in Hin.
  destruct Hin as [p [He Hp]]. now exists p.
Qed.

(** An operation that leaves log and queue alone keeps the invariant. *)
Lemma queueInvariant_same (m m' : Model) :
  queueInvariant m -> queue m' = queue m -> queueInvariant m'.
Proof.
  intros Inv Hq p. apply queue_parts in Hq. destruct Hq as [He Hp].
  rewrite Hp, He. apply Inv.
Qed.

(** So does one that at most sets [handled] on an entry. *)
Lemma queueInvariant_marked (m m' : Model) (event : Event) :
  queueInvariant m ->
  events (state m') = events (state m)
  /\ (pending m' = pending m
      \/ pending m'
         = gameModel.setHandled (gameModel.sameEvent event) (pending m)) ->
  queueInvariant m'.
Proof.
  intros Inv [He [Hp|Hp]] p; rewrite Hp, He; [apply Inv|].
  intros Hin. apply setHandled_In in Hin.
  destruct Hin as [p0 [Hin ->]]. now apply Inv.
Qed.

Lemma queueInvariant_empty (m' : Model) :
  queue m' = ([], []) -> queueInvariant m'.
Proof.
  intros Hq p. apply queue_parts in Hq. destruct Hq as [_ Hp].
  rewrite Hp. contradiction.
Qed.

Lemma queueInvariant_run (op : Operation) (m : Model) :
  queueInvariant m -> queueInvariant (run op m).
Proof.
  intros Inv. pose proof (run_queue op m) as Hq.
  destruct op;
    try (now apply (queueInvariant_same m));
    try (now apply (queueInvariant_marked m _ event)).
  - apply queue_parts in Hq. destruct Hq as [He Hp].
    intros p. rewrite Hp, He. intros Hin.
    apply in_app_or in Hin. destruct Hin as [Hin|Hin].
    + destruct (Inv p Hin). split; [assumption | apply in_or_app; now left].
    + unfold enqueue in Hin.
      destruct (String.eqb_spec (ev_category event) "malicious") as [Hc|Hc];
        [|contradiction].
      destruct Hin as [<-|[]]. cbn [pe_event].
      split; [assumption | apply in_or_app; right; now left].
  - apply queue_parts in Hq. destruct Hq as [He Hp].
    intros p. rewrite Hp, He. intros Hin.
    apply filter_In in Hin. now apply Inv.
  - now apply queueInvariant_empty.
  - destruct Hq as [Hq|Hq];
      [now apply (queueInvariant_same m) | now apply queueInvariant_empty].
Qed.

Lemma reachable_queueInvariant (m : Model) : reachable m -> queueInvariant m.
Proof.
  induction 1 as [st|m op Hr IH].
  - apply (queueInvariant_same (fresh st)); [|apply init_queue].
    intros p Hin. contradiction.
  - now apply queueInvariant_run.
Qed.

(** An operation other than a sweep or a reset drops no event from the
    queue. *)
Lemma pendingEvents_kept (op : Operation) (m : Model) (e : Event) :
  In e (pendingEvents m) -> ~ In e (pendingEvents (run op m)) ->
  (exists now, op = call_checkEscalations now)
  \/ op = call_resetGameState \/ op = call_startNextLevel.
Proof.
  intros Hin Hout. pose proof (run_queue op m) as Hq.
  assert (Hsame : queue (run op m) = queue m -> False).
  { intros E. apply queue_parts in E. destruct E as [_ Hp].
    apply Hout. unfold pendingEvents. now rewrite Hp. }
  assert (Hmark : forall event,
            events (state (run op m)) = events (state m)
            /\ (pending (run op m) = pending m
                \/ pending (run op m)
                   = gameModel.setHandled (gameModel.sameEvent event)
                       (pending m)) ->
            False).
  { intros event [_ [Hp|Hp]]; apply Hout; unfold pendingEvents; rewrite Hp;
      [assumption | now rewrite setHandled_events]. }
  destruct op;
    try (exfalso; now apply Hsame);
    try (exfalso; now apply (Hmark event)).
  - exfalso. apply queue_parts in Hq. destruct Hq as [_ Hp].
    apply Hout. unfold pendingEvents. rewrite Hp, map_app.
    apply in_or_app. now left.
  - left. now exists now.
  - right. now left.
  - right. now right.
Qed.

(** C2, as the code behaves. At every reachable model each entry of the
    pending queue wraps a malicious event of the event log; [addEvent]
    enqueues exactly the malicious events; [markEventAsHandled] removes
    nothing, so that a handled entry stays in the queue until the next
    sweep; [checkEscalations] keeps exactly the unhandled entries below the
    timeout; and an event loses its entry only in a sweep, as handled or as
    timed out, or when the state is reset ([resetGameState], which
    [startNextLevel] calls past the last level). *)
Theorem pending_queue_invariant (m : Model) :
  reachable m ->
  let timeout := escalationTimeout (settings m) in
  (forall p, In p (pending m) ->
     ev_category (pe_event p) = "malicious"
     /\ In (pe_event p) (events (state m)))
  /\ (forall event now now',
        pending (run (call_addEvent event now now') m)
        = pending m ++ enqueue event now)
  /\ (forall event now,
        pendingEvents (run (call_markEventAsHandled event now) m)
        = pendingEvents m)
  /\ (forall now,
        pending (run (call_checkEscalations now) m)
        = List.filter (staysPending now timeout) (pending m))
  /\ (forall op e,
        In e (pendingEvents m) -> ~ In e (pendingEvents (run op m)) ->
        (exists now p,
            op = call_checkEscalations now /\ In p (pending m)
            /\ pe_event p = e
            /\ (pe_handled p = true \/ timeout <= now - pe_timestamp p))
        \/ op = call_resetGameState \/ op = call_startNextLevel).
Proof.
  intros Hr timeout.
  split; [exact (reachable_queueInvariant m Hr)|].
  split.
  { intros event now now'.
    pose proof (run_queue (call_addEvent event now now') m) as Hq.
    now apply queue_parts in Hq. }
  split.
  { intros event now.
    destruct (run_queue (call_markEventAsHandled event now) m) as [_ [Hp|Hp]];
      unfold pendingEvents; rewrite Hp; [reflexivity|].
    apply setHandled_events. }
  split.
  { intros now.
    pose proof (run_queue (call_checkEscalations now) m) as Hq.
    now apply queue_parts in Hq. }
  intros op e Hin Hout.
  destruct (pendingEvents_kept op m e Hin Hout) as [[now ->]|H];
    [left | now right].
  pose proof (run_queue (call_checkEscalations now) m) as Hq.
  apply queue_parts in Hq. destruct Hq as [_ Hp].
  unfold pendingEvents in Hin, Hout.
  apply in_map_iff in Hin. destruct Hin as [p [Hpe Hin]].
  exists now, p. repeat split; try assumption.
  destruct (pe_handled p) eqn:Hh; [now left | right].
  destruct (Z.lt_ge_cases (now - pe_timestamp p) timeout) as [Hlt|Hge];
    [|assumption].
  exfalso. apply Hout. rewrite Hp. rewrite <- Hpe. apply in_map.
  apply filter_In. split; [assumption|].
  unfold staysPending. rewrite Hh. now apply Z.ltb_lt.
Qed.

Lemma reachable_handledOnce : reachable sample.handledOnce.
Proof.
  unfold sample.handledOnce, sample.queued, sample.started.
  apply reachable_step, reachable_step, reachable_init.
Qed.

(** On the session with one handled event: the queued entry is malicious,
    marking it again leaves it queued, and a sweep removes it. *)
Lemma pending_queue_invariant_witness :
  reachable sample.handledOnce
  /\ (forall p, In p (pending sample.handledOnce) ->
        ev_category (pe_event p) = "malicious")
  /\ pendingEvents
       (run (call_markEventAsHandled (sample.loginFail 6) 2000)
          sample.handledOnce)
     = [sample.loginFail 6]
  /\ pending (run (call_checkEscalations 5000) sample.handledOnce) = [].
Proof.
  split; [exact reachable_handledOnce|].
  destruct (pending_queue_invariant sample.handledOnce reachable_handledOnce)
    as [Hinv [_ [Hmark [Hsweep _]]]].
  split; [intros p Hin; now destruct (Hinv p Hin)|].
  split; [rewrite Hmark | rewrite Hsweep]; reflexivity.
Defined.

(** C2, the counterexample. After [addEvent] and [markEventAsHandled] the
    model is reachable, the event has been published as handled, and its
    entry is still in the pending queue, with [handled] set. *)
Lemma handled_entry_stays_pending :
  reachable sample.handledOnce
  /\ pending sample.handledOnce
     = [ {| pe_event := sample.loginFail 6; pe_timestamp := 0;
            pe_handled := true |} ]
  /\ In (event_handled (sample.loginFail 6)) (published sample.handledOnce)
  /\ countTopic "events:escalated" (published sample.handledOnce) = 0%nat.
Proof.
  split; [exact reachable_handledOnce|].
  split; [reflexivity|].
  split; [|reflexivity].
  vm_compute. do 3 right. left. reflexivity.
Qed.

(** ** Escalation impact *)

Lemma countTopic_app (t : string) (l l' : list Publication) :
  countTopic t (l ++ l') = (countTopic t l + countTopic t l')%nat.
Proof. unfold countTopic. now rewrite filter_app, length_app. Qed.

Lemma countTopic_saveNotice (t : string) (st : Storage) :
  t <> "notification:error" -> countTopic t (saveNotice st) = 0%nat.
Proof.
  intros Ht. unfold saveNotice. destruct (writable st); [reflexivity|].
  unfold countTopic. cbn [List.filter topic]. apply String.eqb_neq in Ht.
  now rewrite String.eqb_sym, Ht.
Qed.

Lemma countTopic_impactNotices (event : Event) (u : Q) :
  countTopic "uptime:updated" (impactNotices event u) = 1%nat.
Proof. unfold impactNotices. now destruct (Qle_bool u 0). Qed.

(** The handler publishes one [uptime:updated] for each event it is given,
    and returns. *)
Lemma handleEscalatedEvents_published (es : list Event) (m : Model) :
  exists l,
    published (final (escalationsController.handleEscalatedEvents es m))
    = published m ++ l
    /\ countTopic "uptime:updated" l = List.length es
    /\ result (escalationsController.handleEscalatedEvents es m) = Some tt.
Proof.
  revert m. induction es as [|e es IH]; intros m.
  - exists []. cbn. now rewrite app_nil_r.
  - unfold escalationsController.handleEscalatedEvents. cbn [forEach].
    fold (escalationsController.handleEscalatedEvents es).
    cbv [bind eventBus.publish modify].
    rewrite applyEscalationImpact_run. cbv zeta.
    match goal with
    | |- context [escalationsController.handleEscalatedEvents es ?m1] =>
        destruct (IH m1) as [l [Hl [Hc Hr]]]; rewrite Hl, Hr
    end.
    cbn [published set_published].
    eexists. split; [rewrite <- !app_assoc; reflexivity|].
    split; [|reflexivity].
    rewrite !countTopic_app, countTopic_impactNotices, Hc.
    rewrite countTopic_saveNotice by discriminate. reflexivity.
Qed.

(** C10. For an escalated event the uptime penalty is its severity times
    two, times 1.5 for a traffic spike and times 2 for a service failure;
    [applyEscalationImpact] subtracts it from the uptime and clamps the
    result at 0; it publishes [uptime:updated] exactly once, and the handler
    of [events:escalated] once per event of the list; a traffic spike is
    never a data breach, an unauthorized access and an SQL injection always
    are, with twice the financial impact; and [game:over] is published when
    the uptime has reached 0, and not while it is above. *)
Theorem escalation_impact (event : Event) (m : Model) :
  let damage := escalationsController.calculateSimulatedDamage event in
  exists m',
    escalationsController.applyEscalationImpact event m = Returned tt m'
    /\ uptimeImpact damage = uptimePenalty event
    /\ uptime (state m')
       = JS.Math_max 0 (uptime (state m) - uptimePenalty event)%Q
    /\ (0 <= uptime (state m'))%Q
    /\ publishedSince m m'
       = impactNotices event (uptime (state m'))
         ++ saveNotice (localStorage m)
    /\ countTopic "uptime:updated" (publishedSince m m') = 1%nat
    /\ ((uptime (state m') == 0)%Q ->
        In (game_over "network_down" event) (publishedSince m m'))
    /\ ((0 < uptime (state m'))%Q ->
        countTopic "game:over" (publishedSince m m') = 0%nat)
    /\ (ev_type event = "traffic_spike" -> dataBreach damage = false)
    /\ (ev_type event = "unauthorized_access"
        \/ ev_type event = "sql_injection" ->
        dataBreach damage = true
        /\ financialImpact damage = ev_severity event * 1000 * 2)
    /\ (forall es,
          countTopic "uptime:updated"
            (publishedSince m
               (final (escalationsController.handleEscalatedEvents es m)))
          = List.length es).
Proof.
  intros damage. rewrite applyEscalationImpact_run. cbv zeta.
  eexists. split; [reflexivity|].
  cbn [state uptime set_uptime].
  split; [apply uptimeImpact_penalty|].
  split; [reflexivity|].
  split; [apply Math_max_0_nonneg|].
  match goal with
  | |- context [publishedSince m ?m1] =>
      assert (Hpub : publishedSince m m1 =
                impactNotices event
                  (JS.Math_max 0 (uptime (state m) - uptimePenalty event))
                ++ saveNotice (localStorage m))
        by (apply publishedSince_app; cbn [published];
            now rewrite <- app_assoc);
      rewrite Hpub
  end.
  split; [reflexivity|].
  split.
  { rewrite countTopic_app, countTopic_impactNotices.
    now rewrite countTopic_saveNotice by discriminate. }
  split.
  { intros Hz. apply in_or_app. left. unfold impactNotices.
    assert (Hle : Qle_bool
                    (JS.Math_max 0 (uptime (state m) - uptimePenalty event)) 0
                  = true).
    { apply Qle_bool_iff. rewrite Hz. apply Qle_refl. }
    rewrite Hle. right. now left. }
  split.
  { intros Hpos. rewrite countTopic_app.
    rewrite countTopic_saveNotice by discriminate.
    unfold impactNotices.
    assert (Hle : Qle_bool
                    (JS.Math_max 0 (uptime (state m) - uptimePenalty event)) 0
                  = false).
    { apply not_true_is_false. intros H. apply Qle_bool_iff in H. lra. }
    now rewrite Hle. }
  split.
  { intros Hty. subst damage.
    unfold escalationsController.calculateSimulatedDamage.
    now rewrite Hty. }
  split.
  { intros Hty. subst damage.
    unfold escalationsController.calculateSimulatedDamage.
    destruct Hty as [Hty|Hty]; rewrite Hty; split; reflexivity. }
  intros es.
  destruct (handleEscalatedEvents_published es m) as [l [Hl [Hc _]]].
  now rewrite (publishedSince_app _ _ _ Hl).
Qed.

(** A traffic spike of severity 5 costs 15 points of uptime and is no data
    breach; a third service failure of severity 8 takes an uptime of 24 to 0
    and ends the game. *)
Lemma escalation_impact_witness :
  (exists m',
      escalationsController.applyEscalationImpact sample.trafficSpike
        sample.started = Returned tt m'
      /\ (uptime (state m') == 85)%Q
      /\ dataBreach
           (escalationsController.calculateSimulatedDamage sample.trafficSpike)
         = false)
  /\ (exists m',
         escalationsController.applyEscalationImpact sample.serviceFailure
           sample.degraded = Returned tt m'
         /\ (uptime (state sample.degraded) == 24)%Q
         /\ (uptime (state m') == 0)%Q
         /\ In (game_over "network_down" sample.serviceFailure)
              (publishedSince sample.degraded m')).
Proof.
  split.
  - destruct (escalation_impact sample.trafficSpike sample.started)
      as [m' [Hrun [_ [Hu [_ [_ [_ [_ [_ [Hspike _]]]]]]]]]].
    exists m'. split; [exact Hrun|].
    split; [rewrite Hu; vm_compute; reflexivity|].
    apply Hspike. reflexivity.
  - destruct (escalation_impact sample.serviceFailure sample.degraded)
      as [m' [Hrun [_ [Hu [_ [_ [_ [Hover _]]]]]]]].
    assert (Hz : (uptime (state m') == 0)%Q)
      by (rewrite Hu; vm_compute; reflexivity).
    exists m'. split; [exact Hrun|].
    split; [vm_compute; reflexivity|].
    split; [exact Hz | exact (Hover Hz)].
Defined.

(** The scenario of the specification, with the escalation timer: a
    malicious event of severity 3 enqueued at 0 is still pending after the
    sweep at 44999; the sweep at 45000 escalates it, uptime goes from 100 to
    94 and [uptime:updated] is published once. *)
Example escalation_scenario :
  let m1 := final (gameController.escalationTick 44999 sample.queued) in
  let m2 := final (gameController.escalationTick 45000 m1) in
  pending m1 = pending sample.queued
  /\ published m1 = published sample.queued
  /\ pending m2 = []
  /\ (uptime (state m1) == 100)%Q
  /\ (uptime (state m2) == 94)%Q
  /\ List.map topic (publishedSince m1 m2)
     = ["events:escalated"; "escalation:started"; "uptime:updated"].
Proof. vm_compute. repeat split. Qed.

(** ** Template choice *)

Lemma weighted_factor (levelSettings : Level) (template : Template) :
  eventGenerator.weighted levelSettings template
  = (template, (likelihood template * scalingFactor levelSettings template)%Q).
Proof.
  unfold eventGenerator.weighted, scalingFactor,
    eventGenerator.scalingFrequency, JS.or_default.
  destruct (tpl_isNoise template); [reflexivity|].
  destruct (level_scaling template) as [[[f|]]|]; try reflexivity.
  cbn [frequency]. destruct (Qeq_bool f 0); reflexivity.
Qed.

(** The walk returns the first template whose running sum reaches the
    draw. *)
Lemma selectFrom_reached (levelSettings : Level) (randomNum : Q)
    (l : list Template) (acc : Q) (i : nat) (t : Template) :
  List.nth_error l i = Some t ->
  (randomNum <= cumulativeFrom acc (weights l levelSettings) (S i))%Q ->
  (forall j, (j < i)%nat ->
     ~ (randomNum <= cumulativeFrom acc (weights l levelSettings) (S j))%Q) ->
  eventGenerator.selectFrom (List.map (eventGenerator.weighted levelSettings) l)
    randomNum acc = Some t.
Proof.
  revert acc i. induction l as [|t0 l IH]; intros acc i Hnth Hle Hbefore.
  - destruct i; discriminate.
  - cbn [List.map eventGenerator.selectFrom].
    destruct i as [|i].
    + injection Hnth as ->.
      unfold cumulativeFrom, weights in Hle.
      cbn [List.map List.firstn List.fold_left] in Hle.
      apply Qle_bool_iff in Hle. rewrite Hle.
      now rewrite weighted_factor.
    + assert (H0 : Qle_bool randomNum
                     (acc + snd (eventGenerator.weighted levelSettings t0))
                   = false).
      { apply not_true_is_false. intros H. apply Qle_bool_iff in H.
        apply (Hbefore 0%nat); [lia | exact H]. }
      rewrite H0. apply (IH _ i); [exact Hnth | exact Hle |].
      intros j Hj. apply (Hbefore (S j)). lia.
Qed.

Lemma selectFrom_unreached (levelSettings : Level) (randomNum : Q)
    (l : list Template) (acc : Q) :
  (forall j, (j < List.length l)%nat ->
     ~ (randomNum <= cumulativeFrom acc (weights l levelSettings) (S j))%Q) ->
  eventGenerator.selectFrom (List.map (eventGenerator.weighted levelSettings) l)
    randomNum acc = None.
Proof.
  revert acc. induction l as [|t0 l IH]; intros acc Hnone; [reflexivity|].
  cbn [List.map eventGenerator.selectFrom].
  assert (H0 : Qle_bool randomNum
                 (acc + snd (eventGenerator.weighted levelSettings t0))
               = false).
  { apply not_true_is_false. intros H. apply Qle_bool_iff in H.
    apply (Hnone 0%nat); [cbn; lia | exact H]. }
  rewrite H0. apply IH. intros j Hj. apply (Hnone (S j)). cbn. lia.
Qed.

Lemma totalWeight_cumulative (levelSettings : Level) (l : list Template)
    (acc : Q) :
  List.fold_left (fun sum wt => (sum + snd wt)%Q)
    (List.map (eventGenerator.weighted levelSettings) l) acc
  = cumulativeFrom acc (weights l levelSettings)
      (List.length (weights l levelSettings)).
Proof.
  unfold cumulativeFrom. rewrite firstn_all. unfold weights.
  revert acc. induction l as [|t l IH]; intros acc; [reflexivity|].
  cbn [List.map List.fold_left]. apply IH.
Qed.

(** C9, as the code behaves. Each template weighs its likelihood times a
    scaling factor: for a noise template the level's noise probability, or 1
    when that probability is zero; otherwise the level's frequency
    multiplier, times the template's scaling frequency when one is declared
    and is not zero. The draw is [random] times the total weight, in
    [0, total) for a draw of [Math.random] and a positive total; the
    template returned is the first at which the running sum of the weights
    is at least the draw, and the first template of the catalog when the
    walk reaches none. *)
Theorem chooseEventTemplate_selection
    (possibleEvents : list Template) (levelSettings : Level) (random : Q) :
  let ws := weights possibleEvents levelSettings in
  let totalWeight := cumulative ws (List.length ws) in
  let randomNum := (random * totalWeight)%Q in
  let chosen :=
    eventGenerator.chooseEventTemplate possibleEvents levelSettings random in
  (forall template,
      eventGenerator.weighted levelSettings template
      = (template,
         (likelihood template * scalingFactor levelSettings template)%Q))
  /\ ((0 <= random)%Q -> (random < 1)%Q -> (0 < totalWeight)%Q ->
      (0 <= randomNum)%Q /\ (randomNum < totalWeight)%Q)
  /\ (forall i template,
        List.nth_error possibleEvents i = Some template ->
        (randomNum <= cumulative ws (S i))%Q ->
        (forall j, (j < i)%nat -> ~ (randomNum <= cumulative ws (S j))%Q) ->
        chosen = Some template)
  /\ ((forall j, (j < List.length possibleEvents)%nat ->
         ~ (randomNum <= cumulative ws (S j))%Q) ->
      chosen = List.nth_error possibleEvents 0).
Proof.
  intros ws totalWeight randomNum chosen.
  assert (Htotal :
    List.fold_left (fun sum wt => (sum + snd wt)%Q)
      (List.map (eventGenerator.weighted levelSettings) possibleEvents) 0%Q
    = totalWeight) by apply totalWeight_cumulative.
  split; [apply weighted_factor|].
  split.
  { intros H0 H1 Ht. subst randomNum. split; nra. }
  split.
  - intros i template Hnth Hle Hbefore. subst chosen.
    unfold eventGenerator.chooseEventTemplate. rewrite Htotal.
    fold randomNum.
    now rewrite (selectFrom_reached levelSettings randomNum possibleEvents
                   0%Q i template).
  - intros Hnone. subst chosen.
    unfold eventGenerator.chooseEventTemplate. rewrite Htotal.
    fold randomNum.
    now rewrite (selectFrom_unreached levelSettings randomNum possibleEvents
                   0%Q).
Qed.

(** At level 1 the draw 0.5 falls on 0.229 of a total weight of 0.458; the
    running sums pass it at the eighth template, the SQL injection, whose
    weight is its likelihood 0.04 times the frequency multiplier 0.5. *)
Lemma chooseEventTemplate_selection_witness :
  List.nth_error threats.possibleEvents 7 = Some sample.sqlInjection
  /\ eventGenerator.chooseEventTemplate threats.possibleEvents
       sample.firstLevel (1 # 2) = Some sample.sqlInjection
  /\ snd (eventGenerator.weighted sample.firstLevel sample.sqlInjection)
     = (0.04 * 0.5)%Q.
Proof.
  split; [reflexivity|].
  destruct (chooseEventTemplate_selection threats.possibleEvents
              sample.firstLevel (1 # 2)) as [Hw [_ [Hsel _]]].
  split.
  - apply (Hsel 7%nat); [reflexivity | vm_compute; discriminate |].
    intros j Hj.
    do 7 (destruct j as [|j];
          [vm_compute; intros H; apply H; reflexivity|]).
    lia.
  - now rewrite Hw.
Defined.

(** C9, the counterexample. At a level whose noise probability is 0 a
    noise template of likelihood 0.3 weighs 0.3, not 0.3 x 0; and a template
    of likelihood 0.06 that declares the scaling frequency 0 weighs
    0.06 x 0.5 = 0.03 at frequency multiplier 0.5, not 0.06 x (0.5 x 0). *)
Lemma weight_ignores_zero_factor :
  ~ (snd (eventGenerator.weighted sample.quietLevel sample.normalActivity)
     == likelihood sample.normalActivity
        * scalingFactor_spec sample.quietLevel sample.normalActivity)%Q
  /\ (snd (eventGenerator.weighted sample.quietLevel sample.normalActivity)
      == 0.3)%Q
  /\ ~ (snd (eventGenerator.weighted sample.quietLevel sample.unscaled)
        == likelihood sample.unscaled
           * scalingFactor_spec sample.quietLevel sample.unscaled)%Q
  /\ (snd (eventGenerator.weighted sample.quietLevel sample.unscaled)
      == 0.03)%Q.
Proof.
  split; [intros H; vm_compute in H; discriminate|].
  split; [vm_compute; reflexivity|].
  split; [intros H; vm_compute in H; discriminate|].
  vm_compute; reflexivity.
Qed.

(** * Further properties *)

(** ** The bus *)

Section BusProperties.

Variable Callback : Type.
Variable same : Callback -> Callback -> bool.
Hypothesis same_identity : forall a b, same a b = true <-> a = b.

Lemma publish_assign (name eventName : string) (cs : list Callback)
    (events : eventBusObject.Events Callback) :
  eventBusObject.publish name (eventBusObject.assign eventName cs events)
  = if String.eqb name eventName then cs
    else eventBusObject.publish name events.
Proof.
  unfold eventBusObject.publish, eventBusObject.assign.
  now destruct (String.eqb name eventName).
Qed.

(** X1. [publish] calls the callbacks of an event in the order they were
    subscribed, a new subscription going last; subscribing to one event
    does not change what is called for another; and publishing an event
    nobody subscribed to calls nothing. *)
Theorem publish_subscription_order
    (eventName : string) (callback : Callback)
    (events : eventBusObject.Events Callback) :
  eventBusObject.publish eventName
    (eventBusObject.subscribe eventName callback events)
  = eventBusObject.publish eventName events ++ [callback]
  /\ (forall other, other <> eventName ->
        eventBusObject.publish other
          (eventBusObject.subscribe eventName callback events)
        = eventBusObject.publish other events)
  /\ (events eventName = None ->
      eventBusObject.publish eventName events = [])
  /\ (forall callback',
        eventBusObject.publish eventName
          (eventBusObject.subscribe eventName callback'
             (eventBusObject.subscribe eventName callback events))
        = eventBusObject.publish eventName events ++ [callback; callback']).
Proof.
  assert (Hone : forall (cb : Callback) (ev : eventBusObject.Events Callback),
            eventBusObject.publish eventName
              (eventBusObject.subscribe eventName cb ev)
            = eventBusObject.publish eventName ev ++ [cb]).
  { intros cb ev. unfold eventBusObject.subscribe.
    rewrite publish_assign, String.eqb_refl.
    unfold eventBusObject.publish. reflexivity. }
  split; [apply Hone|]. split; [|split].
  - intros other Hne. unfold eventBusObject.subscribe.
    rewrite publish_assign. apply String.eqb_neq in Hne. now rewrite Hne.
  - intros Hnone. unfold eventBusObject.publish. now rewrite Hnone.
  - intros callback'. rewrite !Hone, <- app_assoc. reflexivity.
Qed.

Lemma filter_absent (callback : Callback) (l : list Callback) :
  ~ In callback l ->
  List.filter (fun c => negb (same c callback)) l = l.
Proof.
  induction l as [|c l IH]; intros Hnot; [reflexivity|].
  cbn [List.filter].
  destruct (same c callback) eqn:Hs.
  - apply same_identity in Hs. subst c. exfalso. apply Hnot. now left.
  - cbn [negb]. rewrite IH; [reflexivity|].
    intros Hin. apply Hnot. now right.
Qed.

(** X2. The function [subscribe] returns removes the callback from its
    event: afterwards the callback is not called for the event any more.
    It removes every registration of that callback for the event, the
    earlier ones as well as the one it was returned for, keeps the other
    callbacks in their order and leaves the other events alone. *)
Theorem unsubscribe_removes_every_registration
    (eventName : string) (callback : Callback)
    (events : eventBusObject.Events Callback) :
  exists events',
    eventBusObject.unsubscribe same eventName callback
      (eventBusObject.subscribe eventName callback events) = Some events'
    /\ eventBusObject.publish eventName events'
       = List.filter (fun c => negb (same c callback))
           (eventBusObject.publish eventName events)
    /\ ~ In callback (eventBusObject.publish eventName events')
    /\ (~ In callback (eventBusObject.publish eventName events) ->
        eventBusObject.publish eventName events'
        = eventBusObject.publish eventName events)
    /\ (forall name, name <> eventName ->
          eventBusObject.publish name events'
          = eventBusObject.publish name events).
Proof.
  unfold eventBusObject.unsubscribe, eventBusObject.subscribe.
  unfold eventBusObject.assign at 1. rewrite String.eqb_refl.
  eexists. split; [reflexivity|].
  assert (Hpub :
    eventBusObject.publish eventName
      (eventBusObject.assign eventName
         (List.filter (fun c => negb (same c callback))
            (match events eventName with
             | Some callbacks => callbacks
             | None => []
             end ++ [callback]))
         (eventBusObject.assign eventName
            (match events eventName with
             | Some callbacks => callbacks
             | None => []
             end ++ [callback]) events))
    = List.filter (fun c => negb (same c callback))
        (eventBusObject.publish eventName events)).
  { rewrite publish_assign, String.eqb_refl, filter_app.
    cbn [List.filter].
    assert (Hs : same callback callback = true) by now apply same_identity.
    rewrite Hs. cbn [negb]. now rewrite app_nil_r. }
  rewrite Hpub.
  split; [reflexivity|]. split; [|split].
  - intros Hin. apply filter_In in Hin. destruct Hin as [_ Hs].
    assert (Hs' : same callback callback = true) by now apply same_identity.
    rewrite Hs' in Hs. discriminate.
  - apply filter_absent.
  - intros name Hne. rewrite !publish_assign.
    apply String.eqb_neq in Hne. now rewrite Hne.
Qed.

(** X3. After [reset] publishing any event calls nothing. An unsubscribe
    function from before the [reset] then throws, its event having no
    array any more, unless somebody has subscribed to that event again. *)
Theorem reset_drops_every_subscription
    (events : eventBusObject.Events Callback) :
  (forall eventName,
      eventBusObject.publish eventName (eventBusObject.reset events) = [])
  /\ (forall eventName callback,
        eventBusObject.unsubscribe same eventName callback
          (eventBusObject.reset events) = None)
  /\ (forall eventName callback callback',
        eventBusObject.unsubscribe same eventName callback
          (eventBusObject.subscribe eventName callback'
             (eventBusObject.reset events)) <> None).
Proof.
  split; [reflexivity|]. split; [reflexivity|].
  intros eventName callback callback'.
  unfold eventBusObject.unsubscribe, eventBusObject.subscribe.
  unfold eventBusObject.assign at 1. rewrite String.eqb_refl. discriminate.
Qed.

End BusProperties.

(** The bus of one function, subscribed twice: the unsubscribe function of
    the second subscription removes both. *)
Lemma unsubscribe_removes_every_registration_witness :
  (forall a b : string, String.eqb a b = true <-> a = b)
  /\ exists events',
       eventBusObject.unsubscribe String.eqb "event:added" "handler"
         (eventBusObject.subscribe "event:added" "handler"
            (eventBusObject.subscribe "event:added" "handler"
               (eventBusObject.reset (fun _ => None))))
       = Some events'
       /\ eventBusObject.publish "event:added" events' = [].
Proof.
  split; [exact String.eqb_eq|].
  destruct (unsubscribe_removes_every_registration string String.eqb
              String.eqb_eq "event:added" "handler"
              (eventBusObject.subscribe "event:added" "handler"
                 (eventBusObject.reset (fun _ => None))))
    as [events' [Hrun [Hpub _]]].
  exists events'. split; [exact Hrun|]. rewrite Hpub. reflexivity.
Defined.

(** X4. [gameController.resetGame] resets the bus and subscribes the
    controller again, and only the controller. The rule engine and the
    escalations controller, which subscribed in their [init], are not
    subscribed any more: after a game reset [event:added] and
    [events:escalated] reach no handler, so no rule is applied to a new
    event and no escalation lowers the uptime, while the seven events of
    the interface are handled as before. *)
Theorem resetGame_loses_core_subscribers
    (events : eventBusObject.Events string) :
  let before :=
    subscriptions.setupEventSubscriptions
      (subscriptions.ruleEngine_init
         (subscriptions.escalationsController_init events)) in
  let after := subscriptions.afterResetGame before in
  In "ruleEngine.handleNewEvent" (eventBusObject.publish "event:added" before)
  /\ In "escalationsController.handleEscalatedEvents"
       (eventBusObject.publish "events:escalated" before)
  /\ eventBusObject.publish "event:added" after = []
  /\ eventBusObject.publish "events:escalated" after = []
  /\ eventBusObject.publish "ui:startGame" after
     = ["gameController.startSimulation"]
  /\ (forall eventName,
        ~ In eventName
            ["ui:startGame"; "ui:pauseGame"; "ui:resetGame"; "ui:testRule";
             "ui:saveRule"; "ui:handleEvent"; "request:gameState"] ->
        eventBusObject.publish eventName after = []).
Proof.
  intros before after.
  split.
  { subst before. unfold subscriptions.setupEventSubscriptions,
      subscriptions.ruleEngine_init, subscriptions.escalationsController_init,
      eventBusObject.subscribe, eventBusObject.publish, eventBusObject.assign.
    cbn. apply in_or_app. right. now left. }
  split.
  { subst before. unfold subscriptions.setupEventSubscriptions,
      subscriptions.ruleEngine_init, subscriptions.escalationsController_init,
      eventBusObject.subscribe, eventBusObject.publish, eventBusObject.assign.
    cbn. apply in_or_app. right. now left. }
  split; [reflexivity|]. split; [reflexivity|]. split; [reflexivity|].
  intros eventName Hnot. subst after.
  unfold subscriptions.afterResetGame, subscriptions.setupEventSubscriptions,
    eventBusObject.subscribe, eventBusObject.publish, eventBusObject.assign,
    eventBusObject.reset.
  repeat match goal with
         | |- context [String.eqb eventName ?lit] =>
             destruct (String.eqb_spec eventName lit);
               [exfalso; apply Hnot; subst eventName; cbn; auto 10|]
         end.
  reflexivity.
Qed.

(** ** Validation *)

Lemma after_spec (w s r : list ascii) : JS.after w s = Some r <-> s = w ++ r.
Proof.
  revert s. induction w as [|c w IH]; intros s; cbn [JS.after app].
  - split; congruence.
  - destruct s as [|d s]; [split; discriminate|].
    destruct (Ascii.eqb_spec c d) as [->|Hne].
    + rewrite IH. split; congruence.
    + split; [discriminate | congruence].
Qed.

Lemma afterOneOf_some (chars : list (list ascii)) (s r : list ascii) :
  JS.afterOneOf chars s = Some r -> exists w, In w chars /\ s = w ++ r.
Proof.
  induction chars as [|w chars IH]; cbn [JS.afterOneOf]; [discriminate|].
  destruct (JS.after w s) as [r'|] eqn:Hw.
  - intros [= <-]. exists w. split; [now left | now apply after_spec].
  - intros H. destruct (IH H) as [w' [Hin Hs]]. exists w'. split; auto.
    now right.
Qed.

Lemma afterOneOf_none (chars : list (list ascii)) (s : list ascii) :
  JS.afterOneOf chars s = None ->
  forall w r, In w chars -> s <> w ++ r.
Proof.
  induction chars as [|w chars IH]; cbn [JS.afterOneOf]; [contradiction|].
  destruct (JS.after w s) as [r'|] eqn:Hw; [discriminate|].
  intros H w' r [<-|Hin] Hs.
  - apply after_spec in Hs. congruence.
  - exact (IH H w' r Hin Hs).
Qed.

Lemma sequenceOf_app (chars : list (list ascii)) (s t : list ascii) :
  sequenceOf chars s -> sequenceOf chars t -> sequenceOf chars (s ++ t).
Proof.
  intros [l [Hl ->]] [k [Hk ->]]. exists (l ++ k).
  split; [now apply Forall_app | now rewrite concat_app].
Qed.

(** What [strip] removes is a sequence of the characters. *)
Lemma strip_decompose (chars : list (list ascii)) (n : nat)
    (s : list ascii) :
  exists t, sequenceOf chars t /\ s = t ++ JS.strip chars n s.
Proof.
  revert s. induction n as [|n IH]; intros s; cbn [JS.strip].
  - exists []. split; [now exists [] | reflexivity].
  - destruct (JS.afterOneOf chars s) as [r|] eqn:Hr.
    + destruct (afterOneOf_some _ _ _ Hr) as [w [Hin ->]].
      destruct (IH r) as [t [Ht Hrt]]. exists (w ++ t). split.
      * apply sequenceOf_app; [|exact Ht]. exists [w].
        split; [now constructor | cbn; now rewrite app_nil_r].
      * rewrite <- app_assoc. now rewrite <- Hrt.
    + exists []. split; [now exists [] | reflexivity].
Qed.

Section Code.

Variable chars : list (list ascii).

(** No character is empty and none begins another. *)
Hypothesis nonempty : forall w, In w chars -> w <> [].
Hypothesis prefix_free :
  forall w w' t, In w chars -> In w' chars -> w' = w ++ t -> t = [].

Lemma afterOneOf_char (w r : list ascii) :
  In w chars -> JS.afterOneOf chars (w ++ r) = Some r.
Proof.
  intros Hin. destruct (JS.afterOneOf chars (w ++ r)) as [r'|] eqn:Hr.
  - destruct (afterOneOf_some _ _ _ Hr) as [w0 [Hin0 Heq]].
    apply app_eq_app in Heq. destruct Heq as [l [[Hw Hr']|[Hw Hr']]].
    + assert (l = []) by (eapply (prefix_free w0 w); eauto).
      subst l. cbn in Hr'. now subst.
    + assert (l = []) by (eapply (prefix_free w w0); eauto).
      subst l. cbn in Hr'. now subst.
  - exfalso. exact (afterOneOf_none _ _ Hr w r Hin eq_refl).
Qed.

(** [strip] removes all of a sequence of the characters. *)
Lemma strip_sequence (l : list (list ascii)) (n : nat) :
  Forall (fun w => In w chars) l ->
  (List.length (List.concat l) <= n)%nat ->
  JS.strip chars n (List.concat l) = [].
Proof.
  revert n. induction l as [|w l IH]; intros n Hl Hn.
  - destruct n; [reflexivity|]. cbn [JS.strip List.concat].
    destruct (JS.afterOneOf chars []) as [r|] eqn:Hr; [|reflexivity].
    destruct (afterOneOf_some _ _ _ Hr) as [w [Hw Heq]].
    symmetry in Heq. apply app_eq_nil in Heq. destruct Heq as [-> _].
    now apply nonempty in Hw.
  - inversion Hl as [|w' l' Hw Hl']. subst.
    cbn [List.concat] in *. rewrite length_app in Hn.
    assert (Hlen : (0 < List.length w)%nat).
    { specialize (nonempty w Hw). destruct w; [congruence | cbn; lia]. }
    destruct n as [|n]; [lia|]. cbn [JS.strip].
    rewrite (afterOneOf_char w _ Hw). apply IH; [assumption | lia].
Qed.

End Code.

Lemma isCode_spec (chars : list (list ascii)) :
  isCode chars = true ->
  (forall w, In w chars -> w <> [])
  /\ (forall w w' t, In w chars -> In w' chars -> w' = w ++ t -> t = []).
Proof.
  unfold isCode. rewrite forallb_forall. intros H. split.
  - intros w Hw ->. specialize (H [] Hw). discriminate.
  - intros w w' t Hw Hw' Heq. specialize (H w Hw).
    destruct w as [|c w]; [discriminate|].
    rewrite forallb_forall in H. specialize (H w' Hw').
    apply after_spec in Heq. rewrite Heq in H.
    destruct t; [reflexivity | discriminate].
Qed.

Lemma length_chars (s : string) :
  List.length (list_ascii_of_string s) = String.length s.
Proof. induction s as [|c s IH]; cbn; congruence. Qed.

Lemma rev_concat {A : Type} (l : list (list A)) :
  List.rev (List.concat l) = List.concat (List.map (@List.rev A) (List.rev l)).
Proof.
  induction l as [|x l IH]; [reflexivity|].
  cbn [List.concat List.rev]. rewrite rev_app_distr, IH, map_app, concat_app.
  cbn. now rewrite app_nil_r.
Qed.

Lemma blank_sequence (s : string) :
  blank s <->
  sequenceOf (List.map JS.utf8 JS.whiteSpace) (list_ascii_of_string s).
Proof.
  unfold blank, sequenceOf. split.
  - intros [cs [Hcs Hs]]. exists (List.map JS.utf8 cs). split; [|exact Hs].
    apply Forall_map. eapply Forall_impl; [|exact Hcs].
    intros c Hc. now apply in_map.
  - intros [l [Hl Hs]].
    assert (Hcs : exists cs,
              Forall (fun c => In c JS.whiteSpace) cs
              /\ l = List.map JS.utf8 cs).
    { clear Hs. induction Hl as [|w l Hw Hl IH].
      - now exists [].
      - destruct IH as [cs [Hcs ->]].
        apply in_map_iff in Hw. destruct Hw as [c [<- Hc]].
        exists (c :: cs). split; [now constructor | reflexivity]. }
    destruct Hcs as [cs [Hcs ->]]. now exists cs.
Qed.

Lemma string_of_chars_empty (l : list ascii) :
  string_of_list_ascii l = "" -> l = [].
Proof. destruct l; [reflexivity | discriminate]. Qed.

(** [trim] leaves nothing exactly of the texts made of white space. *)
Lemma trim_blank (s : string) : JS.trim s = "" <-> blank s.
Proof.
  rewrite blank_sequence.
  destruct (isCode_spec (List.map JS.utf8 JS.whiteSpace) eq_refl)
    as [Hne Hpf].
  split.
  - intros Htrim. unfold JS.trim, JS.trimEnd, JS.reverse in Htrim.
    apply string_of_chars_empty in Htrim.
    apply (f_equal (@List.rev ascii)) in Htrim.
    rewrite rev_involutive in Htrim. cbn [List.rev] in Htrim.
    rewrite list_ascii_of_string_of_list_ascii in Htrim.
    rewrite list_ascii_of_string_of_list_ascii in Htrim.
    set (t := JS.trimStart s) in *.
    destruct (strip_decompose
                (List.map (fun c => List.rev (JS.utf8 c)) JS.whiteSpace)
                (String.length t) (List.rev (list_ascii_of_string t)))
      as [r [[l [Hl ->]] Hr]].
    rewrite Htrim, app_nil_r in Hr.
    apply (f_equal (@List.rev ascii)) in Hr.
    rewrite rev_involutive, rev_concat in Hr.
    assert (Ht : sequenceOf (List.map JS.utf8 JS.whiteSpace)
                   (list_ascii_of_string t)).
    { rewrite Hr. eexists. split; [|reflexivity].
      apply Forall_map, Forall_rev. eapply Forall_impl; [|exact Hl].
      intros w Hw. apply in_map_iff in Hw. destruct Hw as [c [<- Hc]].
      rewrite rev_involutive. now apply in_map. }
    destruct (strip_decompose (List.map JS.utf8 JS.whiteSpace)
                (String.length s) (list_ascii_of_string s))
      as [r' [Hr' Hs]].
    rewrite Hs. apply sequenceOf_app; [exact Hr'|].
    unfold t, JS.trimStart in Ht.
    now rewrite list_ascii_of_string_of_list_ascii in Ht.
  - intros [l [Hl Hs]].
    assert (Hstart : JS.trimStart s = "").
    { unfold JS.trimStart. rewrite Hs.
      rewrite (strip_sequence _ Hne Hpf l); [reflexivity | exact Hl|].
      rewrite <- Hs, length_chars. lia. }
    unfold JS.trim. now rewrite Hstart.
Qed.

Lemma trim_visible (s : string) : JS.trim s <> "" <-> hasVisible s.
Proof. unfold hasVisible. now rewrite trim_blank. Qed.

Lemma hasVisible_nonempty (s : string) : hasVisible s -> s <> "".
Proof. intros Hv ->. apply Hv. now exists []. Qed.

Lemma text_parameter (p : option string) :
  (JS.truthy p && (0 <? ruleEngine.trimmedLength p))%bool = true
  <-> exists s, p = Some s /\ hasVisible s.
Proof.
  destruct p as [s|]; cbn [JS.truthy ruleEngine.trimmedLength].
  - rewrite andb_true_iff, Z.ltb_lt. split.
    + intros [_ Hlen]. exists s. split; [reflexivity|].
      apply trim_visible. intros He. rewrite He in Hlen.
      cbn in Hlen. lia.
    + intros [s' [Hs Hv]]. injection Hs as <-. split.
      * destruct s as [|c s]; [|reflexivity].
        now apply hasVisible_nonempty in Hv.
      * apply trim_visible in Hv.
        destruct (JS.trim s) as [|c t]; [contradiction|].
        cbn [String.length]. lia.
  - split; [discriminate | intros [s [H _]]; discriminate].
Qed.

Lemma number_parameter (p : option string) :
  (JS.truthy p && negb (JS.isNaN (JS.parseInt p)))%bool = true
  <-> exists s t, p = Some s /\ s <> "" /\ JS.parseInt_string s = Some t.
Proof.
  destruct p as [s|]; cbn [JS.truthy JS.parseInt].
  - rewrite andb_true_iff. split.
    + intros [Ht Hn]. destruct (JS.parseInt_string s) as [t|] eqn:Hp;
        [|discriminate].
      exists s, t. split; [reflexivity|]. split; [|exact Hp].
      intros ->. discriminate.
    + intros [s' [t [Hs [Hne Hp]]]]. injection Hs as <-.
      rewrite Hp. split; [|reflexivity].
      destruct s; [contradiction | reflexivity].
  - split; [discriminate | intros [s [t [H _]]]; discriminate].
Qed.

(** Reduces the [switch] of [validateRule] for a known condition type. *)
Ltac enter_validation Hct :=
  unfold ruleEngine.validateRule; rewrite Hct;
  simpl (String.eqb _ _); cbv beta iota; cbn [orb].

(** X5. What [validateRule] accepts. A rule passes only with one of the
    seven condition types. For a failed-login or traffic-spike rule it
    passes exactly when the threshold is a non-empty text of which
    [parseInt] makes a number; for an HTTP-error rule when moreover that
    number is between 100 and 599; for the four rules with a name or a
    keyword exactly when that text has a character other than white
    space. White space is what [trim] strips and [parseInt] skips: the
    WhiteSpace and LineTerminator characters of ECMAScript, the no-break
    space, the line separators and the byte order mark among them. *)
Theorem validateRule_accepts (rule : Rule) :
  (ruleEngine.validateRule (Some rule) = true ->
   In (conditionType rule) conditionTypes)
  /\ (conditionType rule = "login_fail" \/ conditionType rule = "traffic_spike"
      -> (ruleEngine.validateRule (Some rule) = true <->
          exists s t, threshold rule = Some s /\ s <> ""
                      /\ JS.parseInt_string s = Some t))
  /\ (conditionType rule = "http_error" ->
      (ruleEngine.validateRule (Some rule) = true <->
       exists s t, errorCodeThreshold rule = Some s /\ s <> ""
                   /\ JS.parseInt_string s = Some t /\ 100 <= t <= 599))
  /\ (conditionType rule = "process_spawn" ->
      (ruleEngine.validateRule (Some rule) = true <->
       exists s, processName rule = Some s /\ hasVisible s))
  /\ (conditionType rule = "dns_query" ->
      (ruleEngine.validateRule (Some rule) = true <->
       exists s, domainKeyword rule = Some s /\ hasVisible s))
  /\ (conditionType rule = "unauthorized_access" ->
      (ruleEngine.validateRule (Some rule) = true <->
       exists s, resourceKeyword rule = Some s /\ hasVisible s))
  /\ (conditionType rule = "service_failure" ->
      (ruleEngine.validateRule (Some rule) = true <->
       exists s, serviceName rule = Some s /\ hasVisible s)).
Proof.
  split.
  { unfold ruleEngine.validateRule, conditionTypes.
    destruct (String.eqb (conditionType rule) ""); [discriminate|].
    repeat match goal with
           | |- context [String.eqb (conditionType rule) ?lit] =>
               destruct (String.eqb_spec (conditionType rule) lit) as [->|]
           end; cbn [orb In]; intros H; auto 10; discriminate. }
  split.
  { intros [Hct|Hct]; enter_validation Hct; apply number_parameter. }
  split.
  { intros Hct. enter_validation Hct.
    destruct (errorCodeThreshold rule) as [s|];
      cbn [JS.truthy JS.parseInt andb].
    - split.
      + intros H. apply andb_prop in H. destruct H as [H H599].
        apply andb_prop in H. destruct H as [H H100].
        apply andb_prop in H. destruct H as [Ht Hn].
        destruct (JS.parseInt_string s) as [t|] eqn:Hp; [|discriminate].
        exists s, t. cbn in H100, H599.
        apply Z.leb_le in H100, H599.
        repeat split; try assumption. intros ->. discriminate.
      + intros [s' [t [Hs [Hne [Hp [H100 H599]]]]]]. injection Hs as <-.
        rewrite Hp. cbn.
        apply Z.leb_le in H100, H599. rewrite H100, H599.
        destruct s; [contradiction | reflexivity].
    - split; [discriminate | intros [s [t [H _]]]; discriminate]. }
  split; [|split; [|split]]; intros Hct; enter_validation Hct;
    apply text_parameter.
Qed.

(** The no-break space U+00A0 is white space: a process name made of it is
    refused, and the threshold made of it and the digit 5 is accepted. *)
Lemma validateRule_accepts_witness :
  let nbsp := string_of_list_ascii (JS.utf8 160) in
  let named :=
    {| conditionType := "process_spawn"; combinator := Some "AND";
       threshold := None; processName := Some nbsp; domainKeyword := None;
       errorCodeThreshold := None; resourceKeyword := None;
       serviceName := None |} in
  blank nbsp
  /\ ruleEngine.validateRule (Some named) = false
  /\ ruleEngine.validateRule
       (Some (sample.loginRule (String.append nbsp "5"))) = true.
Proof.
  intros nbsp named.
  assert (Hb : blank nbsp).
  { exists [160%N]. split; [|reflexivity]. constructor; [|constructor].
    unfold JS.whiteSpace. cbn [In]. auto 10. }
  destruct (validateRule_accepts named) as [_ [_ [_ [Hp _]]]].
  destruct (validateRule_accepts (sample.loginRule (String.append nbsp "5")))
    as [_ [Hl _]].
  split; [exact Hb|]. split.
  - apply not_true_is_false. intros H. apply (Hp eq_refl) in H.
    destruct H as [s [Hs Hv]]. injection Hs as <-. exact (Hv Hb).
  - apply (Hl (or_introl eq_refl)). exists (String.append nbsp "5"), 5.
    split; [reflexivity|]. split; [discriminate | reflexivity].
Defined.

(** ** Properties kept step by step *)

Section Preservation.

Variable P : Model -> Prop.

Lemma preserves_ret {A : Type} (a : A) : preserves P (ret a).
Proof. intros m H. exact H. Qed.

Lemma preserves_gets {A : Type} (f : Model -> A) : preserves P (gets f).
Proof. intros m H. exact H. Qed.

Lemma preserves_throw {A : Type} : preserves P (@throw A).
Proof. intros m H. exact H. Qed.

Lemma preserves_modify (f : Model -> Model) :
  (forall m, P m -> P (f m)) -> preserves P (modify f).
Proof. intros Hf m H. now apply Hf. Qed.

Lemma preserves_bind {A B : Type} (c : M A) (k : A -> M B) :
  preserves P c -> (forall a, preserves P (k a)) -> preserves P (bind c k).
Proof.
  intros Hc Hk m H. unfold bind. specialize (Hc m H).
  destruct (c m) as [a m'|m']; cbn [final] in *; [now apply Hk | exact Hc].
Qed.

Lemma preserves_if {A : Type} (b : bool) (c c' : M A) :
  preserves P c -> preserves P c' -> preserves P (if b then c else c').
Proof. now destruct b. Qed.

Lemma preserves_forEach {A : Type} (f : A -> M unit) (l : list A) :
  (forall x, preserves P (f x)) -> preserves P (forEach f l).
Proof.
  intros Hf. induction l as [|x l IH]; cbn [forEach].
  - apply preserves_ret.
  - apply preserves_bind; [apply Hf | intros _; exact IH].
Qed.

End Preservation.

(** Walks through a computation; [side] proves that a modification keeps
    the property. *)
Ltac preserve side :=
  repeat first
    [ assumption
    | apply preserves_ret
    | apply preserves_gets
    | apply preserves_throw
    | apply preserves_bind; [|intro]
    | apply preserves_if
    | apply preserves_forEach; intro
    | apply preserves_modify; side
    | match goal with
      | H : preserves ?P ?c |- preserves ?P ?c => exact H
      | H : forall x, preserves ?P _ |- preserves ?P _ => apply H
      | |- preserves _ (eventBus.publish _) =>
          unfold eventBus.publish
      | |- preserves _ (match ?x with _ => _ end) => destruct x
      end ].

(** Unfolds the methods down to the monad, but for [saveGameState] and
    [loadGameState]. *)
Ltac open_methods :=
  cbv delta [gameModel.addEvent gameModel.markEventAsHandled
             gameModel.checkEscalations gameModel.resetGameState
             gameModel.startNextLevel gameModel.calculateScore
             gameModel.applyLevelSettings gameModel.getCurrentLevel
             ruleEngine.handleNewEvent ruleEngine.checkEventAgainstRules
             ruleEngine.addRule escalationsController.handleEscalatedEvents
             escalationsController.applyEscalationImpact];
  cbv beta.

Lemma preserves_final {A : Type} (P : Model -> Prop) (c : M A) (m : Model) :
  preserves P c -> P m -> P (final (c m)).
Proof. intros Hc H. now apply Hc. Qed.

(** ** The settings no level changes *)

Ltac kept_by_conversion := intros ? ?; assumption.

Lemma run_timers (c : Settings) (op : Operation) (m : Model) :
  timersAre c m -> timersAre c (run op m).
Proof.
  assert (Hsave : preserves (timersAre c) gameModel.saveGameState).
  { unfold gameModel.saveGameState. preserve kept_by_conversion. }
  assert (Hload : preserves (timersAre c) gameModel.loadGameState).
  { intros m0 H. rewrite loadGameState_run. exact H. }
  destruct op; cbn [run]; intros H; try exact H;
    apply preserves_final; try assumption;
    open_methods; preserve kept_by_conversion.
Qed.

Lemma init_timers (c : Settings) (m : Model) :
  timersAre c m -> timersAre c (final (gameModel.init m)).
Proof.
  apply (preserves_final (timersAre c)).
  assert (Hload : preserves (timersAre c) gameModel.loadGameState).
  { intros m0 H. rewrite loadGameState_run. exact H. }
  unfold gameModel.init. open_methods.
  preserve kept_by_conversion.
Qed.

(** ** The traffic buffer *)

Ltac traffic_side :=
  intros ? ?; first [assumption | unfold trafficBound in *; cbn; lia].

Lemma addEvent_traffic (event : Event) (now now' : Z) (m : Model) :
  let pushed :=
    trafficData (state m) ++ [ {| ts_timestamp := now'; packetCount := 1 |} ] in
  trafficData (state (final (gameModel.addEvent event now now' m)))
  = if 100 <? Z.of_nat (List.length pushed) then List.tl pushed else pushed.
Proof.
  unfold gameModel.addEvent. cbv [bind gets modify ret eventBus.publish].
  destruct (String.eqb (ev_category event) "malicious");
    cbn [state with_state trafficData set_trafficData
         set_pendingMaliciousEvents set_events];
    match goal with
    | |- context [if ?c then _ else _] => destruct c
    end; reflexivity.
Qed.

Lemma run_trafficBound (op : Operation) (m : Model) :
  trafficBound m -> trafficBound (run op m).
Proof.
  assert (Hsave : preserves trafficBound gameModel.saveGameState).
  { unfold gameModel.saveGameState. preserve traffic_side. }
  assert (Hload : preserves trafficBound gameModel.loadGameState).
  { intros m0 H. unfold trafficBound. rewrite loadGameState_run.
    cbn [final state].
    destruct (loaded_kept (item (localStorage m0)) (state m0))
      as [_ [_ [_ Ht]]].
    cbv zeta in Ht. rewrite Ht. exact H. }
  destruct op; cbn [run]; intros H; try exact H.
  2-12: apply preserves_final; try assumption;
    open_methods; preserve traffic_side.
  unfold trafficBound in *. rewrite addEvent_traffic. cbv zeta.
  destruct (100 <? _) eqn:Hfull.
  - apply Z.ltb_lt in Hfull. rewrite length_app in Hfull.
    destruct (trafficData (state m)) as [|x l];
      cbn [List.tl app List.length] in *; [lia|].
    rewrite length_app. cbn [List.length]. lia.
  - apply Z.ltb_ge in Hfull. rewrite length_app in *. cbn [List.length] in *.
    lia.
Qed.

(** ** The rules in effect *)

Lemma storedRules_saved (s : GameState) (st : Storage) :
  Forall valid (rules s) -> Forall valid (storedRules st) ->
  Forall valid (storedRules (saved s st)).
Proof.
  intros Hs Hst. unfold saved. destruct (writable st); [exact Hs | exact Hst].
Qed.

Lemma copied_rules (sv : SavedState) (s : GameState) :
  rules (copied sv s)
  = match sv_rules sv with
    | Some rs => rs
    | None => rules s
    end.
Proof.
  unfold copied.
  destruct (sv_level sv), (sv_score sv), (sv_uptime sv), (sv_rules sv),
    (sv_levelProgress sv); reflexivity.
Qed.

Lemma loadGameState_rules (m : Model) :
  rules (state (final (gameModel.loadGameState m)))
  = match item (localStorage m) with
    | Some (Parsed sv) =>
        if gameModel.shadowsHasOwnProperty sv then rules (state m)
        else match sv_rules sv with
             | Some rs => rs
             | None => rules (state m)
             end
    | _ => rules (state m)
    end
  /\ localStorage (final (gameModel.loadGameState m)) = localStorage m.
Proof.
  rewrite loadGameState_run. cbn [final state localStorage].
  split; [|reflexivity]. unfold loaded.
  destruct (item (localStorage m)) as [[|sv]|]; try reflexivity.
  destruct (gameModel.shadowsHasOwnProperty sv); [reflexivity|].
  cbv zeta. rewrite <- copied_rules. now destruct (inTable _).
Qed.

(** The rules after a load are valid when those before and those stored
    are. *)
Lemma loadGameState_rulesValid (m : Model) :
  rulesValid m -> rulesValid (final (gameModel.loadGameState m)).
Proof.
  intros [Hr Hst]. destruct (loadGameState_rules m) as [Hrules Hsto].
  split; [|now rewrite Hsto].
  rewrite Hrules. unfold storedRules in Hst.
  destruct (item (localStorage m)) as [[|sv]|]; try exact Hr.
  destruct (gameModel.shadowsHasOwnProperty sv); [exact Hr|].
  now destruct (sv_rules sv).
Qed.

Ltac rules_side :=
  intros ? [? ?]; split; cbn; first [assumption | constructor].

Lemma run_rulesValid (op : Operation) (m : Model) :
  rulesValid m -> rulesValid (run op m).
Proof.
  assert (Hsave : preserves rulesValid gameModel.saveGameState).
  { intros m0 [Hr Hst]. rewrite saveGameState_run. split; [exact Hr|].
    now apply storedRules_saved. }
  assert (Hload : preserves rulesValid gameModel.loadGameState).
  { intros m0. apply loadGameState_rulesValid. }
  destruct op; cbn [run]; intros H; try exact H.
  1-10, 12: apply preserves_final; try assumption;
    open_methods; preserve rules_side.
  apply preserves_final; [|exact H].
  unfold ruleEngine.addRule.
  destruct (ruleEngine.validateRule (Some rule)) eqn:Hrule; cbn [negb];
    preserve rules_side.
  intros m0 [Hr Hst]. split; [|exact Hst].
  cbn. apply Forall_app. split; [exact Hr|]. now constructor.
Qed.

Lemma init_rulesValid (st : Storage) :
  Forall valid (storedRules st) ->
  rulesValid (final (gameModel.init (fresh st))).
Proof.
  intros Hst. apply (preserves_final rulesValid).
  - unfold gameModel.init. apply preserves_bind; [|intro].
    + intros m0. apply loadGameState_rulesValid.
    + open_methods. preserve rules_side.
  - split; [constructor | exact Hst].
Qed.

(** ** The score and the log *)

Ltac grown_side :=
  intros ? [? [? ?]]; split;
  [ cbn; lia
  | cbn;
    first [ eexists; eassumption
          | match goal with
            | H : events _ = _ |- _ =>
                rewrite H; rewrite <- app_assoc; eexists; reflexivity
            end ] ].

Lemma run_grown (m0 : Model) (op : Operation) (m : Model) :
  op <> call_resetGameState -> op <> call_startNextLevel ->
  op <> call_loadGameState ->
  grownFrom m0 m -> grownFrom m0 (run op m).
Proof.
  intros Hreset Hnext Hload.
  assert (Hsave : preserves (grownFrom m0) gameModel.saveGameState).
  { unfold gameModel.saveGameState. preserve grown_side. }
  destruct op; cbn [run]; intros H; try exact H; try congruence;
    apply preserves_final; try assumption;
    open_methods; preserve grown_side.
Qed.

(** ** The level *)

Lemma getCurrentLevel_run (m : Model) :
  gameModel.getCurrentLevel m = Returned (levelAt (currentLevelIndex m)) m.
Proof. reflexivity. Qed.

Lemma levelAt_in_table (i : Z) :
  0 <= i < gameModel.levels_length ->
  exists l, levelAt i = Some l /\ lv_level l = i + 1.
Proof.
  intros Hidx. change gameModel.levels_length with 3 in Hidx.
  assert (H : i = 0 \/ i = 1 \/ i = 2) by lia.
  destruct H as [-> | [-> | ->]]; eexists; split; reflexivity.
Qed.

Lemma levelAt_off_table (i : Z) :
  i < 0 \/ gameModel.levels_length <= i -> levelAt i = None.
Proof.
  intros Hidx. unfold levelAt. destruct (i <? 0) eqn:Hneg; [reflexivity|].
  apply Z.ltb_ge in Hneg. apply nth_error_None.
  change gameModel.levels_length with (Z.of_nat (List.length gameModel.levels))
    in Hidx. lia.
Qed.

Lemma applyLevelSettings_run (m : Model) :
  gameModel.applyLevelSettings m =
  match levelAt (currentLevelIndex m) with
  | Some l =>
      Returned tt
        {| state := state m; currentLevelIndex := currentLevelIndex m;
           settings := settingsFor l (settings m);
           localStorage := localStorage m;
           published := published m
                        ++ [settings_updated (settingsFor l (settings m))]
        |}
  | None => Thrown m
  end.
Proof.
  unfold gameModel.applyLevelSettings. unfold bind at 1.
  rewrite getCurrentLevel_run. now destruct (levelAt _).
Qed.

Lemma startNextLevel_advances (m : Model) :
  0 <= currentLevelIndex m < gameModel.levels_length - 1 ->
  exists l,
    levelAt (currentLevelIndex m + 1) = Some l
    /\ lv_level l = currentLevelIndex m + 2
    /\ gameModel.startNextLevel m =
       let st :=
         set_levelProgress 0
           (set_level (currentLevelIndex m + 2) (state m)) in
       let s := settingsFor l (settings m) in
       Returned true
         {| state := st;
            currentLevelIndex := currentLevelIndex m + 1;
            settings := s;
            localStorage := saved st (localStorage m);
            published :=
              published m
              ++ saveNotice (localStorage m)
              ++ [settings_updated s; level_changed (Some l)] |}.
Proof.
  intros Hidx.
  destruct (levelAt_in_table (currentLevelIndex m + 1)) as [l [Hl Hlv]];
    [lia|].
  exists l. split; [exact Hl|]. split; [lia|].
  unfold gameModel.startNextLevel. unfold bind at 1, gets at 1.
  destruct (currentLevelIndex m <? gameModel.levels_length - 1) eqn:Hlt;
    [|apply Z.ltb_ge in Hlt; lia].
  do 4 (unfold bind at 1; first [unfold modify at 1 | unfold gets at 1]).
  unfold bind at 1. rewrite saveGameState_run.
  unfold bind at 1. rewrite applyLevelSettings_run.
  cbn [currentLevelIndex set_currentLevelIndex with_state].
  rewrite Hl. unfold bind at 1. rewrite getCurrentLevel_run.
  cbn [currentLevelIndex]. rewrite Hl.
  cbv [bind eventBus.publish modify ret]. cbv zeta.
  cbn [state with_state set_currentLevelIndex currentLevelIndex settings
       localStorage published set_published].
  replace (currentLevelIndex m + 1 + 1) with (currentLevelIndex m + 2) by lia.
  now rewrite <- !app_assoc.
Qed.





(** ** Event types no rule covers *)

Lemma evaluateRule_conditionTypes (rule : Rule) (event : Event) :
  matches rule event ->
  In (conditionType rule) conditionTypes
  /\ ev_type event = conditionType rule.
Proof.
  unfold matches, ruleEngine.evaluateRule, conditionTypes.
  repeat match goal with
  | |- context [String.eqb (conditionType rule) ?s] =>
      destruct (String.eqb_spec (conditionType rule) s) as [->|?]
  end; try discriminate;
  intros H; repeat (apply andb_prop in H; destruct H as [H ?]);
  apply String.eqb_eq in H; (split; [cbn; auto 10 | exact H]).
Qed.

Lemma checkEventAgainstRules_run (event : Event) (m : Model) :
  ruleEngine.checkEventAgainstRules event m =
  Returned
    (List.filter (fun rule => ruleEngine.evaluateRule (Some rule) (Some event))
       (rules (state m))) m.
Proof. reflexivity. Qed.

Lemma filter_none {A : Type} (f : A -> bool) (l : list A) :
  (forall x, In x l -> f x = false) -> List.filter f l = [].
Proof.
  induction l as [|x l IH]; intros H; [reflexivity|].
  cbn. rewrite (H x) by now left. apply IH. intros y Hy. apply H. now right.
Qed.

Lemma handleNewEvent_run (event : Event) (now : Z) (m : Model) :
  ruleEngine.handleNewEvent event now m =
  match triggered event m with
  | [] => Returned tt m
  | _ :: _ =>
      bind (gameModel.markEventAsHandled event now)
        (fun _ => eventBus.publish
                    (rules_triggered event (triggered event m))) m
  end.
Proof.
  unfold ruleEngine.handleNewEvent. unfold bind at 1.
  rewrite checkEventAgainstRules_run. fold (triggered event m).
  now destruct (triggered event m).
Qed.

(** X6. An event whose type is none of the seven condition types matches no
    rule, so the rule engine leaves the model as it is when such an event is
    added, whatever the rules are: the event is not marked, nothing is
    scored and nothing is published. *)
Theorem handleNewEvent_unsupported_type (event : Event) (now : Z) (m : Model) :
  ~ In (ev_type event) conditionTypes ->
  (forall rule, ruleEngine.evaluateRule (Some rule) (Some event) = false)
  /\ (forall testEvents rule,
        ~ In event (List.map fst (ruleEngine.testRule rule testEvents)))
  /\ ruleEngine.checkEventAgainstRules event m = Returned [] m
  /\ ruleEngine.handleNewEvent event now m = Returned tt m.
Proof.
  intros Htype.
  assert (Hnone : forall rule,
            ruleEngine.evaluateRule (Some rule) (Some event) = false).
  { intros rule.
    destruct (ruleEngine.evaluateRule (Some rule) (Some event)) eqn:E;
      [|reflexivity].
    destruct (evaluateRule_conditionTypes rule event E) as [Hin Heq].
    rewrite Heq in Htype. contradiction. }
  assert (Htriggered : triggered event m = []).
  { apply filter_none. intros rule _. apply Hnone. }
  split; [exact Hnone|]. split; [|split].
  - intros testEvents [rule|].
    + unfold ruleEngine.testRule. rewrite map_map. cbn [fst]. rewrite map_id.
      intros Hin. apply filter_In in Hin. destruct Hin as [_ Hin].
      now rewrite Hnone in Hin.
    + unfold ruleEngine.testRule. rewrite map_map. cbn [fst]. rewrite map_id.
      intros Hin. apply filter_In in Hin. destruct Hin as [_ Hin].
      discriminate.
  - rewrite checkEventAgainstRules_run. fold (triggered event m).
    now rewrite Htriggered.
  - rewrite handleNewEvent_run. now rewrite Htriggered.
Qed.

(** An SQL injection, a malicious event of the catalog, is of no
    condition type: the rule engine does nothing on it. *)
Lemma handleNewEvent_unsupported_type_witness :
  let event := sample.event "sql_injection" "malicious" 6 "10.0.0.1" in
  ~ In (ev_type event) conditionTypes
  /\ ruleEngine.handleNewEvent event 0 sample.started
     = Returned tt sample.started.
Proof.
  intros event.
  assert (Htype : ~ In (ev_type event) conditionTypes).
  { cbn. intros H. repeat (destruct H as [H|H]; [discriminate|]). exact H. }
  split; [exact Htype|].
  now apply (handleNewEvent_unsupported_type event 0 sample.started Htype).
Defined.

(** ** Adding a rule *)

Lemma addRule_run (rule : Rule) (m : Model) :
  ruleEngine.addRule rule m =
  if ruleEngine.validateRule (Some rule)
  then
    let st := set_rules (rules (state m) ++ [rule]) (state m) in
    Returned true
      {| state := st; currentLevelIndex := currentLevelIndex m;
         settings := settings m;
         localStorage := saved st (localStorage m);
         published := published m ++ saveNotice (localStorage m)
                      ++ [rule_added rule] |}
  else
    Returned false
      {| state := state m; currentLevelIndex := currentLevelIndex m;
         settings := settings m; localStorage := localStorage m;
         published :=
           published m
           ++ [notification_error
                 "Invalid rule configuration. Please check all fields."] |}.
Proof.
  unfold ruleEngine.addRule.
  destruct (ruleEngine.validateRule (Some rule)); cbn [negb].
  - unfold bind at 1, modify at 1. unfold bind at 1.
    rewrite saveGameState_run. cbv [bind eventBus.publish modify ret].
    cbv zeta. cbn [state with_state published set_published currentLevelIndex
                   settings localStorage].
    now rewrite <- app_assoc.
  - reflexivity.
Qed.

(** X7. [addRule] answers with the verdict of [validateRule]. A rule that
    passes is appended after the rules there are, duplicates included, the
    state is saved and [rule:added] is published; from then on an event is
    checked against it after the older rules. A rule that fails changes
    neither the state nor the storage and only publishes an error. *)
Theorem addRule_takes_effect (rule : Rule) (event : Event) (m : Model) :
  let ok := ruleEngine.validateRule (Some rule) in
  let m' := final (ruleEngine.addRule rule m) in
  result (ruleEngine.addRule rule m) = Some ok
  /\ (ok = true ->
      rules (state m') = rules (state m) ++ [rule]
      /\ localStorage m' = saved (state m') (localStorage m)
      /\ publishedSince m m'
         = saveNotice (localStorage m) ++ [rule_added rule])
  /\ (ok = false ->
      state m' = state m
      /\ localStorage m' = localStorage m
      /\ publishedSince m m'
         = [notification_error
              "Invalid rule configuration. Please check all fields."])
  /\ result (ruleEngine.checkEventAgainstRules event m')
     = Some (triggered event m
             ++ (if (ok
                     && ruleEngine.evaluateRule (Some rule) (Some event))%bool
                 then [rule] else [])).
Proof.
  intros ok m'. subst ok m'. rewrite addRule_run.
  rewrite checkEventAgainstRules_run.
  destruct (ruleEngine.validateRule (Some rule)); cbv zeta; cbn [result final].
  - split; [reflexivity|]. split; [|split; [discriminate|]].
    + intros _. split; [reflexivity|]. split; [reflexivity|].
      now apply publishedSince_app.
    + cbn [state rules set_rules andb]. unfold triggered.
      rewrite filter_app. cbn [List.filter].
      now destruct (ruleEngine.evaluateRule (Some rule) (Some event)).
  - split; [reflexivity|]. split; [discriminate|]. split.
    + intros _. split; [reflexivity|]. split; [reflexivity|].
      now apply publishedSince_app.
    + cbn [state andb]. unfold triggered. now rewrite app_nil_r.
Qed.

(** ** The reaction to a new event *)

(** X8. [handleNewEvent] has three outcomes. With no matching rule it does
    nothing. With a matching rule and no queue entry for the event it
    publishes [rules:triggered] and changes no state. With a matching rule
    and a queue entry it marks the entry, scores the handling and publishes
    [score:updated], [event:handled] and [rules:triggered], in this order
    and with all the matching rules. It never throws. *)
Theorem handleNewEvent_outcomes (event : Event) (now : Z) (m : Model) :
  let m' := final (ruleEngine.handleNewEvent event now m) in
  result (ruleEngine.handleNewEvent event now m) = Some tt
  /\ (triggered event m = [] -> m' = m)
  /\ (triggered event m <> [] ->
      List.find (gameModel.sameEvent event) (pending m) = None ->
      state m' = state m
      /\ localStorage m' = localStorage m
      /\ publishedSince m m' = [rules_triggered event (triggered event m)])
  /\ (forall pendingEvent,
      triggered event m <> [] ->
      List.find (gameModel.sameEvent event) (pending m) = Some pendingEvent ->
      let earnedPoints :=
        Z.max 0 (JS.Math_round
                   (rawPoints 1 (speedBonus now (pe_timestamp pendingEvent))
                      (uptime (state m)) 0)) in
      score (state m') = score (state m) + earnedPoints
      /\ pending m'
         = gameModel.setHandled (gameModel.sameEvent event) (pending m)
      /\ publishedSince m m'
         = saveNotice (localStorage m)
           ++ [score_updated (score (state m')) earnedPoints;
               event_handled event;
               rules_triggered event (triggered event m)]).
Proof.
  intros m'. subst m'. rewrite handleNewEvent_run.
  destruct (triggered event m) as [|r rs] eqn:Htr.
  - split; [reflexivity|]. split; [reflexivity|].
    split; [congruence|]. intros p H. congruence.
  - destruct (List.find (gameModel.sameEvent event) (pending m))
      as [p|] eqn:Hfind.
    + unfold bind. rewrite markEventAsHandled_run, Hfind.
      unfold bind. rewrite calculateScore_run. cbv zeta.
      rewrite Math_round_rawPoints.
      cbv [bind eventBus.publish modify ret]. cbn [result final].
      split; [reflexivity|]. split; [discriminate|]. split; [discriminate|].
      intros p' _ [= <-]. cbv zeta.
      split; [reflexivity|]. split; [reflexivity|].
      apply publishedSince_app. cbn [published set_published with_state].
      now rewrite <- !app_assoc.
    + unfold bind. rewrite markEventAsHandled_run, Hfind.
      cbv [eventBus.publish modify]. cbn [result final].
      split; [reflexivity|]. split; [discriminate|]. split.
      * intros _ _. split; [reflexivity|]. split; [reflexivity|].
        now apply publishedSince_app.
      * intros p' _ [=].
Qed.

(** ** The two timers together *)

Lemma sameEvent_refl (event : Event) (now : Z) (h : bool) :
  gameModel.sameEvent event (entry event now h) = true.
Proof.
  unfold gameModel.sameEvent, entry. cbn [pe_event].
  rewrite !String.eqb_refl. cbn [andb].
  destruct (ev_ip event) as [i|]; [apply String.eqb_refl | reflexivity].
Qed.

Lemma find_app_none {A : Type} (f : A -> bool) (l l' : list A) :
  List.find f l = None -> List.find f (l ++ l') = List.find f l'.
Proof.
  induction l as [|x l IH]; [reflexivity|]. cbn.
  destruct (f x); [discriminate | exact IH].
Qed.

Lemma find_app_some {A : Type} (f : A -> bool) (l l' : list A) (x : A) :
  List.find f l = Some x -> List.find f (l ++ l') = Some x.
Proof.
  induction l as [|y l IH]; [discriminate|]. cbn.
  destruct (f y); [auto | exact IH].
Qed.

Lemma setHandled_app_none (f : PendingEntry -> bool)
    (l l' : list PendingEntry) :
  List.find f l = None ->
  gameModel.setHandled f (l ++ l') = l ++ gameModel.setHandled f l'.
Proof.
  induction l as [|x l IH]; [reflexivity|]. cbn.
  destruct (f x); [discriminate|]. intros H. now rewrite IH.
Qed.

Lemma setHandled_app_some (f : PendingEntry -> bool)
    (l l' : list PendingEntry) (x : PendingEntry) :
  List.find f l = Some x ->
  gameModel.setHandled f (l ++ l') = gameModel.setHandled f l ++ l'.
Proof.
  induction l as [|y l IH]; [discriminate|]. cbn.
  destruct (f y); [reflexivity|]. intros H. now rewrite IH.
Qed.

Lemma escalationTick_run (now : Z) (m : Model) :
  let timeout := escalationTimeout (settings m) in
  exists m',
    gameController.escalationTick now m
    = Returned (List.map pe_event
                  (List.filter (escalates now timeout) (pending m))) m'
    /\ pending m' = List.filter (staysPending now timeout) (pending m)
    /\ events (state m') = events (state m).
Proof.
  cbv zeta. unfold gameController.escalationTick. unfold bind at 1.
  rewrite checkEscalations_run. cbv zeta.
  set (es := List.map pe_event _).
  set (m1 := {| state := _ |}).
  unfold bind at 1.
  assert (Hq : forall c : M unit,
            c = escalationsController.handleEscalatedEvents es \/ c = ret tt ->
            exists m2, c m1 = Returned tt m2 /\ queue m2 = queue m1).
  { intros c [-> | ->].
    - destruct (handleEscalatedEvents_published es m1) as [l [_ [_ Hr]]].
      pose proof (handleEscalatedEvents_queue es m1) as Hqueue.
      destruct (escalationsController.handleEscalatedEvents es m1)
        as [[] m2|m2]; [|discriminate].
      now exists m2.
    - now exists m1. }
  destruct (Hq (if 0 <? Z.of_nat (List.length es)
                then escalationsController.handleEscalatedEvents es
                else ret tt)) as [m2 [Hrun Hqueue]].
  { destruct (0 <? _); auto. }
  rewrite Hrun. exists m2. split; [reflexivity|].
  apply queue_parts in Hqueue. destruct Hqueue as [He Hp].
  split; [rewrite Hp | rewrite He]; reflexivity.
Qed.

Lemma handleNewEvent_found (event : Event) (now : Z) (m : Model)
    (pendingEvent : PendingEntry) :
  triggered event m <> [] ->
  List.find (gameModel.sameEvent event) (pending m) = Some pendingEvent ->
  let earnedPoints :=
    Z.max 0 (JS.Math_round
               (rawPoints 1 (speedBonus now (pe_timestamp pendingEvent))
                  (uptime (state m)) 0)) in
  let st :=
    set_score (score (state m) + earnedPoints)
      (set_pendingMaliciousEvents
         (gameModel.setHandled (gameModel.sameEvent event) (pending m))
         (state m)) in
  ruleEngine.handleNewEvent event now m =
  Returned tt
    {| state := st; currentLevelIndex := currentLevelIndex m;
       settings := settings m;
       localStorage := saved st (localStorage m);
       published :=
         published m ++ saveNotice (localStorage m)
         ++ [score_updated (score (state m) + earnedPoints) earnedPoints;
             event_handled event;
             rules_triggered event (triggered event m)] |}.
Proof.
  intros Htr Hfind. rewrite handleNewEvent_run.
  destruct (triggered event m) as [|r rs]; [congruence|].
  unfold bind. rewrite markEventAsHandled_run, Hfind.
  unfold bind. rewrite calculateScore_run. cbv zeta.
  rewrite Math_round_rawPoints.
  cbv [bind eventBus.publish modify ret].
  cbn [published set_published with_state state currentLevelIndex settings
       localStorage score set_score set_pendingMaliciousEvents uptime].
  now rewrite <- !app_assoc.
Qed.

Lemma simulationTick_run (event : Event) (now now' now'' : Z) (m : Model) :
  exists traffic,
    gameController.simulationTick event now now' now'' m =
    ruleEngine.handleNewEvent event now''
      {| state :=
           set_trafficData traffic
             (set_pendingMaliciousEvents (pending m ++ enqueue event now)
                (set_events (events (state m) ++ [event]) (state m)));
         currentLevelIndex := currentLevelIndex m;
         settings := settings m;
         localStorage := localStorage m;
         published := published m ++ [event_added event] |}.
Proof.
  destruct (addEvent_run event now now' m) as [traffic Hrun].
  exists traffic. unfold gameController.simulationTick, bind.
  now rewrite Hrun.
Qed.

Lemma filter_app_handled (f : PendingEntry -> bool) (l : list PendingEntry)
    (p : PendingEntry) :
  f p = false -> List.filter f (l ++ [p]) = List.filter f l.
Proof.
  intros Hp. rewrite filter_app. cbn. rewrite Hp. apply app_nil_r.
Qed.

(** X9. A malicious event that a rule of the model matches, and whose key
    (time stamp, type and address) no queued entry has, is handled within
    its generation tick: it enters the log and the queue, its own entry is
    marked, the handling is scored on the latency between the two clock
    readings, and the publications are [event:added], [score:updated],
    [event:handled], [rules:triggered]. To the escalation timer the model
    then is as if the event had not been queued: whatever the time of the
    sweep, it returns and keeps what it would without the event. *)
Theorem simulationTick_rule_handles_new_event
    (event : Event) (now now' now'' : Z) (m : Model) :
  ev_category event = "malicious" ->
  triggered event m <> [] ->
  List.find (gameModel.sameEvent event) (pending m) = None ->
  let m' := final (gameController.simulationTick event now now' now'' m) in
  let earnedPoints :=
    Z.max 0 (JS.Math_round
               (rawPoints 1 (speedBonus now'' now) (uptime (state m)) 0)) in
  result (gameController.simulationTick event now now' now'' m) = Some tt
  /\ events (state m') = events (state m) ++ [event]
  /\ pending m' = pending m ++ [entry event now true]
  /\ score (state m') = score (state m) + earnedPoints
  /\ publishedSince m m'
     = event_added event :: saveNotice (localStorage m)
       ++ [score_updated (score (state m')) earnedPoints;
           event_handled event;
           rules_triggered event (triggered event m)]
  /\ (forall t,
        result (gameController.escalationTick t m')
        = result (gameController.escalationTick t m)
        /\ pending (final (gameController.escalationTick t m'))
           = pending (final (gameController.escalationTick t m))).
Proof.
  intros Hcat Htr Hfind m' earnedPoints. subst m'.
  destruct (simulationTick_run event now now' now'' m) as [traffic Hrun].
  rewrite Hrun. clear Hrun.
  set (m1 := {| state := _ |}).
  assert (Hqueue : pending m1 = pending m ++ [entry event now false]).
  { unfold m1, pending at 1, enqueue, entry. cbn. rewrite Hcat. reflexivity. }
  assert (Hfind1 : List.find (gameModel.sameEvent event) (pending m1)
                   = Some (entry event now false)).
  { rewrite Hqueue, (find_app_none _ _ _ Hfind). cbn.
    now rewrite sameEvent_refl. }
  assert (Htr1 : triggered event m1 = triggered event m) by reflexivity.
  rewrite (handleNewEvent_found event now'' m1 _
             ltac:(rewrite Htr1; exact Htr) Hfind1).
  cbv zeta. cbn [result final state pe_timestamp entry].
  rewrite Htr1.
  assert (Hmarked :
    gameModel.setHandled (gameModel.sameEvent event) (pending m1)
    = pending m ++ [entry event now true]).
  { rewrite Hqueue, (setHandled_app_none _ _ _ Hfind). cbn.
    now rewrite sameEvent_refl. }
  split; [reflexivity|]. split; [reflexivity|].
  split; [exact Hmarked|]. split; [reflexivity|].
  split.
  { apply publishedSince_app. unfold m1.
    cbn [published localStorage state score uptime set_trafficData
         set_pendingMaliciousEvents set_events].
    now rewrite <- !app_assoc. }
  intros t.
  match goal with
  | |- context [gameController.escalationTick t ?m2] =>
      destruct (escalationTick_run t m2) as [ma [Ha [Hpa _]]];
      assert (Hp2 : pending m2 = pending m ++ [entry event now true])
        by exact Hmarked;
      assert (Hs2 : settings m2 = settings m) by reflexivity
  end.
  destruct (escalationTick_run t m) as [mb [Hb [Hpb _]]].
  cbv zeta in *. rewrite Ha, Hb. cbn [result final].
  rewrite Hpa, Hpb, Hp2, Hs2.
  rewrite !filter_app_handled by reflexivity. split; reflexivity.
Qed.

(** On a session with the rule "more than 5 failed logins": six failed
    logins are queued and marked at once, and score 1245 points for a
    latency of one second at full uptime. *)
Lemma simulationTick_rule_handles_new_event_witness :
  let m := run (call_addRule (sample.loginRule "5")) sample.started in
  let m' :=
    final (gameController.simulationTick (sample.loginFail 6) 0 0 1000 m) in
  triggered (sample.loginFail 6) m <> []
  /\ pending m' = [entry (sample.loginFail 6) 0 true]
  /\ score (state m') = 1245
  /\ result (gameController.escalationTick 45000 m') = Some [].
Proof.
  intros m m'.
  assert (Htr : triggered (sample.loginFail 6) m <> [])
    by (vm_compute; discriminate).
  split; [exact Htr|].
  destruct (simulationTick_rule_handles_new_event
              (sample.loginFail 6) 0 0 1000 m eq_refl Htr eq_refl)
    as [_ [_ [Hp [Hs [_ Ht]]]]].
  split; [exact Hp|].
  split; [unfold m'; rewrite Hs; vm_compute; reflexivity|].
  destruct (Ht 45000) as [Hr _]. unfold m'. rewrite Hr.
  vm_compute. reflexivity.
Defined.

Lemma filter_In_last {A : Type} (f : A -> bool) (l : list A) (x : A) :
  f x = true -> In x (List.filter f (l ++ [x])).
Proof.
  intros Hx. apply filter_In. split; [|exact Hx].
  apply in_or_app. right. now left.
Qed.

(** X10. Entries are found by key, not by identity. When a rule matches a
    new malicious event and an older entry has the same time stamp, type
    and address, the tick marks that older entry, handled or not, and
    scores on its age; the entry of the new event stays unhandled, although
    [event:handled] has been published for the event, and a sweep at or
    past the timeout after its arrival escalates it. *)
Theorem simulationTick_same_key_marks_older_entry
    (event : Event) (now now' now'' : Z) (m : Model)
    (older : PendingEntry) :
  ev_category event = "malicious" ->
  triggered event m <> [] ->
  List.find (gameModel.sameEvent event) (pending m) = Some older ->
  let m' := final (gameController.simulationTick event now now' now'' m) in
  let earnedPoints :=
    Z.max 0 (JS.Math_round
               (rawPoints 1 (speedBonus now'' (pe_timestamp older))
                  (uptime (state m)) 0)) in
  pending m'
  = gameModel.setHandled (gameModel.sameEvent event) (pending m)
    ++ [entry event now false]
  /\ score (state m') = score (state m) + earnedPoints
  /\ In (event_handled event) (publishedSince m m')
  /\ (forall t,
        escalationTimeout (settings m) <= t - now ->
        exists es,
          result (gameController.escalationTick t m') = Some es
          /\ In event es).
Proof.
  intros Hcat Htr Hfind m' earnedPoints. subst m'.
  destruct (simulationTick_run event now now' now'' m) as [traffic Hrun].
  rewrite Hrun. clear Hrun.
  set (m1 := {| state := _ |}).
  assert (Hqueue : pending m1 = pending m ++ [entry event now false]).
  { unfold m1, pending at 1, enqueue, entry. cbn. rewrite Hcat. reflexivity. }
  assert (Hfind1 : List.find (gameModel.sameEvent event) (pending m1)
                   = Some older).
  { rewrite Hqueue. now apply find_app_some. }
  assert (Htr1 : triggered event m1 = triggered event m) by reflexivity.
  rewrite (handleNewEvent_found event now'' m1 _
             ltac:(rewrite Htr1; exact Htr) Hfind1).
  cbv zeta. cbn [result final state].
  assert (Hmarked :
    gameModel.setHandled (gameModel.sameEvent event) (pending m1)
    = gameModel.setHandled (gameModel.sameEvent event) (pending m)
      ++ [entry event now false]).
  { rewrite Hqueue. now apply (setHandled_app_some _ _ _ older). }
  split; [exact Hmarked|]. split; [reflexivity|].
  split.
  { match goal with
    | |- In _ (publishedSince m ?m2) =>
        rewrite (publishedSince_app m m2
                   ([event_added event] ++ saveNotice (localStorage m)
                    ++ [score_updated (score (state m) + earnedPoints)
                          earnedPoints;
                        event_handled event;
                        rules_triggered event (triggered event m)]))
    end.
    - apply in_or_app. right. apply in_or_app. right. cbn. auto.
    - unfold m1. cbn [published localStorage state score uptime
        set_trafficData set_pendingMaliciousEvents set_events].
      now rewrite <- !app_assoc. }
  intros t Ht.
  match goal with
  | |- context [gameController.escalationTick t ?m2] =>
      destruct (escalationTick_run t m2) as [ma [Ha _]];
      assert (Hp2 : pending m2
                    = gameModel.setHandled (gameModel.sameEvent event)
                        (pending m) ++ [entry event now false])
        by exact Hmarked;
      assert (Hs2 : settings m2 = settings m) by reflexivity
  end.
  cbv zeta in Ha. rewrite Ha. cbn [result]. eexists. split; [reflexivity|].
  rewrite Hp2, Hs2.
  change event with (pe_event (entry event now false)) at 1.
  apply in_map. apply filter_In_last.
  unfold escalates, entry. cbn. now apply Z.leb_le.
Qed.

(** Two failed logins of one second and one address, the first already
    queued: the tick for the second marks the first, and the second
    escalates at the timeout. *)
Lemma simulationTick_same_key_marks_older_entry_witness :
  let m := run (call_addRule (sample.loginRule "5")) sample.queued in
  let m' :=
    final (gameController.simulationTick (sample.loginFail 6) 500 500 600 m) in
  triggered (sample.loginFail 6) m <> []
  /\ List.find (gameModel.sameEvent (sample.loginFail 6)) (pending m)
     = Some (entry (sample.loginFail 6) 0 false)
  /\ pending m'
     = [entry (sample.loginFail 6) 0 true; entry (sample.loginFail 6) 500 false]
  /\ result (gameController.escalationTick 45500 m')
     = Some [sample.loginFail 6].
Proof.
  intros m m'.
  assert (Htr : triggered (sample.loginFail 6) m <> [])
    by (vm_compute; discriminate).
  split; [exact Htr|]. split; [reflexivity|].
  destruct (simulationTick_same_key_marks_older_entry
              (sample.loginFail 6) 500 500 600 m
              (entry (sample.loginFail 6) 0 false) eq_refl Htr eq_refl)
    as [Hp [_ [_ Ht]]].
  split; [exact Hp|].
  destruct (Ht 45500) as [es [Hr _]]; [vm_compute; discriminate|].
  vm_compute. reflexivity.
Defined.

(** ** Marking an entry *)

Lemma find_none_existsb {A : Type} (f : A -> bool) (l : list A) :
  List.find f l = None <-> List.existsb f l = false.
Proof.
  induction l as [|x l IH]; [tauto|]. cbn.
  destruct (f x); [split; discriminate | exact IH].
Qed.

Lemma find_first {A : Type} (f : A -> bool) (l1 l2 : list A) (x : A) :
  (forall y, In y l1 -> f y = false) -> f x = true ->
  List.find f (l1 ++ x :: l2) = Some x.
Proof.
  intros Hl1 Hx. induction l1 as [|y l1 IH]; cbn.
  - now rewrite Hx.
  - rewrite (Hl1 y) by now left. apply IH. intros z Hz. apply Hl1. now right.
Qed.

Lemma setHandled_first (f : PendingEntry -> bool)
    (l1 l2 : list PendingEntry) (p : PendingEntry) :
  (forall q, In q l1 -> f q = false) -> f p = true ->
  gameModel.setHandled f (l1 ++ p :: l2) = l1 ++ handledCopy p :: l2.
Proof.
  intros Hl1 Hp. induction l1 as [|y l1 IH]; cbn.
  - now rewrite Hp.
  - rewrite (Hl1 y) by now left. f_equal. apply IH.
    intros z Hz. apply Hl1. now right.
Qed.

(** X11. [markEventAsHandled] looks an event up by time stamp, type and
    address. When no entry of the queue has this key it returns [false]
    and leaves the model untouched, with nothing scored or published. When
    some have, it returns [true] and marks the first of them only: the
    entries before and after it, those of the same key included, stay as
    they are, and the handling is scored on the age of that first entry. *)
Theorem markEventAsHandled_first_match (event : Event) (now : Z) (m : Model) :
  (List.existsb (gameModel.sameEvent event) (pending m) = false ->
   gameModel.markEventAsHandled event now m = Returned false m)
  /\ (forall before p after,
        pending m = before ++ p :: after ->
        (forall q, In q before -> gameModel.sameEvent event q = false) ->
        gameModel.sameEvent event p = true ->
        let m' := final (gameModel.markEventAsHandled event now m) in
        result (gameModel.markEventAsHandled event now m) = Some true
        /\ pending m' = before ++ handledCopy p :: after
        /\ score (state m')
           = score (state m)
             + Z.max 0 (JS.Math_round
                          (rawPoints 1 (speedBonus now (pe_timestamp p))
                             (uptime (state m)) 0))).
Proof.
  split.
  - intros Hnone. apply find_none_existsb in Hnone.
    now rewrite markEventAsHandled_run, Hnone.
  - intros before p after Hq Hbefore Hp m'. subst m'.
    assert (Hfind : List.find (gameModel.sameEvent event) (pending m) = Some p).
    { rewrite Hq. now apply find_first. }
    destruct (markEventAsHandled_found event now m p Hfind)
      as [earned [m1 [Hrun [Hearned [Hscore [Hpend _]]]]]].
    rewrite Hrun. cbn [result final].
    split; [reflexivity|]. split.
    + rewrite Hpend, Hq. now apply setHandled_first.
    + now rewrite Hscore, Hearned.
Qed.

(** ** The points of a handling *)

Lemma Math_min_30 (x : Q) :
  (0 <= x)%Q -> (0 <= JS.Math_min 30 x <= 30)%Q.
Proof.
  intros Hx. unfold JS.Math_min.
  destruct (Qle_bool 30 x) eqn:E.
  - split; lra.
  - split; [exact Hx|].
    destruct (Qlt_le_dec x 30) as [H|H]; [lra|].
    apply Qle_bool_iff in H. congruence.
Qed.

Lemma speedBonus_range (now t : Z) :
  t <= now -> (0 <= speedBonus now t <= 30)%Q.
Proof.
  intros Ht. split; [apply speedBonus_nonneg|].
  unfold speedBonus.
  assert (Hx : (0 <= inject_Z (now - t) / 1000)%Q).
  { apply Qle_shift_div_l; [reflexivity|].
    rewrite Qmult_0_l. change 0%Q with (inject_Z 0). rewrite <- Zle_Qle. lia. }
  destruct (Math_min_30 _ Hx) as [Hlo Hhi].
  destruct (Math_max_0_cases (30 - JS.Math_min 30 (inject_Z (now - t) / 1000)))
    as [[_ ->] | [_ ->]]; lra.
Qed.

Lemma speedBonus_late (now t : Z) :
  30000 <= now - t -> (speedBonus now t == 0)%Q.
Proof.
  intros Ht. unfold speedBonus.
  assert (Hx : (30 <= inject_Z (now - t) / 1000)%Q).
  { apply Qle_shift_div_l; [reflexivity|].
    change (30 * 1000)%Q with (inject_Z 30000). rewrite <- Zle_Qle. lia. }
  unfold JS.Math_min. apply Qle_bool_iff in Hx. rewrite Hx.
  unfold JS.Math_max. reflexivity.
Qed.

Lemma Math_min_cases (a b : Q) :
  (a <= b /\ JS.Math_min a b = a)%Q \/ (b < a /\ JS.Math_min a b = b)%Q.
Proof.
  unfold JS.Math_min. destruct (Qle_bool a b) eqn:H.
  - left. split; [now apply Qle_bool_iff | reflexivity].
  - right. split; [|reflexivity].
    apply Qnot_le_lt. intros Hle. apply Qle_bool_iff in Hle. congruence.
Qed.

Lemma latency_le (now1 now2 t : Z) :
  now1 <= now2 ->
  (inject_Z (now1 - t) / 1000 <= inject_Z (now2 - t) / 1000)%Q.
Proof.
  intros H. apply Qmult_le_compat_r; [|discriminate].
  rewrite <- Zle_Qle. lia.
Qed.

Lemma speedBonus_antitone (now1 now2 t : Z) :
  now1 <= now2 -> (speedBonus now2 t <= speedBonus now1 t)%Q.
Proof.
  intros H. pose proof (latency_le now1 now2 t H) as Hl. unfold speedBonus.
  destruct (Math_min_cases 30 (inject_Z (now1 - t) / 1000)) as [[? ->]|[? ->]];
  destruct (Math_min_cases 30 (inject_Z (now2 - t) / 1000)) as [[? ->]|[? ->]];
  match goal with
  | |- (JS.Math_max 0 ?x <= JS.Math_max 0 ?y)%Q =>
      destruct (Math_max_0_cases x) as [[? E1]|[? E1]];
      destruct (Math_max_0_cases y) as [[? E2]|[? E2]];
      rewrite ?E1, ?E2
  end; lra.
Qed.

Lemma handlingPoints_monotone (s s' u : Q) :
  (s <= s')%Q -> handlingPoints s u <= handlingPoints s' u.
Proof.
  intros H. unfold handlingPoints, JS.Math_round.
  apply Z.max_le_compat_l. apply Qfloor_resp_le. unfold rawPoints. lra.
Qed.

Lemma handlingPoints_upper (s u : Q) :
  (s <= 30)%Q -> (u <= 100)%Q -> handlingPoints s u <= 1250.
Proof.
  intros Hs Hu. unfold handlingPoints, JS.Math_round.
  apply Z.max_lub; [lia|].
  change 1250 with (Qfloor (1250 + (1 # 2))).
  apply Qfloor_resp_le. unfold rawPoints. lra.
Qed.

Lemma handlingPoints_comp (s s' u : Q) :
  (s == s')%Q -> handlingPoints s u = handlingPoints s' u.
Proof.
  intros H. unfold handlingPoints, JS.Math_round. f_equal.
  apply Qfloor_comp. unfold rawPoints. now rewrite H.
Qed.

(** X12. What a handling scores. For an entry found in the queue and
    handled at or after it was enqueued, with the uptime between 0 and 100,
    the points added are between 100 and 1250; handling later never scores
    more; and from thirty seconds on the speed bonus is gone, the points
    being those of the detection and of the uptime alone. *)
Theorem markEventAsHandled_points (event : Event) (m : Model)
    (pendingEvent : PendingEntry) :
  List.find (gameModel.sameEvent event) (pending m) = Some pendingEvent ->
  let earned now :=
    score (state (final (gameModel.markEventAsHandled event now m)))
    - score (state m) in
  let enqueuedAt := pe_timestamp pendingEvent in
  (forall now,
     enqueuedAt <= now ->
     (0 <= uptime (state m))%Q -> (uptime (state m) <= 100)%Q ->
     100 <= earned now <= 1250)
  /\ (forall now now', now <= now' -> earned now' <= earned now)
  /\ (forall now,
        30000 <= now - enqueuedAt ->
        earned now
        = Z.max 0 (JS.Math_round (100 + uptime (state m) * 10)%Q)).
Proof.
  intros Hfind earned enqueuedAt.
  assert (Hearned : forall now,
            earned now
            = handlingPoints (speedBonus now enqueuedAt) (uptime (state m))).
  { intros now. unfold earned.
    destruct (markEventAsHandled_found event now m pendingEvent Hfind)
      as [e [m1 [Hrun [He [Hscore _]]]]].
    rewrite Hrun. cbn [final]. rewrite Hscore, He.
    unfold handlingPoints, enqueuedAt. lia. }
  split; [|split].
  - intros now Hnow Hlo Hhi. rewrite Hearned.
    destruct (speedBonus_range now enqueuedAt Hnow) as [Hs0 Hs30].
    split.
    + now apply handling_points.
    + now apply handlingPoints_upper.
  - intros now now' Hle. rewrite !Hearned.
    apply handlingPoints_monotone. now apply speedBonus_antitone.
  - intros now Hlate. rewrite Hearned.
    rewrite (handlingPoints_comp _ 0 _ (speedBonus_late now enqueuedAt Hlate)).
    unfold handlingPoints, JS.Math_round. f_equal. apply Qfloor_comp.
    unfold rawPoints. lra.
Qed.

(** The queued login failure at full uptime: 1245 points after one second,
    1100 after a minute. *)
Lemma markEventAsHandled_points_witness :
  List.find (gameModel.sameEvent (sample.loginFail 6)) (pending sample.queued)
  = Some (entry (sample.loginFail 6) 0 false)
  /\ 100 <= score (state (final (gameModel.markEventAsHandled
                                   (sample.loginFail 6) 1000 sample.queued)))
            - score (state sample.queued) <= 1250
  /\ score (state (final (gameModel.markEventAsHandled
                            (sample.loginFail 6) 60000 sample.queued)))
     - score (state sample.queued) = 1100.
Proof.
  split; [reflexivity|].
  destruct (markEventAsHandled_points (sample.loginFail 6) sample.queued
              (entry (sample.loginFail 6) 0 false) eq_refl)
    as [Hrange [_ Hlate]].
  split.
  - apply Hrange; [vm_compute; discriminate | vm_compute; discriminate
                  | vm_compute; discriminate].
  - rewrite Hlate; [vm_compute; reflexivity | vm_compute; discriminate].
Defined.

(** ** Sweeping twice *)

Lemma filter_twice {A : Type} (f g : A -> bool) (l : list A) :
  List.filter f (List.filter g l) = List.filter (fun x => (g x && f x)%bool) l.
Proof.
  induction l as [|x l IH]; [reflexivity|]. cbn.
  destruct (g x); cbn; [destruct (f x)|]; now rewrite IH.
Qed.

Lemma filter_same {A : Type} (f g : A -> bool) (l : list A) :
  (forall x, In x l -> f x = g x) -> List.filter f l = List.filter g l.
Proof.
  induction l as [|x l IH]; intros H; [reflexivity|]. cbn.
  rewrite (H x) by now left. rewrite IH; [reflexivity|].
  intros y Hy. apply H. now right.
Qed.

(** X13. Two sweeps in a row. The second returns exactly the events of the
    entries that were unhandled and below the timeout at the first sweep
    and have reached it by the second, so no entry escalates twice; and a
    sweep at the time of the previous one, or before it, returns nothing,
    publishes nothing and leaves the model as it is. *)
Theorem checkEscalations_twice (now now' : Z) (m : Model) :
  let timeout := escalationTimeout (settings m) in
  let m1 := final (gameModel.checkEscalations now m) in
  let m2 := final (gameModel.checkEscalations now' m1) in
  result (gameModel.checkEscalations now' m1)
  = Some (List.map pe_event
            (List.filter
               (fun p => (staysPending now timeout p
                          && escalates now' timeout p)%bool)
               (pending m)))
  /\ pending m2
     = List.filter
         (fun p => (staysPending now timeout p
                    && staysPending now' timeout p)%bool)
         (pending m)
  /\ (forall p, In p (List.filter (escalates now timeout) (pending m)) ->
        ~ In p (pending m1) /\ ~ In p (pending m2))
  /\ (now' <= now ->
      gameModel.checkEscalations now' m1 = Returned [] m1).
Proof.
  intros timeout m1 m2. subst m2 m1.
  rewrite (checkEscalations_run now m). cbv zeta. cbn [final].
  fold timeout.
  set (m1 := {| state := _ |}).
  assert (Hp1 : pending m1
                = List.filter (staysPending now timeout) (pending m))
    by reflexivity.
  assert (Ht1 : escalationTimeout (settings m1) = timeout) by reflexivity.
  rewrite (checkEscalations_run now' m1). cbv zeta. cbn [final result].
  rewrite Ht1, Hp1, !filter_twice.
  split; [reflexivity|]. split; [reflexivity|]. split.
  - intros p Hin. apply filter_In in Hin. destruct Hin as [_ Hesc].
    assert (Hstay : staysPending now timeout p = false).
    { unfold escalates, staysPending in *.
      apply andb_prop in Hesc. destruct Hesc as [-> Hle].
      apply Z.leb_le in Hle. cbn. apply Z.ltb_ge. exact Hle. }
    split; intros Hin; unfold pending in Hin; cbn [state] in Hin;
      fold (pending m) in Hin; apply filter_In in Hin;
      destruct Hin as [_ Hin]; rewrite Hstay in Hin; discriminate.
  - intros Hle.
    assert (Hnone :
      List.filter (fun p => (staysPending now timeout p
                             && escalates now' timeout p)%bool) (pending m)
      = []).
    { apply filter_none. intros p _.
      unfold staysPending, escalates.
      destruct (pe_handled p); [reflexivity|]. cbn.
      destruct (now - pe_timestamp p <? timeout) eqn:Hlt; [|reflexivity].
      apply Z.ltb_lt in Hlt. cbn. apply Z.leb_gt. lia. }
    assert (Hkept :
      List.filter (fun p => (staysPending now timeout p
                             && staysPending now' timeout p)%bool) (pending m)
      = List.filter (staysPending now timeout) (pending m)).
    { apply filter_same. intros p _.
      unfold staysPending.
      destruct (pe_handled p); [reflexivity|]. cbn.
      destruct (now - pe_timestamp p <? timeout) eqn:Hlt; [|reflexivity].
      apply Z.ltb_lt in Hlt. cbn. apply Z.ltb_lt. lia. }
    rewrite Hnone, Hkept. cbn [List.map escalationNotice].
    unfold m1. cbn [state currentLevelIndex settings localStorage published
                    set_pendingMaliciousEvents].
    now rewrite app_nil_r.
Qed.

(** ** The status of the queue *)

Lemma nth_error_mapWithClock {A B : Type} (f : Z -> A -> B) (clock : nat -> Z)
    (k : nat) (l : list A) (i : nat) :
  nth_error (gameModelStatus.mapWithClock f clock k l) i
  = option_map (f (clock (k + i)%nat)) (nth_error l i).
Proof.
  revert k i. induction l as [|x l IH]; intros k i.
  - now destruct i.
  - destruct i as [|i]; cbn.
    + now rewrite Nat.add_0_r.
    + rewrite IH. now rewrite Nat.add_succ_r.
Qed.

Lemma length_mapWithClock {A B : Type} (f : Z -> A -> B) (clock : nat -> Z)
    (k : nat) (l : list A) :
  List.length (gameModelStatus.mapWithClock f clock k l) = List.length l.
Proof.
  revert k. induction l as [|x l IH]; intros k; cbn; [reflexivity|].
  now rewrite IH.
Qed.

Lemma Qfloor_ge (z : Z) (x : Q) : z <= Qfloor x <-> (inject_Z z <= x)%Q.
Proof.
  split.
  - intros H. apply Qle_trans with (inject_Z (Qfloor x)).
    + now rewrite <- Zle_Qle.
    + apply Qfloor_le.
  - intros H. destruct (Z_lt_le_dec (Qfloor x) z) as [Hlt|Hle]; [|exact Hle].
    exfalso. assert (Hz : Qfloor x + 1 <= z) by lia.
    rewrite Zle_Qle in Hz. pose proof (Qlt_floor x) as Hx. lra.
Qed.

Lemma percentage_full (timeElapsed timeout : Z) :
  0 < timeout ->
  (100 <= JS.Math_round (inject_Z timeElapsed / inject_Z timeout * 100)
   <-> 199 * timeout <= 200 * timeElapsed).
Proof.
  intros Ht. unfold JS.Math_round. rewrite Qfloor_ge.
  set (q := (inject_Z timeElapsed / inject_Z timeout)%Q).
  assert (HT : (0 < inject_Z timeout)%Q)
    by (change 0%Q with (inject_Z 0); now rewrite <- Zlt_Qlt).
  assert (Hq : (q * inject_Z timeout == inject_Z timeElapsed)%Q).
  { unfold q. rewrite Qmult_comm. apply Qmult_div_r. lra. }
  rewrite Zle_Qle, !inject_Z_mult.
  change (inject_Z 100) with 100%Q. change (inject_Z 199) with 199%Q.
  change (inject_Z 200) with 200%Q.
  split; intros H.
  - rewrite <- Hq. nra.
  - rewrite <- Hq in H.
    destruct (Qlt_le_dec (q * 100 + (1 # 2)) 100) as [Hlt|Hle]; [|exact Hle].
    exfalso. nra.
Qed.

Lemma percentage_nonneg (timeElapsed timeout : Z) :
  0 < timeout -> 0 <= timeElapsed ->
  0 <= JS.Math_round (inject_Z timeElapsed / inject_Z timeout * 100).
Proof.
  intros Ht He. unfold JS.Math_round. apply Qfloor_ge.
  assert (HT : (0 < inject_Z timeout)%Q)
    by (change 0%Q with (inject_Z 0); now rewrite <- Zlt_Qlt).
  assert (HE : (0 <= inject_Z timeElapsed)%Q)
    by (change 0%Q with (inject_Z 0); now rewrite <- Zle_Qle).
  assert (Hq : (0 <= inject_Z timeElapsed / inject_Z timeout)%Q).
  { apply Qle_shift_div_l; [exact HT|]. lra. }
  change (inject_Z 0) with 0%Q. lra.
Qed.

(** X14. [getPendingMaliciousEvents] reads the model and changes nothing.
    With a positive timeout it lists one status for every entry of the queue,
    in order and the handled ones included; the percentage of a status is
    never above 100, is not negative when the clock is not behind the
    entry, and is 100 exactly from 99.5 per cent of the timeout on, so also
    at and after the timeout itself. *)
Theorem getPendingMaliciousEvents_percentage (clock : nat -> Z) (m : Model) :
  0 < escalationTimeout (settings m) ->
  exists statuses,
    gameModelStatus.getPendingMaliciousEvents clock m = Returned statuses m
    /\ List.length statuses = List.length (pending m)
    /\ forall i p,
         nth_error (pending m) i = Some p ->
         exists s,
           nth_error statuses i = Some s
           /\ ps_event s = pe_event p
           /\ ps_handled s = pe_handled p
           /\ timeElapsed s = clock i - pe_timestamp p
           /\ escalationPercentage s <= 100
           /\ (0 <= timeElapsed s -> 0 <= escalationPercentage s)
           /\ (escalationPercentage s = 100
               <-> 199 * escalationTimeout (settings m) <= 200 * timeElapsed s)
           /\ (escalationTimeout (settings m) <= timeElapsed s ->
               escalationPercentage s = 100).
Proof.
  intros Ht. eexists. split; [reflexivity|].
  split; [apply length_mapWithClock|].
  intros i p Hp. rewrite nth_error_mapWithClock. fold (pending m).
  rewrite Hp. cbn [option_map Nat.add]. eexists. split; [reflexivity|].
  unfold gameModelStatus.pendingStatus.
  cbn [ps_event ps_handled timeElapsed escalationPercentage].
  split; [reflexivity|]. split; [reflexivity|]. split; [reflexivity|].
  pose proof (percentage_full (clock i - pe_timestamp p) _ Ht) as Hfull.
  split; [apply Z.le_min_l|]. split; [|split].
  - intros He. apply Z.min_glb; [lia|]. now apply percentage_nonneg.
  - rewrite <- Hfull. lia.
  - intros Hle. apply Z.min_l. apply Hfull. lia.
Qed.

(** Two tenths of a second before the timeout of 45 seconds the status
    of the queued login failure already shows 100 per cent. *)
Lemma getPendingMaliciousEvents_percentage_witness :
  0 < escalationTimeout (settings sample.queued)
  /\ exists s,
       option_map (fun statuses => nth_error statuses 0)
         (result (gameModelStatus.getPendingMaliciousEvents
                    (fun _ => 44800) sample.queued))
       = Some (Some s)
       /\ escalationPercentage s = 100.
Proof.
  split; [reflexivity|].
  destruct (getPendingMaliciousEvents_percentage (fun _ => 44800)
              sample.queued eq_refl) as [statuses [Hrun [_ Hstatus]]].
  destruct (Hstatus 0%nat (entry (sample.loginFail 6) 0 false) eq_refl)
    as [s [Hs [_ [_ [He [_ [_ [Hfull _]]]]]]]].
  exists s. rewrite Hrun. cbn [result option_map]. split; [now rewrite Hs|].
  apply Hfull. rewrite He. vm_compute. discriminate.
Defined.

(** ** Invariants of the model *)

Lemma runAll_invariant (P : Model -> Prop) (ops : list Operation) :
  (forall op m, In op ops -> P m -> P (run op m)) ->
  forall m, P m -> P (runAll ops m).
Proof.
  unfold runAll. induction ops as [|op ops IH]; intros Hrun m Hm; [exact Hm|].
  cbn. apply IH.
  - intros op' m' Hin. apply Hrun. now right.
  - apply Hrun; [now left | exact Hm].
Qed.

(** X15. The simulation interval, the false-positive chance and the
    escalation timeout are not level settings: [init] and every operation
    of the model, [applyLevelSettings] and the level changes included, leave
    them as they were. In every reachable model they are the literals of
    the source, so an event has 45 seconds at every level. *)
Theorem timers_are_fixed :
  (forall ops m,
     timersAre (settings m) (runAll ops (final (gameModel.init m))))
  /\ (forall m,
        reachable m ->
        simulationInterval (settings m) = 9000
        /\ (falsePositiveChance (settings m) == 0.1)%Q
        /\ escalationTimeout (settings m) = 45000).
Proof.
  split.
  - intros ops m. apply runAll_invariant.
    + intros op m' _. apply run_timers.
    + apply init_timers. repeat split.
  - intros m Hr.
    assert (H : timersAre gameModel.initialSettings m).
    { induction Hr as [st|m op Hr IH].
      - apply init_timers. repeat split.
      - now apply run_timers. }
    destruct H as [Hi [Hf Ht]]. rewrite Hi, Hf, Ht. repeat split.
Qed.



(** X17. Below the last level [startNextLevel] returns [true], moves the
    index and the level one up and sets the level progress to 0, keeping
    the score, the uptime, the rules, the log and the queue; it saves the
    state, applies the settings of the new level and publishes
    [settings:updated] and then [level:changed] with that level, and
    neither [gameState:reset] nor [game:completed]. *)
Theorem startNextLevel_advances_level (m : Model) :
  0 <= currentLevelIndex m < gameModel.levels_length - 1 ->
  let m' := final (gameModel.startNextLevel m) in
  exists l,
    levelAt (currentLevelIndex m + 1) = Some l
    /\ lv_level l = level (state m')
    /\ result (gameModel.startNextLevel m) = Some true
    /\ currentLevelIndex m' = currentLevelIndex m + 1
    /\ state m'
       = set_levelProgress 0 (set_level (currentLevelIndex m + 2) (state m))
    /\ settings m' = settingsFor l (settings m)
    /\ localStorage m' = saved (state m') (localStorage m)
    /\ publishedSince m m'
       = saveNotice (localStorage m)
         ++ [settings_updated (settings m'); level_changed (Some l)].
Proof.
  intros Hidx m'. subst m'.
  destruct (startNextLevel_advances m Hidx) as [l [Hl [Hlv Hrun]]].
  exists l. rewrite Hrun. cbv zeta. cbn [final result state level
    set_levelProgress set_level currentLevelIndex settings localStorage].
  split; [exact Hl|]. split; [exact Hlv|].
  repeat (split; [reflexivity|]).
  now apply publishedSince_app.
Qed.

(** From the first level of a new session the next level is level 2, and
    the score stays. *)
Lemma startNextLevel_advances_level_witness :
  0 <= currentLevelIndex sample.started < gameModel.levels_length - 1
  /\ level (state (final (gameModel.startNextLevel sample.started))) = 2
  /\ score (state (final (gameModel.startNextLevel sample.started)))
     = score (state sample.started).
Proof.
  assert (Hidx : 0 <= currentLevelIndex sample.started
                 < gameModel.levels_length - 1)
    by (vm_compute; split; [discriminate | reflexivity]).
  split; [exact Hidx|].
  destruct (startNextLevel_advances_level sample.started Hidx)
    as [l [_ [_ [_ [_ [Hstate _]]]]]].
  rewrite Hstate. split; reflexivity.
Defined.

(** X18. The traffic buffer never holds more than 100 samples in a reachable
    model: [addEvent] appends one sample and, when that makes 101, drops the
    oldest. *)
Theorem trafficData_bounded (m : Model) :
  reachable m ->
  (List.length (trafficData (state m)) <= 100)%nat
  /\ forall event now now',
       let l := trafficData (state m) in
       let l' := trafficData (state (run (call_addEvent event now now') m)) in
       let sample := {| ts_timestamp := now'; packetCount := 1 |} in
       ((List.length l < 100)%nat -> l' = l ++ [sample])
       /\ (List.length l = 100%nat -> l' = List.tl l ++ [sample]).
Proof.
  intros Hr.
  assert (Hb : trafficBound m).
  { induction Hr as [st|m op Hr IH].
    - apply (preserves_final trafficBound);
        [|unfold trafficBound; cbn; lia].
      unfold gameModel.init. apply preserves_bind; [|intro].
      + intros m0. apply (run_trafficBound call_loadGameState).
      + intros m0. apply (run_trafficBound call_applyLevelSettings).
    - now apply run_trafficBound. }
  split; [exact Hb|].
  intros event now now' l l' sample. subst l'. cbn [run].
  rewrite addEvent_traffic. cbv zeta. fold l. fold sample.
  rewrite length_app. cbn [List.length].
  split; intros Hlen.
  - destruct (100 <? _) eqn:Hfull; [|reflexivity].
    apply Z.ltb_lt in Hfull. lia.
  - destruct (100 <? _) eqn:Hfull; [|apply Z.ltb_ge in Hfull; lia].
    destruct l; [discriminate | reflexivity].
Qed.

(** After one event the buffer of a new session holds one sample. *)
Lemma trafficData_bounded_witness :
  reachable sample.queued
  /\ (List.length (trafficData (state sample.queued)) <= 100)%nat.
Proof.
  assert (Hr : reachable sample.queued)
    by apply reachable_step, reachable_init.
  split; [exact Hr|]. now apply (trafficData_bounded sample.queued Hr).
Defined.

(** X19. [loadGameState] takes the rules of the stored record as they are,
    whether [validateRule] accepts them or not: for a storage whose item is
    within the types of the program, after [init] on a new session the
    rules are those of the record, none when there is no record, when it
    has no rules and when it is discarded. When the stored rules pass
    [validateRule], every rule of the state and of the storage passes it
    after any run of operations, since [addRule] is the only other source
    of rules. *)
Theorem rules_stay_valid (raw : RawStorage) (st : Storage)
    (ops : list Operation) :
  typedStorage raw = Some st ->
  let m := final (gameModel.init (fresh st)) in
  rules (state m) = storedRules st
  /\ (forall rule,
        In rule (storedRules st) ->
        ruleEngine.validateRule (Some rule) = false ->
        In rule (rules (state m)) /\ ~ rulesValid m)
  /\ (Forall valid (storedRules st) -> rulesValid (runAll ops m)).
Proof.
  intros Htyped m. subst m.
  assert (Hrules : rules (state (final (gameModel.init (fresh st))))
                   = storedRules st).
  { unfold gameModel.init, bind.
    destruct (loadGameState_rules (fresh st)) as [Hrules _].
    destruct (gameModel.loadGameState (fresh st)) as [[] m1|m1];
      cbn [final] in *.
    + rewrite applyLevelSettings_state, Hrules. unfold storedRules.
      cbn [localStorage fresh].
      destruct (item st) as [[|sv]|]; reflexivity.
    + rewrite Hrules. unfold storedRules. cbn [localStorage fresh].
      destruct (item st) as [[|sv]|]; reflexivity. }
  split; [exact Hrules|]. split.
  - intros rule Hin Hbad. rewrite Hrules. split; [exact Hin|].
    intros [Hvalid _]. rewrite Hrules, Forall_forall in Hvalid.
    specialize (Hvalid rule Hin). unfold valid in Hvalid. congruence.
  - intros Hst. apply runAll_invariant.
    + intros op m' _. apply run_rulesValid.
    + now apply init_rulesValid.
Qed.

(** A record whose only rule has the unknown condition type
    [sql_injection]: [addRule] refuses the rule, [init] loads it. *)
Lemma rules_stay_valid_witness :
  let raw :=
    {| getItem :=
         Some (parsesTo
                 (JSON.object
                    [("rules",
                      JSON.array
                        [JSON.object
                           [("conditionType", JSON.text "sql_injection");
                            ("combinator", JSON.text "AND")]])]));
       setItemWorks := true |} in
  let st :=
    stored {| sv_level := None; sv_score := None; sv_uptime := None;
              sv_rules := Some [sample.rule "sql_injection"];
              sv_levelProgress := None; sv_other := [] |} true in
  typedStorage raw = Some st
  /\ ruleEngine.validateRule (Some (sample.rule "sql_injection")) = false
  /\ rules (state (final (ruleEngine.addRule (sample.rule "sql_injection")
                            sample.started))) = []
  /\ rules (state (final (gameModel.init (fresh st))))
     = [sample.rule "sql_injection"].
Proof.
  intros raw st.
  assert (Ht : typedStorage raw = Some st) by reflexivity.
  split; [exact Ht|]. split; [reflexivity|]. split; [reflexivity|].
  destruct (rules_stay_valid raw st [] Ht) as [Hrules _].
  rewrite Hrules. reflexivity.
Defined.

(** X20. Only a reset, a level change and a load can lower the score or
    shorten the event log: over any run of the other operations the score
    does not decrease and the log only grows at its end. *)
Theorem score_and_log_grow (ops : list Operation) (m : Model) :
  Forall (fun op => restarts op = false) ops ->
  score (state m) <= score (state (runAll ops m))
  /\ exists added,
       events (state (runAll ops m)) = events (state m) ++ added.
Proof.
  intros Hops. change (grownFrom m (runAll ops m)).
  apply runAll_invariant.
  - intros op m' Hin. rewrite Forall_forall in Hops.
    specialize (Hops op Hin).
    apply run_grown; intros ->; discriminate.
  - split; [lia|]. exists []. now rewrite app_nil_r.
Qed.

(** A session in which an event arrives, is handled and then escalates
    nothing: the score has grown and the log begins as before. *)
Lemma score_and_log_grow_witness :
  Forall (fun op => restarts op = false)
    [call_addEvent (sample.loginFail 6) 0 0;
     call_markEventAsHandled (sample.loginFail 6) 1000;
     call_checkEscalations 50000]
  /\ score (state sample.started)
     <= score (state (runAll [call_addEvent (sample.loginFail 6) 0 0;
                              call_markEventAsHandled (sample.loginFail 6) 1000;
                              call_checkEscalations 50000] sample.started)).
Proof.
  assert (Hops : Forall (fun op => restarts op = false)
                   [call_addEvent (sample.loginFail 6) 0 0;
                    call_markEventAsHandled (sample.loginFail 6) 1000;
                    call_checkEscalations 50000])
    by (repeat constructor).
  split; [exact Hops|].
  now apply (score_and_log_grow _ sample.started Hops).
Defined.

(** ** The uptime under escalations *)

Lemma uptimePenalty_nonneg (event : Event) :
  0 <= ev_severity event -> (0 <= uptimePenalty event)%Q.
Proof.
  intros Hs. unfold uptimePenalty.
  assert (H : (0 <= inject_Z (ev_severity event))%Q)
    by (change 0%Q with (inject_Z 0); now rewrite <- Zle_Qle).
  destruct (String.eqb _ "traffic_spike"); [lra|].
  destruct (String.eqb _ "service_failure"); lra.
Qed.

Lemma countTopic_game_over (event : Event) (u : Q) :
  countTopic "game:over" (impactNotices event u)
  = if Qle_bool u 0 then 1%nat else 0%nat.
Proof. unfold impactNotices. now destruct (Qle_bool u 0). Qed.

Lemma handleEscalatedEvents_cons (e : Event) (es : list Event) (m : Model) :
  let u := JS.Math_max 0 (uptime (state m) - uptimePenalty e)%Q in
  let st := set_uptime u (state m) in
  escalationsController.handleEscalatedEvents (e :: es) m =
  escalationsController.handleEscalatedEvents es
    {| state := st;
       currentLevelIndex := currentLevelIndex m;
       settings := settings m;
       localStorage := saved st (localStorage m);
       published :=
         ((published m
           ++ [escalation_started e
                 (escalationsController.calculateSimulatedDamage e)])
          ++ impactNotices e u)
         ++ saveNotice (localStorage m) |}.
Proof.
  cbv zeta. unfold escalationsController.handleEscalatedEvents at 1.
  cbn [forEach]. fold (escalationsController.handleEscalatedEvents es).
  cbv [bind eventBus.publish modify].
  rewrite applyEscalationImpact_run. reflexivity.
Qed.

(** X21. The handler of [events:escalated] changes the uptime and nothing
    else of the state. After at least one event the uptime is not
    negative. When no severity is negative and the uptime was not negative,
    the uptime does not rise. Once the uptime is 0, every further escalated
    event publishes [game:over] again: as many times as the list is
    long. *)
Theorem handleEscalatedEvents_uptime (es : list Event) (m : Model) :
  let m' := final (escalationsController.handleEscalatedEvents es m) in
  besidesUptime (state m') = besidesUptime (state m)
  /\ (es <> [] -> (0 <= uptime (state m'))%Q)
  /\ ((forall e, In e es -> 0 <= ev_severity e) ->
      (0 <= uptime (state m))%Q ->
      (0 <= uptime (state m') <= uptime (state m))%Q)
  /\ ((forall e, In e es -> 0 <= ev_severity e) ->
      (uptime (state m) <= 0)%Q ->
      countTopic "game:over" (publishedSince m m') = List.length es).
Proof.
  cbv zeta. revert m. induction es as [|e es IH]; intros m.
  - cbn [escalationsController.handleEscalatedEvents forEach ret final].
    split; [reflexivity|]. split; [congruence|]. split; [intros _ H; lra|].
    intros _ _. unfold publishedSince. now rewrite skipn_all.
  - rewrite handleEscalatedEvents_cons. cbv zeta.
    set (u := JS.Math_max 0 (uptime (state m) - uptimePenalty e)%Q).
    set (m1 := {| state := _ |}).
    destruct (IH m1) as [Hsame [Hpos [Hfall Hover]]].
    assert (Hu : (0 <= u)%Q) by apply Math_max_0_nonneg.
    assert (Hu1 : uptime (state m1) = u) by reflexivity.
    split; [rewrite Hsame; reflexivity|].
    split; [|split].
    + intros _. destruct es as [|e' es'].
      * cbn [escalationsController.handleEscalatedEvents forEach ret final].
        now rewrite Hu1.
      * apply Hpos. discriminate.
    + intros Hsev Hm.
      assert (Hpen : (0 <= uptimePenalty e)%Q)
        by (apply uptimePenalty_nonneg, Hsev; now left).
      destruct Hfall as [Hlo Hhi].
      * intros e' He'. apply Hsev. now right.
      * now rewrite Hu1.
      * split; [exact Hlo|]. rewrite Hu1 in Hhi.
        apply Qle_trans with u; [exact Hhi|]. unfold u.
        destruct (Math_max_0_cases (uptime (state m) - uptimePenalty e))
          as [[_ ->]|[_ ->]]; lra.
    + intros Hsev Hm.
      assert (Hpen : (0 <= uptimePenalty e)%Q)
        by (apply uptimePenalty_nonneg, Hsev; now left).
      assert (Hzero : (u <= 0)%Q).
      { unfold u.
        destruct (Math_max_0_cases (uptime (state m) - uptimePenalty e))
          as [[_ ->]|[_ ->]]; lra. }
      assert (Hrest :
        countTopic "game:over"
          (publishedSince m1
             (final (escalationsController.handleEscalatedEvents es m1)))
        = List.length es).
      { apply Hover; [|now rewrite Hu1].
        intros e' He'. apply Hsev. now right. }
      destruct (handleEscalatedEvents_published es m1) as [l [Hl _]].
      unfold publishedSince in Hrest. rewrite Hl, skipn_length_app in Hrest.
      unfold publishedSince. rewrite Hl. unfold m1 at 1.
      cbn [published]. rewrite <- !app_assoc, skipn_length_app.
      rewrite !countTopic_app, countTopic_game_over, Hrest.
      apply Qle_bool_iff in Hzero. rewrite Hzero.
      rewrite countTopic_saveNotice by discriminate. reflexivity.
Qed.

(** ** The fields of generated events *)

Lemma Qfloor_lt (x : Q) (z : Z) : (x < inject_Z z)%Q -> Qfloor x < z.
Proof.
  intros H. rewrite Zlt_Qlt.
  apply Qle_lt_trans with x; [apply Qfloor_le | exact H].
Qed.

(** [Math.floor(Math.random() * k)] is one of 0, ..., k - 1. *)
Lemma floor_of_draw (r : Q) (k : Z) :
  draw r -> 0 < k -> 0 <= Qfloor (r * inject_Z k) < k.
Proof.
  intros [Hlo Hhi] Hk.
  assert (HK : (0 < inject_Z k)%Q)
    by (change 0%Q with (inject_Z 0); now rewrite <- Zlt_Qlt).
  split.
  - apply Qfloor_ge. change (inject_Z 0) with 0%Q. nra.
  - apply Qfloor_lt. nra.
Qed.

Lemma pick_member {A : Type} (l : list A) (r : Q) :
  draw r -> l <> [] ->
  exists x, eventGeneratorFields.pick l r = Some x /\ In x l.
Proof.
  intros Hr Hl.
  assert (Hlen : 0 < Z.of_nat (List.length l))
    by (destruct l; [congruence | cbn; lia]).
  destruct (floor_of_draw r _ Hr Hlen) as [Hlo Hhi].
  unfold eventGeneratorFields.pick, eventGeneratorFields.element.
  destruct (_ <? 0) eqn:Hneg; [apply Z.ltb_lt in Hneg; lia|].
  destruct (nth_error l (Z.to_nat _)) as [x|] eqn:Hnth.
  - exists x. split; [reflexivity|]. eapply nth_error_In, Hnth.
  - apply nth_error_None in Hnth. lia.
Qed.

Ltac generated_case Htype :=
  unfold eventGeneratorFields.addTypeSpecificProperties;
  cbn [ev_type eventGeneratorFields.set_ip];
  rewrite Htype; cbn [String.eqb Ascii.eqb Bool.eqb].

Lemma addTypeSpecificProperties_fields
    (event : Event) (template : Template) (random : nat -> Q) :
  (forall n, draw (random n)) ->
  let generated :=
    eventGeneratorFields.addTypeSpecificProperties event template random in
  ev_type generated = ev_type event
  /\ (ev_type event = "login_fail" ->
      exists count, ev_count generated = Some count /\ 1 <= count <= 10)
  /\ (ev_type event = "traffic_spike" ->
      exists volume,
        ev_volume generated = Some volume /\ 100 <= volume <= 599)
  /\ (ev_type event = "http_error" ->
      exists code,
        ev_code generated = Some code
        /\ In code eventGeneratorFields.errorCodes).
Proof.
  intros Hdraw generated. subst generated.
  split.
  { unfold eventGeneratorFields.addTypeSpecificProperties.
    cbn [ev_type eventGeneratorFields.set_ip].
    repeat match goal with
    | |- context [if ?c then _ else _] => destruct c
    end; reflexivity. }
  repeat split; intros Htype; generated_case Htype.
  - pose proof (floor_of_draw (random 3%nat) 10 (Hdraw 3%nat) eq_refl).
    change (inject_Z 10) with 10%Q in *.
    eexists. split; [reflexivity | lia].
  - pose proof (floor_of_draw (random 2%nat) 500 (Hdraw 2%nat) eq_refl).
    change (inject_Z 500) with 500%Q in *.
    eexists. split; [reflexivity | lia].
  - destruct (pick_member eventGeneratorFields.errorCodes (random 2%nat)
                (Hdraw 2%nat)) as [x [Hx Hin]]; [discriminate|].
    exists x. cbn [ev_code eventGeneratorFields.set_code]. now split.
Qed.

(** X22. The fields [addTypeSpecificProperties] gives an event, for draws of
    [Math.random] in [0, 1): an address 192.168.a.b with a and b from 0 to
    254; for a failed login a count from 1 to 10; for a traffic spike a
    volume from 100 to 599; for the five other types with a field of their
    own a value of the list of its generator, never [undefined]. Type,
    category, severity and time stamp are left alone. *)
Theorem addTypeSpecificProperties_ranges
    (event : Event) (template : Template) (random : nat -> Q) :
  (forall n, draw (random n)) ->
  let generated :=
    eventGeneratorFields.addTypeSpecificProperties event template random in
  (ev_timestamp generated, ev_type generated, ev_category generated,
   ev_severity generated)
  = (ev_timestamp event, ev_type event, ev_category event, ev_severity event)
  /\ (exists a b,
        0 <= a <= 254 /\ 0 <= b <= 254
        /\ ev_ip generated
           = Some ("192.168." ++ eventGeneratorFields.toString a ++ "."
                   ++ eventGeneratorFields.toString b)%string)
  /\ (ev_type event = "login_fail" ->
      exists count, ev_count generated = Some count /\ 1 <= count <= 10)
  /\ (ev_type event = "traffic_spike" ->
      exists volume,
        ev_volume generated = Some volume /\ 100 <= volume <= 599)
  /\ (ev_type event = "process_spawn" ->
      exists process,
        ev_process generated = Some process
        /\ In process eventGeneratorFields.processes)
  /\ (ev_type event = "dns_query" ->
      exists domain,
        ev_domain generated = Some domain
        /\ In domain eventGeneratorFields.domains)
  /\ (ev_type event = "http_error" ->
      exists code,
        ev_code generated = Some code
        /\ In code eventGeneratorFields.errorCodes)
  /\ (ev_type event = "unauthorized_access" ->
      exists resource,
        ev_resource generated = Some resource
        /\ In resource eventGeneratorFields.resources)
  /\ (ev_type event = "service_failure" ->
      exists service,
        ev_service generated = Some service
        /\ In service eventGeneratorFields.services).
Proof.
  intros Hdraw generated. subst generated.
  split.
  { unfold eventGeneratorFields.addTypeSpecificProperties.
    cbn [ev_type eventGeneratorFields.set_ip].
    repeat match goal with
    | |- context [if ?c then _ else _] => destruct c
    end; reflexivity. }
  split.
  { exists (Qfloor (random 0%nat * 255)), (Qfloor (random 1%nat * 255)).
    pose proof (floor_of_draw (random 0%nat) 255 (Hdraw 0%nat) eq_refl).
    pose proof (floor_of_draw (random 1%nat) 255 (Hdraw 1%nat) eq_refl).
    change (inject_Z 255) with 255%Q in *.
    split; [lia|]. split; [lia|].
    unfold eventGeneratorFields.addTypeSpecificProperties.
    cbn [ev_type eventGeneratorFields.set_ip].
    repeat match goal with
    | |- context [if ?c then _ else _] => destruct c
    end; reflexivity. }
  repeat split; intros Htype; generated_case Htype.
  - pose proof (floor_of_draw (random 3%nat) 10 (Hdraw 3%nat) eq_refl).
    change (inject_Z 10) with 10%Q in *.
    eexists. split; [reflexivity | lia].
  - pose proof (floor_of_draw (random 2%nat) 500 (Hdraw 2%nat) eq_refl).
    change (inject_Z 500) with 500%Q in *.
    eexists. split; [reflexivity | lia].
  - destruct (pick_member eventGeneratorFields.processes (random 2%nat)
                (Hdraw 2%nat)) as [x [Hx Hin]]; [discriminate|].
    exists x. cbn [ev_process eventGeneratorFields.set_process]. now split.
  - destruct (pick_member eventGeneratorFields.domains (random 2%nat)
                (Hdraw 2%nat)) as [x [Hx Hin]]; [discriminate|].
    exists x. cbn [ev_domain eventGeneratorFields.set_domain]. now split.
  - destruct (pick_member eventGeneratorFields.errorCodes (random 2%nat)
                (Hdraw 2%nat)) as [x [Hx Hin]]; [discriminate|].
    exists x. cbn [ev_code eventGeneratorFields.set_code]. now split.
  - destruct (pick_member eventGeneratorFields.resources (random 3%nat)
                (Hdraw 3%nat)) as [x [Hx Hin]]; [discriminate|].
    exists x. cbn [ev_resource eventGeneratorFields.set_resource]. now split.
  - destruct (pick_member eventGeneratorFields.services (random 2%nat)
                (Hdraw 2%nat)) as [x [Hx Hin]]; [discriminate|].
    exists x. cbn [ev_service eventGeneratorFields.set_service]. now split.
Qed.

(** With every draw at one half a failed login is given a count within
    the range. *)
Lemma addTypeSpecificProperties_ranges_witness :
  (forall n : nat, draw ((fun _ => 1 # 2) n))
  /\ exists count,
       ev_count (eventGeneratorFields.addTypeSpecificProperties
                   (sample.loginFail 0) sample.sqlInjection (fun _ => 1 # 2))
       = Some count
       /\ 1 <= count <= 10.
Proof.
  assert (Hdraw : forall n : nat, draw ((fun _ => 1 # 2) n))
    by (intros n; split; [discriminate | reflexivity]).
  split; [exact Hdraw|].
  now apply (addTypeSpecificProperties_ranges (sample.loginFail 0)
               sample.sqlInjection (fun _ => 1 # 2) Hdraw).
Defined.

(** X23. Thresholds that cannot tell generated events apart. On a generated
    failed login a [login_fail] rule never fires with a threshold of 10 or
    more and always fires with a threshold below 1; on a generated traffic
    spike a [traffic_spike] rule never fires from 599 on and always below
    100; on a generated HTTP error an [http_error] rule never fires above
    503, although [validateRule] admits thresholds up to 599, and always
    fires up to 400. *)
Theorem generated_event_thresholds
    (event : Event) (template : Template) (random : nat -> Q)
    (rule : Rule) (t : Z) :
  (forall n, draw (random n)) ->
  let generated :=
    eventGeneratorFields.addTypeSpecificProperties event template random in
  let fires := ruleEngine.evaluateRule (Some rule) (Some generated) in
  (ev_type event = "login_fail" -> conditionType rule = "login_fail" ->
   JS.parseInt (threshold rule) = Some t ->
   (10 <= t -> fires = false) /\ (t < 1 -> fires = true))
  /\ (ev_type event = "traffic_spike" ->
      conditionType rule = "traffic_spike" ->
      JS.parseInt (threshold rule) = Some t ->
      (599 <= t -> fires = false) /\ (t < 100 -> fires = true))
  /\ (ev_type event = "http_error" -> conditionType rule = "http_error" ->
      JS.parseInt (errorCodeThreshold rule) = Some t ->
      (503 < t -> fires = false) /\ (t <= 400 -> fires = true)).
Proof.
  intros Hdraw generated fires.
  destruct (addTypeSpecificProperties_fields event template random Hdraw)
    as [Hkept [Hcount [Hvolume Hcode]]].
  fold generated in Hkept, Hcount, Hvolume, Hcode.
  split; [|split]; intros Htype Hct Ht; subst fires;
    unfold ruleEngine.evaluateRule; rewrite Hct;
    cbn [String.eqb Ascii.eqb Bool.eqb]; rewrite Hkept, Htype, Ht;
    cbn [String.eqb Ascii.eqb Bool.eqb andb].
  - destruct (Hcount Htype) as [c [-> Hc]]. cbn [JS.parseInt_number JS.gt].
    split; intros H; [apply Z.ltb_ge | apply Z.ltb_lt]; lia.
  - destruct (Hvolume Htype) as [v [-> Hv]]. cbn [JS.parseInt_number JS.gt].
    split; intros H; [apply Z.ltb_ge | apply Z.ltb_lt]; lia.
  - destruct (Hcode Htype) as [c [-> Hc]]. cbn [JS.parseInt_number JS.ge].
    assert (Hrange : 400 <= c <= 503) by (cbn in Hc; lia).
    split; intros H; [apply Z.leb_gt | apply Z.leb_le]; lia.
Qed.

(** A rule "more than 10 failed logins" on a generated failed login. *)
Lemma generated_event_thresholds_witness :
  (forall n : nat, draw ((fun _ => 1 # 2) n))
  /\ ruleEngine.evaluateRule (Some (sample.loginRule "10"))
       (Some (eventGeneratorFields.addTypeSpecificProperties
                (sample.loginFail 0) sample.sqlInjection (fun _ => 1 # 2)))
     = false.
Proof.
  assert (Hdraw : forall n : nat, draw ((fun _ => 1 # 2) n))
    by (intros n; split; [discriminate | reflexivity]).
  split; [exact Hdraw|].
  destruct (generated_event_thresholds (sample.loginFail 0)
              sample.sqlInjection (fun _ => 1 # 2) (sample.loginRule "10") 10
              Hdraw) as [Hlogin _].
  destruct (Hlogin eq_refl eq_refl eq_refl) as [Hnever _].
  apply Hnever. lia.
Defined.

(** ** The template chosen *)

Lemma selectFrom_member (levelSettings : Level) (l : list Template)
    (randomNum weightSum : Q) (t : Template) :
  eventGenerator.selectFrom
    (List.map (eventGenerator.weighted levelSettings) l) randomNum weightSum
  = Some t ->
  In t l.
Proof.
  revert weightSum. induction l as [|x l IH]; intros weightSum;
    cbn [List.map eventGenerator.selectFrom].
  - discriminate.
  - destruct (Qle_bool _ _).
    + rewrite weighted_factor. cbn [fst]. intros [= ->]. now left.
    + intros H. right. exact (IH _ H).
Qed.

(** X24. [chooseEventTemplate] returns a template of the catalog whatever
    the level settings and the draw are, the weights being zero or negative
    included: the result is [undefined] only for an empty catalog. So an
    event generated from the catalog of the program has one of its fifteen
    types. *)
Theorem chooseEventTemplate_member
    (possibleEvents : list Template) (levelSettings : Level) (random : Q) :
  (possibleEvents <> [] ->
   exists template,
     eventGenerator.chooseEventTemplate possibleEvents levelSettings random
     = Some template
     /\ In template possibleEvents)
  /\ eventGenerator.chooseEventTemplate [] levelSettings random = None
  /\ exists template,
       eventGenerator.chooseEventTemplate threats.possibleEvents levelSettings
         random = Some template
       /\ In template threats.possibleEvents.
Proof.
  assert (H : forall l, l <> [] ->
            exists template,
              eventGenerator.chooseEventTemplate l levelSettings random
              = Some template
              /\ In template l).
  { intros l Hl. unfold eventGenerator.chooseEventTemplate.
    destruct (eventGenerator.selectFrom _ _ _) as [t|] eqn:Hsel.
    - exists t. split; [reflexivity|]. eapply selectFrom_member, Hsel.
    - destruct l as [|x l]; [congruence|]. exists x. split; [reflexivity|].
      now left. }
  split; [apply H|]. split; [reflexivity|]. apply H. discriminate.
Qed.

(** ** Starting and resetting *)






(** X26. [resetGameState] does not touch the settings. After a level
    change it brings the state back to level 1 and to index 0, but the
    event frequency, the noise probability and the sophistication stay
    those of the level left, which are not those of level 1, until
    [applyLevelSettings] is called. *)
Theorem resetGameState_keeps_level_settings (m : Model) :
  0 <= currentLevelIndex m < gameModel.levels_length - 1 ->
  let advanced := final (gameModel.startNextLevel m) in
  let m' := final (gameModel.resetGameState advanced) in
  state m' = gameModel.initialState
  /\ currentLevelIndex m' = 0
  /\ settings m' = settings advanced
  /\ exists l l1,
       levelAt (currentLevelIndex m + 1) = Some l
       /\ levelAt 0 = Some l1
       /\ eventFrequencyMultiplier (settings m')
          = lv_eventFrequencyMultiplier l
       /\ ~ (lv_eventFrequencyMultiplier l == lv_eventFrequencyMultiplier l1)%Q
       /\ settings (final (gameModel.applyLevelSettings m'))
          = settingsFor l1 (settings m').
Proof.
  intros Hidx. cbv zeta.
  destruct (startNextLevel_advances m Hidx) as [l [Hl [Hlv Hrun]]].
  rewrite Hrun. cbv zeta. cbn [final]. rewrite resetGameState_run.
  cbn [final state currentLevelIndex settings].
  split; [reflexivity|]. split; [reflexivity|]. split; [reflexivity|].
  exists l. eexists. split; [exact Hl|]. split; [reflexivity|].
  split; [reflexivity|]. split.
  - change gameModel.levels_length with 3 in Hidx.
    assert (H : currentLevelIndex m = 0 \/ currentLevelIndex m = 1) by lia.
    destruct H as [H|H]; rewrite H in Hl; injection Hl as <-; discriminate.
  - rewrite applyLevelSettings_run. reflexivity.
Qed.

(** From level 1 to level 2 and reset: the level is 1 again, the event
    frequency multiplier is still the 0.6 of level 2. *)
Lemma resetGameState_keeps_level_settings_witness :
  0 <= currentLevelIndex sample.started < gameModel.levels_length - 1
  /\ level (state (final (gameModel.resetGameState
                            (final (gameModel.startNextLevel sample.started)))))
     = 1
  /\ eventFrequencyMultiplier
       (settings (final (gameModel.resetGameState
                           (final (gameModel.startNextLevel sample.started)))))
     = 0.6%Q.
Proof.
  assert (Hidx : 0 <= currentLevelIndex sample.started
                 < gameModel.levels_length - 1)
    by (vm_compute; split; [discriminate | reflexivity]).
  split; [exact Hidx|].
  destruct (resetGameState_keeps_level_settings sample.started Hidx)
    as [Hstate [_ [_ [l [l1 [Hl [_ [Hfreq _]]]]]]]].
  rewrite Hstate, Hfreq. injection Hl as <-. split; reflexivity.
Defined.

(** ** From arrival to escalation *)

(** X27. A malicious event that no rule matches, arriving on an empty queue,
    is queued unhandled by its generation tick, which changes neither the
    score nor the uptime. A tick of the escalation timer before the timeout
    has passed returns nothing and keeps the entry; the first one at or past
    the timeout returns the event, empties the queue, publishes
    [events:escalated], [escalation:started] and [uptime:updated], and
    lowers the uptime by the penalty of the event, not below 0. *)
Theorem unhandled_event_escalates
    (event : Event) (now now' now'' : Z) (m : Model) :
  ev_category event = "malicious" ->
  triggered event m = [] ->
  pending m = [] ->
  let m1 := final (gameController.simulationTick event now now' now'' m) in
  let timeout := escalationTimeout (settings m) in
  let u := JS.Math_max 0 (uptime (state m) - uptimePenalty event)%Q in
  pending m1 = [entry event now false]
  /\ score (state m1) = score (state m)
  /\ uptime (state m1) = uptime (state m)
  /\ (forall t,
        t - now < timeout ->
        gameController.escalationTick t m1 = Returned [] m1)
  /\ (forall t,
        timeout <= t - now ->
        let m2 := final (gameController.escalationTick t m1) in
        result (gameController.escalationTick t m1) = Some [event]
        /\ pending m2 = []
        /\ uptime (state m2) = u
        /\ score (state m2) = score (state m)
        /\ publishedSince m1 m2
           = [events_escalated [event];
              escalation_started event
                (escalationsController.calculateSimulatedDamage event)]
             ++ impactNotices event u ++ saveNotice (localStorage m)).
Proof.
  intros Hcat Htr Hpending. cbv zeta.
  destruct (simulationTick_run event now now' now'' m) as [traffic Hrun].
  rewrite Hrun. clear Hrun.
  set (m1 := {| state := _ |}).
  assert (Htr1 : triggered event m1 = []) by exact Htr.
  rewrite handleNewEvent_run, Htr1. cbn [final].
  assert (Hq : pending m1 = [entry event now false]).
  { unfold m1, pending at 1, enqueue, entry.
    cbn [state pendingMaliciousEvents set_trafficData
         set_pendingMaliciousEvents].
    now rewrite Hcat, Hpending. }
  split; [exact Hq|]. split; [reflexivity|]. split; [reflexivity|].
  assert (Ht1 : escalationTimeout (settings m1)
                = escalationTimeout (settings m)) by reflexivity.
  assert (Hesc : forall t,
            escalates t (escalationTimeout (settings m))
              (entry event now false)
            = (escalationTimeout (settings m) <=? t - now)) by reflexivity.
  assert (Hstay : forall t,
            staysPending t (escalationTimeout (settings m))
              (entry event now false)
            = (t - now <? escalationTimeout (settings m))) by reflexivity.
  split.
  - intros t Ht. unfold gameController.escalationTick. unfold bind.
    rewrite checkEscalations_run. cbv zeta. rewrite Hq, Ht1.
    cbn [List.filter]. rewrite Hesc, Hstay.
    apply Z.ltb_lt in Ht. rewrite Ht. rewrite Z.leb_antisym, Ht.
    cbn [negb List.map escalationNotice List.length Z.of_nat Z.ltb
         Z.compare ret].
    unfold ret. f_equal. unfold m1.
    cbn [state currentLevelIndex settings localStorage published
         set_pendingMaliciousEvents set_trafficData set_events].
    rewrite app_nil_r. unfold enqueue, entry. rewrite Hcat, Hpending.
    reflexivity.
  - intros t Ht. unfold gameController.escalationTick. unfold bind.
    rewrite checkEscalations_run. cbv zeta. rewrite Hq, Ht1.
    cbn [List.filter]. rewrite Hesc, Hstay.
    apply Z.leb_le in Ht. rewrite Ht.
    rewrite (Z.ltb_antisym _ (t - now)), Ht.
    cbn [negb List.map escalationNotice List.length Z.of_nat Z.ltb
         Z.compare Pos.of_succ_nat entry pe_event].
    rewrite handleEscalatedEvents_cons. cbv zeta.
    cbn [escalationsController.handleEscalatedEvents forEach ret result final
         state pending pendingMaliciousEvents set_uptime uptime score
         set_pendingMaliciousEvents].
    split; [reflexivity|]. split; [reflexivity|]. split; [reflexivity|].
    split; [reflexivity|].
    apply publishedSince_app. cbn [published localStorage].
    now rewrite <- !app_assoc.
Qed.

(** A failed login of severity 3 on a new session without rules: at 45
    seconds it escalates and the uptime falls from 100 to 94. *)
Lemma unhandled_event_escalates_witness :
  let m1 :=
    final (gameController.simulationTick (sample.loginFail 6) 0 0 0
             sample.started) in
  triggered (sample.loginFail 6) sample.started = []
  /\ pending sample.started = []
  /\ result (gameController.escalationTick 45000 m1)
     = Some [sample.loginFail 6]
  /\ (uptime (state (final (gameController.escalationTick 45000 m1))) == 94)%Q.
Proof.
  intros m1. split; [reflexivity|]. split; [reflexivity|].
  destruct (unhandled_event_escalates (sample.loginFail 6) 0 0 0
              sample.started eq_refl eq_refl eq_refl)
    as [_ [_ [_ [_ Hlate]]]].
  destruct (Hlate 45000) as [Hr [_ [Hu _]]]; [vm_compute; discriminate|].
  fold m1 in Hr, Hu. split; [exact Hr|]. rewrite Hu. vm_compute. reflexivity.
Defined.
